(** * arxivCollector: pagination, extraction and archiving

    A shallow embedding of [script/arxivCollector.py].  Python [str] values
    are sequences of Unicode code points, dictionaries are finite maps, the
    [while True] loop of [collect_records] is a step function iterated under
    fuel, and the network and the file system are explicit arguments. *)

From Stdlib Require Import ZArith NArith Ascii String List Lia DecimalString.
From stdpp Require Import base option list gmap strings.

Local Open Scope Z_scope.

(** ** Python strings *)

Module Text.

(** A Python [str]: the sequence of its code points. *)
Abbreviation pystr := (list N).

(** An ASCII literal of the source, as a [pystr]. *)
Definition py (s : string) : pystr :=
  List.map N_of_ascii (list_ascii_of_string s).

Definition truthy (s : pystr) : bool :=
  match s with [] => false | _ :: _ => true end.

(** [str.isspace] on one code point; it is also the class [\s] of [re] on
    [str] patterns and the default set of [str.strip]. *)
Definition is_space (c : N) : bool :=
  ((9 <=? c) && (c <=? 13) || (28 <=? c) && (c <=? 32)
   || (c =? 133) || (c =? 160) || (c =? 5760)
   || (8192 <=? c) && (c <=? 8202)
   || (c =? 8232) || (c =? 8233) || (c =? 8239) || (c =? 8287)
   || (c =? 12288))%N.

(** The decimal digits are the code points of category Nd.  They come in
    runs of ten consecutive code points, for the digits 0 to 9;
    [decimal_zeros] lists the zero of each run, by the Unicode database of
    CPython 3.11 (Unicode 14.0), in code point order. *)
Definition decimal_zeros : list N :=
  [48; 1632; 1776; 1984; 2406; 2534; 2662; 2790; 2918; 3046; 3174; 3302;
   3430; 3558; 3664; 3792; 3872; 4160; 4240; 6112; 6160; 6470; 6608; 6784;
   6800; 6992; 7088; 7232; 7248; 42528; 43216; 43264; 43472; 43504; 43600;
   44016; 65296; 66720; 68912; 69734; 69872; 69942; 70096; 70384; 70736;
   70864; 71248; 71360; 71472; 71904; 72016; 72784; 73040; 73120; 92768;
   92864; 93008; 120782; 120792; 120802; 120812; 120822; 123200; 123632;
   125264; 130032]%N.

(** The digit a code point stands for, if it is a decimal digit. *)
Definition decimal_value (c : N) : option Z :=
  match List.find (λ z, (z <=? c) && (c <=? z + 9))%N decimal_zeros with
  | Some z => Some (Z.of_N (c - z))
  | None => None
  end.

(** The class [\d] of [re] on [str] patterns: every decimal digit, the
    ASCII ones and the others. *)
Definition is_digit (c : N) : bool :=
  match decimal_value c with Some _ => true | None => false end.

(** The range [0-9] of a character class. *)
Definition is_ascii_digit (c : N) : bool := ((48 <=? c) && (c <=? 57))%N.

Definition is_upper (c : N) : bool := ((65 <=? c) && (c <=? 90))%N.
Definition is_lower (c : N) : bool := ((97 <=? c) && (c <=? 122))%N.

Fixpoint drop_while (P : N -> bool) (s : pystr) : pystr :=
  match s with
  | [] => []
  | c :: r => if P c then drop_while P r else s
  end.

(** [s.lstrip(chars)], [s.rstrip(chars)] and [s.strip(chars)], with the
    character set given as a predicate. *)
Definition lstrip_by (P : N -> bool) (s : pystr) : pystr := drop_while P s.
Definition rstrip_by (P : N -> bool) (s : pystr) : pystr :=
  rev (drop_while P (rev s)).
Definition strip_by (P : N -> bool) (s : pystr) : pystr :=
  rstrip_by P (lstrip_by P s).

(** [s.strip()] *)
Definition strip (s : pystr) : pystr := strip_by is_space s.

Fixpoint prefix_b (p s : pystr) : bool :=
  match p, s with
  | [], _ => true
  | _ :: _, [] => false
  | a :: p', b :: s' => (a =? b)%N && prefix_b p' s'
  end.

(** [s.startswith(p)] and [s.endswith(p)] *)
Definition startswith (s p : pystr) : bool := prefix_b p s.
Definition endswith (s p : pystr) : bool := prefix_b (rev p) (rev s).

(** [p in s] *)
Fixpoint contains (p s : pystr) : bool :=
  prefix_b p s || match s with [] => false | _ :: r => contains p r end.

(** [s.replace(old, new)] for a non-empty [old] (both call sites pass a
    literal): occurrences are found left to right and do not overlap;
    [skip] counts the characters of a found occurrence still to pass. *)
Fixpoint replace_from (old new : pystr) (skip : nat) (s : pystr) : pystr :=
  match s with
  | [] => []
  | c :: r =>
      match skip with
      | S k => replace_from old new k r
      | O =>
          if prefix_b old s
          then new ++ replace_from old new (pred (length old)) r
          else c :: replace_from old new O r
      end
  end.

Definition replace (old new s : pystr) : pystr := replace_from old new O s.

(** [s.split(sep)] and [s.split(sep, maxsplit)] for a one-character
    separator; the result is never empty. *)
Fixpoint split (sep : N) (maxsplit : option nat) (s : pystr) : list pystr :=
  match s with
  | [] => [[]]
  | c :: r =>
      let cut := (c =? sep)%N &&
                 match maxsplit with Some O => false | _ => true end in
      if cut then [] :: split sep (Nat.pred <$> maxsplit) r
      else
        match split sep maxsplit r with
        | seg :: segs => (c :: seg) :: segs
        | [] => [[c]]
        end
  end.

(** [l[0]] and [l[-1]] on the lists [split] returns. *)
Definition first_item (l : list pystr) : pystr := List.hd [] l.
Definition last_item (l : list pystr) : pystr := List.last l [].

(** [sep.join(l)] *)
Fixpoint join (sep : pystr) (l : list pystr) : pystr :=
  match l with
  | [] => []
  | [x] => x
  | x :: r => x ++ sep ++ join sep r
  end.

(** [str(n)] for an [int]. *)
Definition str_of_Z (n : Z) : pystr :=
  py (NilZero.string_of_int (Z.to_int n)).

(** [sys.int_max_str_digits], which the source leaves at its default. *)
Definition int_max_str_digits : Z := 4300.

(** [int(s)] on a string of decimal digits, which is what group 1 of the
    pattern is once its commas are removed: the digits are read by their
    value, whatever their script.  [None] is the [ValueError] raised on the
    empty string and on a string of more than [int_max_str_digits]
    digits. *)
Fixpoint digits_value (acc : Z) (s : pystr) : option Z :=
  match s with
  | [] => Some acc
  | c :: r =>
      match decimal_value c with
      | Some d => digits_value (10 * acc + d) r
      | None => None
      end
  end.

Definition int_of (s : pystr) : option Z :=
  match s with
  | [] => None
  | _ :: _ =>
      if int_max_str_digits <? Z.of_nat (length s) then None
      else digits_value 0 s
  end.

End Text.

Import Text.

(** ** Regular expressions of the source *)

Module Regex.

(** [re.sub(r"\s+", "_", s)]: every maximal run of whitespace becomes one
    underscore; [in_run] tells that the run was already replaced. *)
Fixpoint sub_spaces_from (in_run : bool) (s : pystr) : pystr :=
  match s with
  | [] => []
  | c :: r =>
      if is_space c
      then (if in_run then sub_spaces_from true r
            else 95%N :: sub_spaces_from true r)
      else c :: sub_spaces_from false r
  end.

Definition sub_spaces (s : pystr) : pystr := sub_spaces_from false s.

(** The class [[A-Za-z0-9_.-]]. *)
Definition slug_char (c : N) : bool :=
  is_upper c || is_lower c || is_ascii_digit c
  || (c =? 95)%N || (c =? 46)%N || (c =? 45)%N.

(** [re.sub(r"[^A-Za-z0-9_.-]", "_", s)] *)
Definition sub_unsafe (s : pystr) : pystr :=
  List.map (fun c => if slug_char c then c else 95%N) s.

(** One literal character of a pattern compiled with [re.IGNORECASE]: the
    letters of the source's pattern are ASCII, and besides the two cases of
    a letter [re] lets i match U+0130 and U+0131, s match U+017F and k
    match U+212A. *)
Definition ascii_lower (c : N) : N := if is_upper c then (c + 32)%N else c.

Definition ci_eq (p c : N) : bool :=
  let p := ascii_lower p in
  ((p =? ascii_lower c)
   || (p =? 105) && ((c =? 304) || (c =? 305))
   || (p =? 115) && (c =? 383)
   || (p =? 107) && (c =? 8490))%N.

(** A literal at the head of [s]; the rest of [s] when it matches. *)
Fixpoint lit_ci (p s : pystr) : option pystr :=
  match p with
  | [] => Some s
  | a :: p' =>
      match s with
      | [] => None
      | c :: r => if ci_eq a c then lit_ci p' r else None
      end
  end.

(** The longest prefix of [s] in a class, and what follows it. *)
Fixpoint span (P : N -> bool) (s : pystr) : pystr * pystr :=
  match s with
  | [] => ([], [])
  | c :: r =>
      if P c then let '(m, rest) := span P r in (c :: m, rest)
      else ([], s)
  end.

(** [P+]: a non-empty longest prefix. *)
Definition many1 (P : N -> bool) (s : pystr) : option (pystr * pystr) :=
  let '(m, rest) := span P s in
  if truthy m then Some (m, rest) else None.

(** [P*] *)
Definition many (P : N -> bool) (s : pystr) : pystr := (span P s).2.

(** [RESULT_COUNT_PATTERN] matched at the head of [s]; the result is group
    1.  Every repetition of the pattern is followed by an item that starts
    outside its class, so the longest repetition is the only one that can
    lead to a match and no backtracking is lost. *)
Definition result_count_at (s : pystr) : option pystr :=
  s ← lit_ci (py "Showing") s;
  '(_, s) ← many1 is_space s;
  '(_, s) ← many1 is_digit s;
  let s := many is_space s in
  s ← (match lit_ci (py "&ndash;") s with
       | Some r => Some r
       | None => lit_ci (py "-") s
       end);
  let s := many is_space s in
  '(_, s) ← many1 is_digit s;
  '(_, s) ← many1 is_space s;
  s ← lit_ci (py "of") s;
  '(_, s) ← many1 is_space s;
  '(total, s) ← many1 (λ c, is_digit c || (c =? 44)%N) s;
  '(_, s) ← many1 is_space s;
  _ ← lit_ci (py "results") s;
  Some total.

(** [RESULT_COUNT_PATTERN.search(text)], reduced to [match.group(1)]. *)
Fixpoint result_count_search (s : pystr) : option pystr :=
  match result_count_at s with
  | Some total => Some total
  | None =>
      match s with
      | [] => None
      | _ :: r => result_count_search r
      end
  end.

End Regex.

Import Regex.

(** ** Slugs and file names *)

(** The set ["_."] of [safe.strip("_.")]. *)
Definition underscore_or_dot (c : N) : bool := ((c =? 95) || (c =? 46))%N.

Definition slugify (value : pystr) : pystr :=
  let safe := sub_spaces (strip value) in
  let safe := sub_unsafe safe in
  let safe := strip_by underscore_or_dot safe in
  if truthy safe then safe else py "search".

Definition sanitize_filename (value : pystr) : pystr := slugify value.


(** ** Parsed pages *)

(** What the selectors of the source see of a [BeautifulSoup] tree. *)

(** An [a] element that carries an [href] attribute, with its text nodes
    in document order. *)
Record Anchor := {
  href : pystr;
  anchor_strings : list pystr
}.

(** An [li.arxiv-result] element: the text nodes of its first
    [p.title.is-5] descendant, if any, and the [a] elements below its
    [p.list-title] elements, in document order. *)
Record ResultItem := {
  title_el : option (list pystr);
  list_title_links : list Anchor
}.

(** A page: the text nodes of each [p] element of the document (what
    [select("p.title.is-clearfix, p")] returns, in document order) and the
    result items.  The [p] elements inside the result items, their titles
    among them, are [p] elements of the document. *)
Record Soup := {
  paragraphs : list (list pystr);
  results : list ResultItem
}.

(** The [p] elements of a result item that the selectors of the source
    tell of: its [p.list-title] with the text of its links, and its
    title. *)
Definition item_paragraphs (item : ResultItem) : list (list pystr) :=
  List.concat (anchor_strings <$> list_title_links item) ::
  match title_el item with
  | Some strings => [strings]
  | None => []
  end.

(** [element.stripped_strings]: every text node stripped, the empty ones
    left out. *)
Definition stripped_strings (strings : list pystr) : list pystr :=
  List.filter truthy (List.map strip strings).

(** [element.get_text(strip=True)] *)
Definition get_text_strip (strings : list pystr) : pystr :=
  List.concat (stripped_strings strings).

(** [item.select_one('p.list-title a[href^="prefix"]')] *)
Definition select_link (prefix : pystr) (links : list Anchor) : option Anchor :=
  List.find (λ a, startswith (href a) prefix) links.

(** ** Exceptions *)

(** [RequestException] is what [session.get] and [raise_for_status]
    raise, [ValueError] what [int] raises, [OSError] what the file system
    raises outside the [try] of [download_papers]. *)
Inductive exn := RequestException | ValueError | OSError.

Inductive outcome (A : Type) :=
| Ok (a : A)
| Raise (e : exn).
Arguments Ok {A} a.
Arguments Raise {A} e.

(** ** Record extractor *)

(** A record is a [Dict[str, str]]. *)
Abbreviation record := (gmap string pystr).

Fixpoint first_total (counters : list (list pystr)) : outcome (option Z) :=
  match counters with
  | [] => Ok None
  | element :: rest =>
      let text := get_text_strip element in
      if contains (py "Showing") text && contains (py "results") text then
        match result_count_search text with
        | Some group1 =>
            match int_of (replace (py ",") [] group1) with
            | Some n => Ok (Some n)
            | None => Raise ValueError
            end
        | None => first_total rest
        end
      else first_total rest
  end.

Definition extract_total_results (soup : Soup) : outcome (option Z) :=
  first_total (paragraphs soup).

Definition abs_prefix : pystr := py "https://arxiv.org/abs/".
Definition pdf_prefix : pystr := py "https://arxiv.org/pdf/".

(** The identifier of lines 167 to 169. *)
Definition identifier_of (abs_el : Anchor) : pystr :=
  let abs_url := strip (href abs_el) in
  let identifier :=
    strip (replace (py "arXiv:") [] (get_text_strip (anchor_strings abs_el))) in
  if negb (truthy identifier) && truthy abs_url
  then last_item (split 47 None (rstrip_by (λ c, (c =? 47)%N) abs_url))
  else identifier.

(** The body of the loop of [extract_records]; [None] is [continue]. *)
Definition extract_record (item : ResultItem) : option record :=
  let title :=
    match title_el item with
    | Some strings => join (py " ") (stripped_strings strings)
    | None => []
    end in
  match select_link abs_prefix (list_title_links item) with
  | None => None
  | Some abs_el =>
      let abs_url := strip (href abs_el) in
      let identifier := identifier_of abs_el in
      let pdf_url :=
        match select_link pdf_prefix (list_title_links item) with
        | None => None
        | Some pdf_el =>
            let pdf_url := strip (href pdf_el) in
            if truthy pdf_url && negb (endswith pdf_url (py ".pdf"))
            then Some (first_item (split 63 (Some 1%nat) pdf_url))
            else Some pdf_url
        end in
      let rec : record :=
        <["id" := identifier]> (<["title" := title]> (<["abs_url" := abs_url]> ∅)) in
      match pdf_url with
      | Some u => if truthy u then Some (<["pdf_url" := u]> rec) else Some rec
      | None => Some rec
      end
  end.

Fixpoint extract_records_of (items : list ResultItem) : list record :=
  match items with
  | [] => []
  | item :: rest =>
      match extract_record item with
      | Some rec => rec :: extract_records_of rest
      | None => extract_records_of rest
      end
  end.

Definition extract_records (soup : Soup) : list record :=
  extract_records_of (results soup).

(** ** Page fetcher *)

(** The arguments of [session.get(BASE_URL, params=..., headers=...)]. *)
Record Request := {
  params : gmap string pystr;
  headers : option (gmap string pystr)
}.

(** The listing endpoint behind the session: from the requests already
    served and the current one, either the parsed page with the resolved
    [response.url], or the exception of [session.get] or
    [raise_for_status]. *)
Definition Server : Type := list Request → Request → outcome (Soup * pystr).

(** One call of [fetch_page], as the run records it: the value of [start]
    when it was issued, the request and what came back. *)
Record Exchange := {
  ex_start : Z;
  ex_request : Request;
  ex_response : outcome (Soup * pystr)
}.

Definition fetch_page (server : Server) (history : list Exchange)
    (request : Request) : outcome (Soup * pystr) :=
  server (ex_request <$> history) request.

(** ** Pagination controller *)

Record Config := {
  cfg_query : pystr;
  cfg_size : Z;
  cfg_order : pystr;
  cfg_searchtype : pystr;
  cfg_abstracts : pystr;
  cfg_max_pages : option Z;
  cfg_initial_referer : option pystr;
  cfg_initial_sec_fetch_site : option pystr;
  cfg_source : pystr
}.

(** The local variables of [collect_records], and the exchanges so far.  The
    progress bar only observes the run and is left out. *)
Record State := {
  collected : list record;
  seen : gset pystr;
  start : Z;
  total_results : option Z;
  page_index : Z;
  last_referer : option pystr;
  trace : list Exchange
}.

Definition initial_state (cfg : Config) : State := {|
  collected := [];
  seen := ∅;
  start := 0;
  total_results := None;
  page_index := 0;
  last_referer := cfg_initial_referer cfg;
  trace := []
|}.

(** Truth value of an [Optional[str]]. *)
Definition truthy_opt (o : option pystr) : bool :=
  match o with
  | Some s => truthy s
  | None => false
  end.

Definition page_params (cfg : Config) (st : State) : gmap string pystr :=
  let params : gmap string pystr :=
    <["query" := cfg_query cfg]> (
    <["searchtype" := cfg_searchtype cfg]> (
    <["abstracts" := cfg_abstracts cfg]> (
    <["order" := cfg_order cfg]> (
    <["size" := str_of_Z (cfg_size cfg)]> (
    <["source" := cfg_source cfg]> ∅))))) in
  if 0 <? start st then <["start" := str_of_Z (start st)]> params else params.

Definition page_headers (cfg : Config) (st : State) : option (gmap string pystr) :=
  let h0 : gmap string pystr := ∅ in
  let h1 :=
    if truthy_opt (last_referer st)
    then <["Referer" := default [] (last_referer st)]> h0
    else if truthy_opt (cfg_initial_referer cfg)
    then <["Referer" := default [] (cfg_initial_referer cfg)]> h0
    else h0 in
  let h2 :=
    if truthy_opt (cfg_initial_sec_fetch_site cfg)
    then <["Sec-Fetch-Site" :=
             if truthy_opt (last_referer st) then py "same-origin"
             else default [] (cfg_initial_sec_fetch_site cfg)]> h1
    else h1 in
  if decide (h2 = ∅) then None else Some h2.

(** The body of [for record in page_records], on the pair of [seen] and
    [collected]. *)
Definition accumulate_one (acc : gset pystr * list record) (rec : record)
    : gset pystr * list record :=
  match rec !! "id" with
  | None => acc
  | Some record_id =>
      if negb (truthy record_id) then acc
      else if decide (record_id ∈ acc.1) then acc
      else ({[record_id]} ∪ acc.1, acc.2 ++ [rec])
  end.

Definition accumulate (acc : gset pystr * list record)
    (page_records : list record) : gset pystr * list record :=
  fold_left accumulate_one page_records acc.

(** Why the loop was left: one of its three [break]s, or an exception that
    leaves [collect_records] without a result. *)
Inductive Stop :=
| CapReached
| Exhausted
| TargetReached
| Raised (e : exn).

(** [max_pages is not None and page_index >= max_pages] *)
Definition cap_reached (cfg : Config) (st : State) : bool :=
  match cfg_max_pages cfg with
  | Some cap => cap <=? page_index st
  | None => false
  end.

(** The request of the current pass. *)
Definition page_request (cfg : Config) (st : State) : Request :=
  {| params := page_params cfg st; headers := page_headers cfg st |}.

(** One pass through the body of [while True]: the state at the next pass,
    or the reason for leaving with the state at that point. *)
Definition iteration (server : Server) (cfg : Config) (st : State)
    : State + Stop * State :=
  if cap_reached cfg st then inr (CapReached, st)
  else
    let request := page_request cfg st in
    let response := fetch_page server (trace st) request in
    let exchange :=
      {| ex_start := start st; ex_request := request;
         ex_response := response |} in
    match response with
    | Raise e =>
        inr (Raised e,
             {| collected := collected st; seen := seen st; start := start st;
                total_results := total_results st;
                page_index := page_index st;
                last_referer := last_referer st;
                trace := trace st ++ [exchange] |})
    | Ok (soup, fetched_url) =>
        let page_records := extract_records soup in
        match page_records with
        | [] =>
            inr (Exhausted,
                 {| collected := collected st; seen := seen st;
                    start := start st;
                    total_results := total_results st;
                    page_index := page_index st;
                    last_referer := Some fetched_url;
                    trace := trace st ++ [exchange] |})
        | _ :: _ =>
            let '(seen', collected') :=
              accumulate (seen st, collected st) page_records in
            let total :=
              match total_results st with
              | None => extract_total_results soup
              | Some t => Ok (Some t)
              end in
            match total with
            | Raise e =>
                inr (Raised e,
                     {| collected := collected'; seen := seen';
                        start := start st;
                        total_results := total_results st;
                        page_index := page_index st;
                        last_referer := Some fetched_url;
                        trace := trace st ++ [exchange] |})
            | Ok total' =>
                let st' :=
                  {| collected := collected'; seen := seen';
                     start := start st + cfg_size cfg;
                     total_results := total';
                     page_index := page_index st + 1;
                     last_referer := Some fetched_url;
                     trace := trace st ++ [exchange] |} in
                if match total' with
                   | Some t => t <=? start st'
                   | None => false
                   end
                then inr (TargetReached, st')
                else inl st'
            end
        end
    end.

(** The loop, run for at most [fuel] passes; [None] when they do not
    suffice. *)
Fixpoint collect_loop (server : Server) (cfg : Config) (fuel : nat)
    (st : State) : option (Stop * State) :=
  match fuel with
  | O => None
  | S fuel' =>
      match iteration server cfg st with
      | inl st' => collect_loop server cfg fuel' st'
      | inr out => Some out
      end
  end.

Definition collect_run (server : Server) (cfg : Config) (fuel : nat)
    : option (Stop * State) :=
  collect_loop server cfg fuel (initial_state cfg).

(** The value of [collect_records]: the list it returns, or the exception
    that escapes it. *)
Definition collect_records (server : Server) (cfg : Config) (fuel : nat)
    : option (outcome (list record)) :=
  match collect_run server cfg fuel with
  | None => None
  | Some (Raised e, _) => Some (Raise e)
  | Some (_, st) => Some (Ok (collected st))
  end.

(** The values of [start] at which pages were requested. *)
Definition offsets (st : State) : list Z := ex_start <$> trace st.

(** The state a pass ends in, whether the loop goes on or not. *)
Definition after (out : State + Stop * State) : State :=
  match out with
  | inl st => st
  | inr (_, st) => st
  end.

(** ** Paths and files *)

Definition BASE_URL : pystr := py "https://arxiv.org/search/".

(** A [pathlib.Path]: whether it is rooted, and its components. *)
Record Path := {
  absolute : bool;
  parts : list pystr
}.

(** [p / name], for a [name] that is a single component; the names the
    source appends are literals, slugs and sanitized file names, which hold
    no separator. *)
Definition path_div (p : Path) (name : pystr) : Path :=
  {| absolute := absolute p; parts := parts p ++ [name] |}.

(** [str(p)] *)
Definition path_str (p : Path) : pystr :=
  match absolute p, parts p with
  | false, [] => py "."
  | false, ps => join (py "/") ps
  | true, ps => py "/" ++ join (py "/") ps
  end.

Definition OUTPUT_DIR : Path :=
  {| absolute := true;
     parts := [py "home"; py "user"; py "projects"; py "arXiv"; py "output"] |}.

(** The envelope that [write_output] serializes. *)
Record Metadata := {
  meta_query : pystr;
  meta_size : Z;
  meta_order : pystr;
  meta_searchtype : pystr;
  meta_abstracts : pystr;
  meta_source : pystr;
  meta_retrieved_at : pystr;
  meta_count : Z
}.

Record Payload := {
  payload_metadata : Metadata;
  payload_records : list record
}.

(** A file: the bytes of an artifact, or the JSON document of a results
    file, kept as the value that was dumped. *)
Inductive File :=
| Bytes (content : list N)
| Json (payload : Payload).

(** The regular files the process finds in the output tree, by [str] of
    their path: [exists()] is true of a path of the map; of another path
    it is false, or it raises, as the world has it.  Directories are not
    part of the state: [mkdir] shows through the exception it may
    raise. *)
Abbreviation FS := (gmap pystr File).

(** ** Artifact archiver *)

(** The arguments of [session.get(pdf_url, headers=...)]. *)
Record Download := {
  dl_url : pystr;
  dl_headers : gmap string pystr
}.

(** What [session.get] followed by [raise_for_status] gives: the body, or
    an exception with its [str]. *)
Inductive Fetched :=
| Content (body : list N)
| Broken (message : pystr).

(** What [destination.write_bytes] gives: success, or an exception with
    its [str] and whatever the failed write left at the path. *)
Inductive Written :=
| WriteOk
| WriteFailed (residue : option (list N)) (message : pystr).

(** The world the archiver and the metadata writer act on: the document
    host, which sees the downloads already requested, and the disk.
    [can_mkdir] tells whether [path.mkdir(parents=True, exist_ok=True)]
    returns and [can_stat] whether [path.exists()] does, on a path where
    the process finds no file; otherwise they raise [OSError].
    [write_json] is what the [with] block of [write_output] gives: the
    file opened, the payload dumped and the file closed, or an exception
    with whatever it left at the path. *)
Record World := {
  pdf_get : list Download → Download → Fetched;
  write_bytes : pystr → list N → Written;
  can_mkdir : Path → bool;
  can_stat : pystr → bool;
  write_json : pystr → Payload → Written
}.

(** The files and the downloads requested so far. *)
Abbreviation Archive := (gmap pystr File * list Download)%type.

(** [str(data_dir / (sanitize_filename(identifier) + ".pdf"))] *)
Definition destination_of (data_dir : Path) (identifier : pystr) : pystr :=
  path_str (path_div data_dir (sanitize_filename identifier ++ py ".pdf")).

(** The request for the artifact of a record. *)
Definition artifact_request (rec : record) : Download :=
  {| dl_url := default [] (rec !! "pdf_url");
     dl_headers :=
       <["Referer" := default BASE_URL (rec !! "abs_url")]> (
       <["Sec-Fetch-Site" := py "same-origin"]> ∅) |}.

(** The body of the loop of [download_papers]: the new files and
    requests, the record after the pass (the source updates it in place)
    and the exception that leaves the body, if one does.  The probe
    [destination.exists()] stands before the [try]: its exception is not
    caught. *)
Definition download_one (w : World) (data_dir : Path) (st : Archive)
    (rec : record) : Archive * record * option exn :=
  let pdf_url := rec !! "pdf_url" in
  let identifier := default [] (rec !! "id") in
  if negb (truthy_opt pdf_url) || negb (truthy identifier)
  then (st, rec, None)
  else
    let destination := destination_of data_dir identifier in
    match st.1 !! destination with
    | Some _ => (st, <["pdf_local_path" := destination]> rec, None)
    | None =>
        if negb (can_stat w destination) then (st, rec, Some OSError)
        else
          let request := artifact_request rec in
          let log := st.2 ++ [request] in
          match pdf_get w st.2 request with
          | Broken message =>
              ((st.1, log), <["pdf_download_error" := message]> rec, None)
          | Content body =>
              match write_bytes w destination body with
              | WriteOk =>
                  ((<[destination := Bytes body]> st.1, log),
                   <["pdf_local_path" := destination]> rec, None)
              | WriteFailed residue message =>
                  ((match residue with
                    | Some partial => <[destination := Bytes partial]> st.1
                    | None => st.1
                    end, log),
                   <["pdf_download_error" := message]> rec, None)
              end
          end
    end.

(** The loop of [download_papers].  The records of the list are distinct
    dictionaries (those of [extract_records] are), so updating them in
    place is returning the updated list; when an exception leaves the
    loop the records not yet reached are as they were. *)
Fixpoint download_each (w : World) (data_dir : Path) (st : Archive)
    (records : list record) : Archive * list record * option exn :=
  match records with
  | [] => (st, [], None)
  | rec :: rest =>
      match download_one w data_dir st rec with
      | (st1, rec', Some e) => (st1, rec' :: rest, Some e)
      | (st1, rec', None) =>
          let '(st2, rest', raised) := download_each w data_dir st1 rest in
          (st2, rec' :: rest', raised)
      end
  end.

(** [download_papers]: the files and requests after the call, the records
    as the call leaves them, and the exception that leaves it, if one
    does. *)
Definition download_papers (w : World) (data_dir : Path) (st : Archive)
    (records : list record) : Archive * list record * option exn :=
  if can_mkdir w data_dir then download_each w data_dir st records
  else (st, records, Some OSError).

(** ** Metadata writer *)

(** [base_dir / "data"] and [base_dir / "metadata" / "results.json"] for
    [base_dir = output_root / slugify(query)]. *)
Definition data_dir_of (output_root : Path) (query : pystr) : Path :=
  path_div (path_div output_root (slugify query)) (py "data").

Definition metadata_file_of (output_root : Path) (query : pystr) : Path :=
  path_div (path_div (path_div output_root (slugify query)) (py "metadata"))
           (py "results.json").

Definition metadata_dir_of (output_root : Path) (query : pystr) : Path :=
  path_div (path_div output_root (slugify query)) (py "metadata").

(** [write_output]; [now] is [datetime.now(timezone.utc).isoformat()].  The
    result is the archive after the call, the records as the call leaves
    them, and [base_dir] or the exception that leaves the call. *)
Definition write_output (w : World) (now : pystr) (st : Archive)
    (records : list record) (output_root : Path)
    (query : pystr) (size : Z) (order searchtype abstracts source : pystr)
    : Archive * list record * outcome Path :=
  let base_dir := path_div output_root (slugify query) in
  let metadata_dir := metadata_dir_of output_root query in
  let data_dir := data_dir_of output_root query in
  if negb (can_mkdir w metadata_dir) then (st, records, Raise OSError)
  else
    match download_papers w data_dir st records with
    | (st1, records', Some e) => (st1, records', Raise e)
    | (st1, records', None) =>
        let metadata_file := path_str (metadata_file_of output_root query) in
        let payload :=
          {| payload_metadata :=
               {| meta_query := query; meta_size := size; meta_order := order;
                  meta_searchtype := searchtype; meta_abstracts := abstracts;
                  meta_source := source; meta_retrieved_at := now;
                  meta_count := Z.of_nat (length records') |};
             payload_records := records' |} in
        match write_json w metadata_file payload with
        | WriteOk =>
            ((<[metadata_file := Json payload]> st1.1, st1.2),
             records', Ok base_dir)
        | WriteFailed residue _ =>
            ((match residue with
              | Some partial => <[metadata_file := Bytes partial]> st1.1
              | None => st1.1
              end, st1.2),
             records', Raise OSError)
        end
    end.

(** ** Notions of the specification *)

(** The slug rule, in the words of the specification and without the
    functions of the source. *)

(** "Collapse runs of whitespace to a single underscore": the characters
    of a run are dropped and its last one gives the underscore. *)
Fixpoint collapse_runs (s : pystr) : pystr :=
  match s with
  | [] => []
  | c :: rest =>
      if is_space c then
        match rest with
        | [] => [95%N]
        | d :: _ => if is_space d then collapse_runs rest
                    else 95%N :: collapse_runs rest
        end
      else c :: collapse_runs rest
  end.

(** The class [[A-Za-z0-9_.-]], character by character. *)
Definition class_chars : pystr :=
  py "ABCDEFGHIJKLMNOPQRSTUVWXYZabcdefghijklmnopqrstuvwxyz0123456789_.-".

Definition in_class (c : N) : bool := existsb (N.eqb c) class_chars.

(** "Replace any character outside the class with underscore". *)
Definition replace_outside (s : pystr) : pystr :=
  List.map (λ c, if in_class c then c else 95%N) s.

(** "Strip leading and trailing underscores and dots": [edge_run] counts
    the underscores and dots a string starts with. *)
Fixpoint edge_run (s : pystr) : nat :=
  match s with
  | c :: rest => if ((c =? 95) || (c =? 46))%N then S (edge_run rest) else O
  | [] => O
  end.

Definition trim_edges (s : pystr) : pystr :=
  let body := drop (edge_run s) s in
  take (length body - edge_run (rev body)) body.

Definition slugify_spec (value : pystr) : pystr :=
  match trim_edges (replace_outside (collapse_runs value)) with
  | [] => py "search"
  | c :: slug => c :: slug
  end.

(** "A known prefix stripped": the prefix is removed when the string
    starts with it. *)
Definition remove_prefix (p s : pystr) : pystr :=
  if startswith s p then drop (length p) s else s.

(** What follows the last slash of a string, its trailing slashes
    apart. *)
Definition after_last_slash (s : pystr) : pystr :=
  let is_slash c := (c =? 47)%N in
  rev (span (λ c, negb (is_slash c)) (drop_while is_slash (rev s))).1.

(** The path of a URL ends where its query or its fragment begins, at the
    first [?] or [#]; the scheme and the authority before it hold
    neither. *)
Definition path_end (c : N) : bool := ((c =? 63) || (c =? 35))%N.

Definition without_query (url : pystr) : pystr :=
  (span (λ c, negb (path_end c)) url).1.

(** "The last path segment of the URL": the last segment of its path. *)
Definition last_segment (url : pystr) : pystr :=
  after_last_slash (without_query url).

(** The identifier as the specification words it. *)
Definition identifier_spec (abs_el : Anchor) : pystr :=
  let label :=
    strip (remove_prefix (py "arXiv:") (get_text_strip (anchor_strings abs_el))) in
  if truthy label then label else last_segment (strip (href abs_el)).

(** The summary "Showing M-N of T results", written with a hyphen. *)
Definition hyphen_text (m n t : pystr) : pystr :=
  py "Showing " ++ m ++ py "-" ++ n ++ py " of " ++ t ++ py " results".

(** "First occurrence wins, later duplicates are discarded". *)
Definition dedup_first (l : list record) : list record :=
  foldr (λ r acc, r :: List.filter (λ x, negb (bool_decide (x !! "id" = r !! "id"))) acc)
        [] l.

(** The first record of a list that carries a given id. *)
Definition find_id (i : pystr) (l : list record) : option record :=
  List.find (λ r, bool_decide (r !! "id" = Some i)) l.

(** The records of the pages of a run, in the order they were fetched. *)
Definition page_records_of (ex : Exchange) : list record :=
  match ex_response ex with
  | Ok (soup, _) => extract_records soup
  | Raise _ => []
  end.

Definition fetched_records (st : State) : list record :=
  List.concat (page_records_of <$> trace st).

(** The total a fetched page hands to the controller: none for a failed
    fetch, for a page without records and for a page without a summary. *)
Definition exposed_total (ex : Exchange) : option Z :=
  match ex_response ex with
  | Ok (soup, _) =>
      match extract_records soup, extract_total_results soup with
      | _ :: _, Ok (Some t) => Some t
      | _, _ => None
      end
  | Raise _ => None
  end.

(** A record as the extractor leaves it: no artifact field yet. *)
Definition fresh (rec : record) : Prop :=
  rec !! "pdf_local_path" = None ∧ rec !! "pdf_download_error" = None.

(** The record carries no download error. *)
Definition no_error (rec : record) : Prop := rec !! "pdf_download_error" = None.

(** The archiver does not skip the record: it has a document link and an
    id. *)
Definition wanted (rec : record) : Prop :=
  truthy_opt (rec !! "pdf_url") = true ∧ truthy (default [] (rec !! "id")) = true.

(** Where the artifact of a record goes. *)
Definition destination (data_dir : Path) (rec : record) : pystr :=
  destination_of data_dir (default [] (rec !! "id")).

(** The destination of the record can be written: the directory can be
    made and the destination probed. *)
Definition reachable (w : World) (data_dir : Path) (rec : record) : Prop :=
  can_mkdir w data_dir = true ∧ can_stat w (destination data_dir rec) = true.

(** Whenever it is tried, the download of the record's artifact goes
    through: its destination can be written, and the body is fetched and
    written. *)
Definition succeeds (w : World) (data_dir : Path) (rec : record) : Prop :=
  reachable w data_dir rec ∧
  ∀ log, ∃ body,
    pdf_get w log (artifact_request rec) = Content body ∧
    write_bytes w (destination data_dir rec) body = WriteOk.


(** Two records that differ in their artifact fields at most. *)
Definition same_but_artifact (r r' : record) : Prop :=
  ∀ k, k ≠ "pdf_local_path" → k ≠ "pdf_download_error" → r' !! k = r !! k.

(** How often an id occurs in a list of records. *)
Definition occurrences (i : pystr) (l : list record) : nat :=
  length (List.filter (λ r, bool_decide (r !! "id" = Some i)) l).

(** The record carries a non-empty id. *)
Definition has_id (r : record) : bool :=
  match r !! "id" with
  | Some i => truthy i
  | None => false
  end.

(** ** Auxiliary notions of the proofs *)

(** Nothing, or one underscore. *)
Definition underscored (t : pystr) : Prop := t = [] ∨ t = [95%N].

(** The slug computed from a given state of the whitespace scan. *)
Definition slug_core (b : bool) (s : pystr) : pystr :=
  strip_by underscore_or_dot (sub_unsafe (sub_spaces_from b s)).

(** Some record of [l] has the id of [x]. *)
Definition known (l : list record) (x : record) : bool :=
  existsb (λ a, bool_decide (a !! "id" = x !! "id")) l.

Definition differs (r x : record) : bool :=
  negb (bool_decide (x !! "id" = r !! "id")).

(** The pair of [seen] and [collected] mirrors the records met so far. *)
Definition mirrors (acc : gset pystr * list record) (F : list record) : Prop :=
  acc.2 = dedup_first F ∧
  (∀ j, j ∈ acc.1 ↔ ∃ a, a ∈ F ∧ a !! "id" = Some j).

(** The [start] parameter of a request is the offset it was issued at,
    and is left out at offset 0. *)
Definition carries_start (ex : Exchange) : Prop :=
  params (ex_request ex) !! "start" =
  if 0 <? ex_start ex then Some (str_of_Z (ex_start ex)) else None.

(** What holds of the state throughout a run. *)
Record run_invariant (st : State) : Prop := {
  inv_mirrors : mirrors (seen st, collected st) (fetched_records st);
  inv_total : total_results st = head (omap exposed_total (trace st))
}.

(** ** Sample pages and runs *)

Module Samples.

(** A link whose label carries the marker twice. *)
Definition twice_link : Anchor :=
  {| href := py "https://arxiv.org/abs/2101.00001";
     anchor_strings := [py "arXiv:2101.00001 arXiv:2101.00002"] |}.

Definition twice_item : ResultItem :=
  {| title_el := Some [py "A title"]; list_title_links := [twice_link] |}.

(** A link without a label. *)
Definition bare_link : Anchor :=
  {| href := py "https://arxiv.org/abs/2101.00003/"; anchor_strings := [py " "] |}.

Definition bare_item : ResultItem :=
  {| title_el := None; list_title_links := [bare_link] |}.

(** A link without a label whose URL has a query. *)
Definition context_link : Anchor :=
  {| href := py "https://arxiv.org/abs/2101.00003?context=cs";
     anchor_strings := [] |}.

Definition context_item : ResultItem :=
  {| title_el := None; list_title_links := [context_link] |}.

(** A result item with its canonical link and its document link. *)
Definition item (id title : string) : ResultItem :=
  {| title_el := Some [py title];
     list_title_links :=
       [ {| href := py "https://arxiv.org/abs/" ++ py id;
            anchor_strings := [py "arXiv:" ++ py id] |};
         {| href := py "https://arxiv.org/pdf/" ++ py id;
            anchor_strings := [py "pdf"] |} ] |}.

Definition page (summary : string) (items : list ResultItem) : Soup :=
  {| paragraphs := [py summary] :: List.concat (item_paragraphs <$> items);
     results := items |}.

Definition listing_url : pystr := py "https://arxiv.org/search/?query=q".

(** A listing of three pages: the second repeats an id of the first and
    reports another total, the third is empty. *)
Definition overlapping : Server := λ history _,
  match history with
  | [] =>
      Ok (page "Showing 1-2 of 100 results for all: q"
            [item "2101.00001" "First"; item "2101.00002" "Second"],
          listing_url)
  | [_] =>
      Ok (page "Showing 3-4 of 90 results for all: q"
            [item "2101.00002" "Second, again"; item "2101.00003" "Third"],
          listing_url)
  | _ => Ok (page "Sorry, your query returned no results" [], listing_url)
  end.

Definition config (size : Z) (max_pages : option Z) : Config :=
  {| cfg_query := py "q"; cfg_size := size;
     cfg_order := py "-announced_date_first"; cfg_searchtype := py "all";
     cfg_abstracts := py "show"; cfg_max_pages := max_pages;
     cfg_initial_referer := None;
     cfg_initial_sec_fetch_site := Some (py "cross-site");
     cfg_source := py "header" |}.

(** The state a run ends in. *)
Definition final (server : Server) (cfg : Config) (fuel : nat) : State :=
  match collect_run server cfg fuel with
  | Some (_, st) => st
  | None => initial_state cfg
  end.

Definition overlapping_final : State := final overlapping (config 2 None) 5.

(** The state of that run before its third pass. *)
Definition overlapping_second : State :=
  after (iteration overlapping (config 2 None)
           (after (iteration overlapping (config 2 None)
                     (initial_state (config 2 None))))).

(** A listing that reports 120 results on every page. *)
Definition steady : Server := λ _ _,
  Ok (page "Showing 1-50 of 120 results for all: q"
        [item "2101.00001" "First"], listing_url).

Definition steady_final : State := final steady (config 50 None) 5.

(** The same listing under a cap of one page. *)
Definition capped_final : State := final steady (config 50 (Some 1)) 5.

(** A page whose summary reads as the listing prints it, with an en dash
    (U+2013) between the bounds, one with a hyphen, and one that holds
    the characters of the entity. *)
Definition summary_page (text : pystr) : Soup :=
  {| paragraphs := [text] :: item_paragraphs (item "2101.00001" "First");
     results := [item "2101.00001" "First"] |}.

Definition en_dash_summary : pystr :=
  py "Showing 1" ++ [8211%N] ++ py "50 of 1,234 results for all: quantum".

Definition hyphen_summary : pystr :=
  py "Showing 1-50 of 1,234 results for all: quantum".

Definition entity_summary : pystr :=
  py "Showing 1&ndash;50 of 1,234 results for all: quantum".

(** Three records as the extractor leaves them. *)
Definition paper (id : string) : record :=
  <["id" := py id]> (<["title" := py "A title"]> (
  <["abs_url" := py "https://arxiv.org/abs/" ++ py id]> (
  <["pdf_url" := py "https://arxiv.org/pdf/" ++ py id]> ∅))).

Definition batch : list record :=
  [paper "2101.00001"; paper "2101.00002"; paper "2101.00003"].

(** A host that serves every document but the second of the batch, over
    a disk that takes everything. *)
Definition second_down : World :=
  {| pdf_get := λ _ request,
       if bool_decide (dl_url request = py "https://arxiv.org/pdf/2101.00002")
       then Broken (py "404 Client Error: Not Found")
       else Content (py "%PDF-1.5");
     write_bytes := λ _ _, WriteOk;
     can_mkdir := λ _, true;
     can_stat := λ _, true;
     write_json := λ _ _, WriteOk |}.

(** A host that serves every document. *)
Definition all_up : World :=
  {| pdf_get := λ _ _, Content (py "%PDF-1.5");
     write_bytes := λ _ _, WriteOk;
     can_mkdir := λ _, true;
     can_stat := λ _, true;
     write_json := λ _ _, WriteOk |}.

(** A host that serves nothing. *)
Definition all_down : World :=
  {| pdf_get := λ _ _, Broken (py "503 Server Error: Service Unavailable");
     write_bytes := λ _ _, WriteOk;
     can_mkdir := λ _, true;
     can_stat := λ _, true;
     write_json := λ _ _, WriteOk |}.

(** A host that serves every document, over a disk that takes no path of
    more than 100 characters: probing one raises (the name is too
    long). *)
Definition short_names : World :=
  {| pdf_get := λ _ _, Content (py "%PDF-1.5");
     write_bytes := λ _ _, WriteOk;
     can_mkdir := λ _, true;
     can_stat := λ path, (length path <=? 100)%nat;
     write_json := λ _ _, WriteOk |}.

(** Three records of which the second has an id of 120 characters. *)
Definition long_id : string :=
  "2101.00002-aaaaaaaaaaaaaaaaaaaaaaaaaaaaaaaaaaaaaaaaaaaaaaaaaaaaaaaaaaaaaaaaaaaaaaaaaaaaaaaaaaaaaaaaaaaaaaaaaaaaaaaaaaaaa".

Definition long_batch : list record :=
  [paper "2101.00001"; paper long_id; paper "2101.00003"].

Definition output_root : Path := OUTPUT_DIR.

Definition data_dir : Path := data_dir_of OUTPUT_DIR (py "quantum computing!!").

Definition no_files : gmap pystr File * list Download := (∅, []).

End Samples.


(** ** Session *)

(** [os.getenv(name, default)] on the environment as [load_dotenv] leaves
    it. *)
Definition getenv (environ : gmap string pystr) (name : string)
    (fallback : pystr) : pystr :=
  default fallback (environ !! name).

(** A literal between double quotes. *)
Definition quoted (s : string) : pystr := [34%N] ++ py s ++ [34%N].

(** The [headers] dictionary of [build_session]. *)
Definition session_defaults (environ : gmap string pystr) : gmap string pystr :=
  <["Accept" := getenv environ "ARXIV_ACCEPT"
      (py "text/html,application/xhtml+xml,application/xml;q=0.9," ++
       py "image/avif,image/webp,image/apng,*/*;q=0.8")]> (
  <["Accept-Language" := getenv environ "ARXIV_ACCEPT_LANGUAGE"
      (py "en-US,en;q=0.9")]> (
  <["Cache-Control" := getenv environ "ARXIV_CACHE_CONTROL" (py "max-age=0")]> (
  <["Priority" := getenv environ "ARXIV_PRIORITY" (py "u=0, i")]> (
  <["Sec-CH-UA" := getenv environ "ARXIV_SEC_CH_UA"
      (quoted "Chromium" ++ py ";v=" ++ quoted "142" ++ py ", " ++
       quoted "Brave" ++ py ";v=" ++ quoted "142" ++ py ", " ++
       quoted "Not_A Brand" ++ py ";v=" ++ quoted "99")]> (
  <["Sec-CH-UA-Mobile" := getenv environ "ARXIV_SEC_CH_UA_MOBILE" (py "?0")]> (
  <["Sec-CH-UA-Platform" := getenv environ "ARXIV_SEC_CH_UA_PLATFORM"
      (quoted "Linux")]> (
  <["Sec-Fetch-Dest" := getenv environ "ARXIV_SEC_FETCH_DEST" (py "document")]> (
  <["Sec-Fetch-Mode" := getenv environ "ARXIV_SEC_FETCH_MODE" (py "navigate")]> (
  <["Sec-Fetch-User" := getenv environ "ARXIV_SEC_FETCH_USER" (py "?1")]> (
  <["Sec-GPC" := getenv environ "ARXIV_SEC_GPC" (py "1")]> (
  <["Upgrade-Insecure-Requests" :=
      getenv environ "ARXIV_UPGRADE_INSECURE_REQUESTS" (py "1")]> (
  <["User-Agent" := getenv environ "ARXIV_USER_AGENT"
      (py "Mozilla/5.0 (X11; Linux x86_64) AppleWebKit/537.36 " ++
       py "(KHTML, like Gecko) Chrome/142.0.0.0 Safari/537.36")]> ∅)))))))))))).

(** [build_session]: the headers of the session, [initial_referer] and
    [initial_sec_fetch_site]; [None] is the [RuntimeError] raised when the
    cookie is missing or empty.  [library] holds the headers a fresh
    [requests.Session] starts with, which [update] overrides key by key
    (the keys are compared as they are spelled; the library spells its own
    as the source does). *)
Definition build_session (library environ : gmap string pystr)
    : option (gmap string pystr * option pystr * option pystr) :=
  let cookie_string := environ !! "ARXIV_COOKIE" in
  if negb (truthy_opt cookie_string) then None
  else
    let session_headers :=
      <["Cookie" := default [] cookie_string]>
        (session_defaults environ ∪ library) in
    let initial_referer := environ !! "ARXIV_REFERER" in
    let initial_sec_fetch_site :=
      Some (getenv environ "ARXIV_SEC_FETCH_SITE" (py "cross-site")) in
    Some (session_headers, initial_referer, initial_sec_fetch_site).

(** ** Entry point *)

(** The namespace [parse_args] returns. *)
Record Args := {
  arg_query : option pystr;
  arg_size : Z;
  arg_order : pystr;
  arg_searchtype : pystr;
  arg_abstracts : pystr;
  arg_source : pystr;
  arg_max_pages : option Z;
  arg_output : option Path;
  arg_dry_run : bool
}.

(** What [main] runs on: the headers of a fresh session, the listing and
    the document host as a session with given headers sees them, the disk
    with what its operations give and the files present, the clock and the
    environment. *)
Record Machine := {
  library_headers : gmap string pystr;
  listing : gmap string pystr → Server;
  documents : gmap string pystr → list Download → Download → Fetched;
  mkdir_returns : Path → bool;
  stat_returns : pystr → bool;
  bytes_written : pystr → list N → Written;
  json_written : pystr → Payload → Written;
  clock : pystr;
  environ : gmap string pystr;
  disk : gmap pystr File
}.

(** The world the archiver of a session with given headers acts on. *)
Definition world (m : Machine) (session : gmap string pystr) : World :=
  {| pdf_get := documents m session;
     write_bytes := bytes_written m;
     can_mkdir := mkdir_returns m;
     can_stat := stat_returns m;
     write_json := json_written m |}.

(** How [main] ends: it returns, or an exception leaves it, the
    [RuntimeError] of [build_session] or one of those of the collection, the
    archiver and the writer. *)
Inductive Exit :=
| Finished
| MissingCookie
| Uncaught (e : exn).

(** What a run of [main] did: the lines printed, the files and the document
    requests, the listing requests, and how it ended. *)
Record Run := {
  printed : list pystr;
  archive : gmap pystr File * list Download;
  exchanges : list Exchange;
  exit : Exit
}.

(** [str(record.get(key))] *)
Definition str_get (rec : record) (key : string) : pystr :=
  default (py "None") (rec !! key).

Definition usage_hint : pystr :=
  py "Please supply args in the form of --query <your search> to use the script.".

(** The configuration [main] passes to [collect_records]. *)
Definition config_of (args : Args) (initial_referer : option pystr)
    (initial_sec_fetch_site : option pystr) : Config :=
  {| cfg_query := default [] (arg_query args);
     cfg_size := arg_size args;
     cfg_order := arg_order args;
     cfg_searchtype := arg_searchtype args;
     cfg_abstracts := arg_abstracts args;
     cfg_max_pages := arg_max_pages args;
     cfg_initial_referer := initial_referer;
     cfg_initial_sec_fetch_site := initial_sec_fetch_site;
     cfg_source := arg_source args |}.

(** [main], with the loop of [collect_records] run for at most [fuel]
    passes; [None] when they do not suffice. *)
Definition main (m : Machine) (args : Args) (fuel : nat) : option Run :=
  if negb (truthy_opt (arg_query args)) then
    Some {| printed := [usage_hint]; archive := (disk m, []);
            exchanges := []; exit := Finished |}
  else
    let output_root := default OUTPUT_DIR (arg_output args) in
    if negb (mkdir_returns m output_root) then
      Some {| printed := []; archive := (disk m, []); exchanges := [];
              exit := Uncaught OSError |}
    else
    match build_session (library_headers m) (environ m) with
    | None =>
        Some {| printed := []; archive := (disk m, []); exchanges := [];
                exit := MissingCookie |}
    | Some (session, initial_referer, initial_sec_fetch_site) =>
        let cfg := config_of args initial_referer initial_sec_fetch_site in
        match collect_run (listing m session) cfg fuel with
        | None => None
        | Some (Raised e, st) =>
            Some {| printed := []; archive := (disk m, []);
                    exchanges := trace st; exit := Uncaught e |}
        | Some (_, st) =>
            let records := collected st in
            let count := str_of_Z (Z.of_nat (length records)) in
            if arg_dry_run args then
              Some {| printed :=
                        (py "Collected " ++ count ++
                         py " records (dry-run, no files written).") ::
                        List.map (λ rec, str_get rec "id" ++ py ": " ++
                                         str_get rec "title")
                                 (take 5 records);
                      archive := (disk m, []);
                      exchanges := trace st; exit := Finished |}
            else
              match
                write_output (world m session) (clock m) (disk m, []) records
                  output_root (default [] (arg_query args)) (arg_size args)
                  (arg_order args) (arg_searchtype args) (arg_abstracts args)
                  (arg_source args)
              with
              | (st', _, Ok base_dir) =>
                  Some {| printed :=
                            [py "Archived " ++ count ++
                             py " records under " ++ path_str base_dir];
                          archive := st'; exchanges := trace st;
                          exit := Finished |}
              | (st', _, Raise e) =>
                  Some {| printed := []; archive := st';
                          exchanges := trace st; exit := Uncaught e |}
              end
        end
    end.

(** ** Notions of the further properties *)


(** Where a run of [main] with these arguments puts its results file. *)
Definition results_file (args : Args) : pystr :=
  path_str (metadata_file_of (default OUTPUT_DIR (arg_output args))
              (default [] (arg_query args))).

(** The run of [main] is meant to archive: it has a query and a cookie,
    and is not dry. *)
Definition archiving (m : Machine) (args : Args) : Prop :=
  truthy_opt (arg_query args) = true ∧
  truthy_opt (environ m !! "ARXIV_COOKIE") = true ∧
  arg_dry_run args = false.

(** The request of a pass, from the offset and the referer it starts
    with. *)
Definition request_at (cfg : Config) (offset : Z) (referer : option pystr)
    : Request :=
  page_request cfg
    {| collected := []; seen := ∅; start := offset; total_results := None;
       page_index := 0; last_referer := referer; trace := [] |}.

(** The parameters every request of a run carries. *)
Definition fixed_params (cfg : Config) : gmap string pystr :=
  <["query" := cfg_query cfg]> (
  <["searchtype" := cfg_searchtype cfg]> (
  <["abstracts" := cfg_abstracts cfg]> (
  <["order" := cfg_order cfg]> (
  <["size" := str_of_Z (cfg_size cfg)]> (
  <["source" := cfg_source cfg]> ∅))))).

(** The page of the exchange came back and holds a record. *)
Definition productive (ex : Exchange) : Prop :=
  ∃ soup url, ex_response ex = Ok (soup, url) ∧ extract_records soup ≠ [].

(** A name [slugify] has nothing to change in. *)
Definition safe_name (s : pystr) : Prop :=
  s ≠ [] ∧
  Forall (λ c, slug_char c = true) s ∧
  underscore_or_dot (List.hd 0%N s) = false ∧
  underscore_or_dot (List.last s 0%N) = false.

(** A string without whitespace at its ends. *)
Definition trimmed (s : pystr) : Prop :=
  is_space (List.hd 0%N s) = false ∧ is_space (List.last s 0%N) = false.

(** The resolved URL of the response of an exchange. *)
Definition response_url (ex : Exchange) : option pystr :=
  match ex_response ex with
  | Ok (_, url) => Some url
  | Raise _ => None
  end.

(** The referer the pass number [k] of a run starts with: the configured
    one, then the URL of the previous response. *)
Definition referer_before (cfg : Config) (tr : list Exchange) (k : nat)
    : option pystr :=
  match k with
  | O => cfg_initial_referer cfg
  | S j => tr !! j ≫= response_url
  end.

(** Each request of the trace is the one of its place: offset [k * size],
    referer as left by the exchange before. *)
Definition chained (cfg : Config) (tr : list Exchange) : Prop :=
  ∀ k ex, tr !! k = Some ex →
    ex_start ex = Z.of_nat k * cfg_size cfg ∧
    ex_request ex =
      request_at cfg (Z.of_nat k * cfg_size cfg) (referer_before cfg tr k).

(** What holds of a state the loop goes on from. *)
Record walking (cfg : Config) (st : State) : Prop := {
  walk_productive : Forall productive (trace st);
  walk_index : page_index st = Z.of_nat (length (trace st));
  walk_start : start st = Z.of_nat (length (trace st)) * cfg_size cfg;
  walk_referer :
    last_referer st = referer_before cfg (trace st) (length (trace st));
  walk_chained : chained cfg (trace st);
  walk_cap :
    ∀ cap, cfg_max_pages cfg = Some cap →
           Z.of_nat (length (trace st)) ≤ Z.max 0 cap
}.

(** What the reason for leaving the loop tells about the run. *)
Definition stop_shape (cfg : Config) (stop : Stop) (st : State) : Prop :=
  match stop with
  | CapReached =>
      Forall productive (trace st) ∧
      ∃ cap, cfg_max_pages cfg = Some cap ∧
             cap ≤ Z.of_nat (length (trace st))
  | TargetReached =>
      Forall productive (trace st) ∧ trace st ≠ [] ∧
      ∃ t, total_results st = Some t ∧
           t ≤ Z.of_nat (length (trace st)) * cfg_size cfg
  | Exhausted =>
      ∃ tr ex soup url,
        trace st = tr ++ [ex] ∧ Forall productive tr ∧
        ex_response ex = Ok (soup, url) ∧ extract_records soup = []
  | Raised e =>
      ∃ tr ex,
        trace st = tr ++ [ex] ∧ Forall productive tr ∧
        (ex_response ex = Raise e ∨
         ∃ soup url,
           ex_response ex = Ok (soup, url) ∧ extract_records soup ≠ [] ∧
           extract_total_results soup = Raise e)
  end.

(** What holds of the state a run ends in. *)
Record walked (cfg : Config) (stop : Stop) (st : State) : Prop := {
  end_shape : stop_shape cfg stop st;
  end_chained : chained cfg (trace st);
  end_cap :
    ∀ cap, cfg_max_pages cfg = Some cap →
           Z.of_nat (length (trace st)) ≤ Z.max 0 cap
}.

(** The form of a record of the extractor. *)
Definition shaped (rec : record) : Prop :=
  (∃ i, rec !! "id" = Some i ∧ i ≠ []) ∧
  (∃ u, rec !! "abs_url" = Some u ∧ startswith u abs_prefix = true ∧ trimmed u) ∧
  (∃ t, rec !! "title" = Some t ∧ trimmed t) ∧
  (∀ p, rec !! "pdf_url" = Some p →
        p ≠ [] ∧ startswith p pdf_prefix = true ∧
        (endswith p (py ".pdf") = true ∨ contains (py "?") p = false)) ∧
  (∀ key, is_Some (rec !! key) →
          key ∈ ["id"; "title"; "abs_url"; "pdf_url"]).

(** ** Further samples *)

Module Cases.

(** The state of the run over the steady listing after its first pass. *)
Definition steady_first : State :=
  after (iteration Samples.steady (Samples.config 50 None)
           (initial_state (Samples.config 50 None))).

(** A listing whose pages never run dry and show no summary. *)
Definition silent : Server := λ _ _,
  Ok ({| paragraphs := item_paragraphs (Samples.item "2101.00001" "First");
         results := [Samples.item "2101.00001" "First"] |},
      Samples.listing_url).

(** A page with one item whose document link carries a query. *)
Definition query_item : ResultItem :=
  {| title_el := Some [py "  On "; py " "; py " slugs  "];
     list_title_links :=
       [ {| href := py " https://arxiv.org/pdf/2101.00001v2?download=1 ";
            anchor_strings := [py "pdf"] |};
         {| href := py "https://arxiv.org/pdf/2101.00001v2?download=1 ";
            anchor_strings := [py "pdf"] |};
         {| href := py "https://arxiv.org/abs/2101.00001v2 ";
            anchor_strings := [py "arXiv:2101.00001"] |} ] |}.

Definition query_page : Soup :=
  {| paragraphs := item_paragraphs query_item; results := [query_item] |}.

Definition query_record : record :=
  <["id" := py "2101.00001"]> (<["title" := py "On slugs"]> (
  <["abs_url" := py "https://arxiv.org/abs/2101.00001v2"]> (
  <["pdf_url" := py "https://arxiv.org/pdf/2101.00001v2"]> ∅))).

(** The arguments of a run for the query [q] with the defaults of
    [parse_args], and a machine whose listing is the steady one, whose
    host serves every document and whose disk is empty. *)
Definition arguments (dry_run : bool) : Args :=
  {| arg_query := Some (py "q"); arg_size := 50;
     arg_order := py "-announced_date_first"; arg_searchtype := py "all";
     arg_abstracts := py "show"; arg_source := py "header";
     arg_max_pages := None; arg_output := None; arg_dry_run := dry_run |}.

Definition machine (variables : gmap string pystr) : Machine :=
  {| library_headers := {[ "Connection" := py "keep-alive" ]};
     listing := λ _, Samples.steady;
     documents := λ _ _ _, Content (py "%PDF-1.5");
     mkdir_returns := λ _, true;
     stat_returns := λ _, true;
     bytes_written := λ _ _, WriteOk;
     json_written := λ _ _, WriteOk;
     clock := py "2025-01-01T00:00:00+00:00";
     environ := variables;
     disk := ∅ |}.

Definition with_cookie : gmap string pystr :=
  {[ "ARXIV_COOKIE" := py "session=1" ]}.

(** The same machine, without a cookie and on a disk where no directory
    can be made. *)
Definition read_only : Machine :=
  {| library_headers := {[ "Connection" := py "keep-alive" ]};
     listing := λ _, Samples.steady;
     documents := λ _ _ _, Content (py "%PDF-1.5");
     mkdir_returns := λ _, false;
     stat_returns := λ _, true;
     bytes_written := λ _ _, WriteOk;
     json_written := λ _ _, WriteOk;
     clock := py "2025-01-01T00:00:00+00:00";
     environ := ∅;
     disk := ∅ |}.

(** The run of [main] on that machine. *)
Definition ran (variables : gmap string pystr) (dry_run : bool) : Run :=
  default {| printed := []; archive := (∅, []); exchanges := [];
             exit := Finished |}
          (main (machine variables) (arguments dry_run) 5).

Definition full_run : Run := ran with_cookie false.

Definition dry_run : Run := ran with_cookie true.

End Cases.

(** * Facts about strings *)

Section StripFacts.
Variable P : N → bool.

Lemma drop_while_all (w s : pystr) :
  Forall (λ c, P c = true) w → drop_while P (w ++ s) = drop_while P s.
Proof.
  induction 1 as [|c w Hc _ IH]; simpl; [done|]. by rewrite Hc.
Qed.

Lemma drop_while_app (x t : pystr) :
  drop_while P (x ++ t) =
  match drop_while P x with
  | [] => drop_while P t
  | y => y ++ t
  end.
Proof.
  induction x as [|c x IH]; simpl.
  - by destruct (drop_while P t).
  - destruct (P c); [exact IH | done].
Qed.

Lemma drop_while_split (s : pystr) :
  ∃ w, Forall (λ c, P c = true) w ∧ s = w ++ drop_while P s.
Proof.
  induction s as [|c s (w & Hw & Hs)]; simpl.
  - by exists [].
  - destruct (P c) eqn:Hc.
    + exists (c :: w). split; [by constructor|]. simpl. by f_equal.
    + by exists [].
Qed.

Lemma rstrip_by_split (s : pystr) :
  ∃ w, Forall (λ c, P c = true) w ∧ s = rstrip_by P s ++ w.
Proof.
  destruct (drop_while_split (rev s)) as (w & Hw & Hs).
  exists (rev w). split.
  - by apply Forall_rev.
  - unfold rstrip_by. rewrite <- rev_app_distr, <- Hs.
    by rewrite rev_involutive.
Qed.

Lemma rstrip_by_all (x t : pystr) :
  Forall (λ c, P c = true) t → rstrip_by P (x ++ t) = rstrip_by P x.
Proof.
  intros Ht. unfold rstrip_by. rewrite rev_app_distr.
  rewrite drop_while_all; [done | by apply Forall_rev].
Qed.

Lemma strip_by_suffix (x t : pystr) :
  Forall (λ c, P c = true) t → strip_by P (x ++ t) = strip_by P x.
Proof.
  intros Ht. unfold strip_by, lstrip_by. rewrite drop_while_app.
  destruct (drop_while P x) as [|c y] eqn:Hx.
  - rewrite <- (app_nil_r t), drop_while_all by done. done.
  - by apply rstrip_by_all.
Qed.

Lemma strip_by_prefix (w x : pystr) :
  Forall (λ c, P c = true) w → strip_by P (w ++ x) = strip_by P x.
Proof.
  intros Hw. unfold strip_by, lstrip_by. by rewrite drop_while_all.
Qed.

Lemma strip_by_cons c (x : pystr) :
  P c = true → strip_by P (c :: x) = strip_by P x.
Proof. intros Hc. unfold strip_by, lstrip_by. simpl. by rewrite Hc. Qed.

Lemma drop_while_head (s : pystr) c r :
  drop_while P s = c :: r → P c = false.
Proof.
  induction s as [|a s IH]; simpl; [done|].
  destruct (P a) eqn:Ha; [exact IH|]. by intros [= <- _].
Qed.

Lemma drop_while_Forall (Q : N → Prop) (s : pystr) :
  Forall Q s → Forall Q (drop_while P s).
Proof.
  induction 1 as [|c s Hc Hs IH]; simpl; [done|].
  destruct (P c); [done | by constructor].
Qed.

Lemma strip_by_Forall (Q : N → Prop) (s : pystr) :
  Forall Q s → Forall Q (strip_by P s).
Proof.
  intros Hs. unfold strip_by, rstrip_by, lstrip_by.
  apply Forall_rev, drop_while_Forall, Forall_rev.
  by apply drop_while_Forall.
Qed.

Lemma strip_by_head (s : pystr) c r :
  strip_by P s = c :: r → P c = false.
Proof.
  unfold strip_by, rstrip_by, lstrip_by.
  destruct (drop_while P s) as [|a y] eqn:Hy; [done|].
  apply drop_while_head in Hy.
  destruct (drop_while_split (rev (a :: y))) as (w & Hw & Hs).
  intros Hr.
  assert (a :: y = (c :: r) ++ rev w) as Heq.
  { rewrite <- Hr, <- rev_app_distr, <- Hs. by rewrite rev_involutive. }
  simpl in Heq. by injection Heq as -> _.
Qed.

Lemma strip_by_last (s : pystr) c :
  List.last (strip_by P s) c = c ∨ P (List.last (strip_by P s) c) = false.
Proof.
  unfold strip_by, rstrip_by.
  destruct (drop_while P (rev (lstrip_by P s))) as [|a y] eqn:Hy.
  - by left.
  - right. apply drop_while_head in Hy. simpl.
    by rewrite last_last.
Qed.
End StripFacts.

(** * Slugs *)

Lemma underscored_Forall t :
  underscored t → Forall (λ c, underscore_or_dot c = true) t.
Proof. intros [-> | ->]; repeat constructor. Qed.

Lemma sub_unsafe_app x y : sub_unsafe (x ++ y) = sub_unsafe x ++ sub_unsafe y.
Proof. apply map_app. Qed.

Lemma sub_unsafe_underscored t : underscored t → sub_unsafe t = t.
Proof. by intros [-> | ->]. Qed.

Lemma sub_spaces_in_run (w : pystr) :
  Forall (λ c, is_space c = true) w → sub_spaces_from true w = [].
Proof. induction 1 as [|c w Hc _ IH]; simpl; [done|]. by rewrite Hc. Qed.

Lemma sub_spaces_from_blank b (w : pystr) :
  Forall (λ c, is_space c = true) w → underscored (sub_spaces_from b w).
Proof.
  intros Hw. destruct b.
  - left. by apply sub_spaces_in_run.
  - destruct Hw as [|c w Hc Hw]; simpl; [by left|].
    rewrite Hc, sub_spaces_in_run by done. by right.
Qed.

Lemma sub_spaces_from_suffix b (s w : pystr) :
  Forall (λ c, is_space c = true) w →
  ∃ t, underscored t ∧
       sub_spaces_from b (s ++ w) = sub_spaces_from b s ++ t.
Proof.
  intros Hw. revert b. induction s as [|c s IH]; intros b; simpl.
  - exists (sub_spaces_from b w). split; [by apply sub_spaces_from_blank | done].
  - destruct (is_space c).
    + destruct (IH true) as (t & Ht & ->). exists t. by destruct b.
    + destruct (IH false) as (t & Ht & ->). by exists t.
Qed.

Lemma slug_core_flag (s : pystr) : slug_core true s = slug_core false s.
Proof.
  unfold slug_core. destruct s as [|c s]; simpl; [done|].
  destruct (is_space c); [|done].
  change (sub_unsafe (95%N :: ?x)) with (95%N :: sub_unsafe x).
  by rewrite strip_by_cons.
Qed.

Lemma slug_core_blank_prefix b (w s : pystr) :
  Forall (λ c, is_space c = true) w → slug_core b (w ++ s) = slug_core false s.
Proof.
  intros Hw. revert b. induction Hw as [|c w Hc _ IH]; intros b; simpl.
  - destruct b; [apply slug_core_flag | done].
  - specialize (IH true). unfold slug_core in *. simpl. rewrite Hc.
    destruct b; [done|].
    change (sub_unsafe (95%N :: ?x)) with (95%N :: sub_unsafe x).
    by rewrite strip_by_cons.
Qed.

Lemma slug_core_blank_suffix b (s w : pystr) :
  Forall (λ c, is_space c = true) w → slug_core b (s ++ w) = slug_core b s.
Proof.
  intros Hw. unfold slug_core.
  destruct (sub_spaces_from_suffix b s w Hw) as (t & Ht & ->).
  rewrite sub_unsafe_app, (sub_unsafe_underscored t) by done.
  by apply strip_by_suffix, underscored_Forall.
Qed.

Lemma slug_core_strip (value : pystr) :
  slug_core false (strip value) = slug_core false value.
Proof.
  unfold strip, strip_by, lstrip_by.
  destruct (drop_while_split is_space value) as (w1 & Hw1 & Hv).
  destruct (rstrip_by_split is_space (drop_while is_space value)) as (w2 & Hw2 & Hl).
  rewrite Hv at 2. rewrite slug_core_blank_prefix by done.
  rewrite Hl at 2. by rewrite slug_core_blank_suffix.
Qed.

Lemma collapse_runs_scan (s : pystr) :
  sub_spaces_from false s = collapse_runs s ∧
  match s with
  | c :: _ => if is_space c then 95%N :: sub_spaces_from true s
              else sub_spaces_from true s
  | [] => sub_spaces_from true s
  end = collapse_runs s.
Proof.
  induction s as [|c r [IH1 IH2]]; [done|].
  cbn [sub_spaces_from collapse_runs].
  destruct (is_space c) eqn:Hc.
  - assert (95%N :: sub_spaces_from true r
            = match r with
              | [] => [95%N]
              | d :: _ => if is_space d then collapse_runs r
                          else 95%N :: collapse_runs r
              end) as Hrun.
    { destruct r as [|d r']; [done|].
      destruct (is_space d); by rewrite <- IH2. }
    by split.
  - by rewrite IH1.
Qed.

Lemma in_class_slug_char (c : N) : in_class c = slug_char c.
Proof.
  destruct (N.ltb c 128) eqn:Hlt.
  - apply N.ltb_lt in Hlt.
    assert (∃ k, (k < 128)%nat ∧ c = N.of_nat k) as (k & Hk & ->)
      by (exists (N.to_nat c); lia).
    do 128 (destruct k as [|k]; [by vm_compute|]). lia.
  - apply N.ltb_ge in Hlt.
    assert (slug_char c = false) as ->.
    { unfold slug_char, is_upper, is_lower, is_ascii_digit.
      repeat match goal with
      | |- context [(?a <=? ?b)%N] =>
          destruct (N.leb_spec a b); try lia
      | |- context [(?a =? ?b)%N] =>
          destruct (N.eqb_spec a b); try lia
      end; done. }
    apply not_true_is_false. unfold in_class.
    intros (x & Hx & Hcx)%existsb_exists. apply N.eqb_eq in Hcx as <-.
    assert (Forall (λ x, (x < 128)%N) class_chars) as Hall
      by (vm_compute; repeat constructor).
    rewrite Forall_forall in Hall.
    apply list_elem_of_In, Hall in Hx. lia.
Qed.

Lemma replace_outside_sub_unsafe (s : pystr) : replace_outside s = sub_unsafe s.
Proof.
  unfold replace_outside, sub_unsafe. apply map_ext.
  intros c. by rewrite in_class_slug_char.
Qed.

Lemma edge_run_drop (s : pystr) :
  drop (edge_run s) s = drop_while underscore_or_dot s.
Proof.
  induction s as [|c s IH]; [done|]. cbn [edge_run drop_while].
  unfold underscore_or_dot at 1. by destruct ((c =? 95) || (c =? 46))%N.
Qed.

Lemma trim_edges_strip (s : pystr) :
  trim_edges s = strip_by underscore_or_dot s.
Proof.
  unfold trim_edges, strip_by, rstrip_by, lstrip_by.
  rewrite edge_run_drop.
  rewrite <- (edge_run_drop (rev _)), skipn_rev.
  by rewrite rev_involutive.
Qed.

Lemma slugify_refines (value : pystr) : slugify value = slugify_spec value.
Proof.
  unfold slugify, slugify_spec, sub_spaces.
  rewrite trim_edges_strip, replace_outside_sub_unsafe.
  rewrite <- (proj1 (collapse_runs_scan value)).
  change (strip_by underscore_or_dot (sub_unsafe (sub_spaces_from false (strip value))))
    with (slug_core false (strip value)).
  change (strip_by underscore_or_dot (sub_unsafe (sub_spaces_from false value)))
    with (slug_core false value).
  rewrite slug_core_strip. by destruct (slug_core false value).
Qed.

Lemma sub_unsafe_class (s : pystr) : Forall (λ c, slug_char c = true) (sub_unsafe s).
Proof.
  unfold sub_unsafe. induction s as [|c s IH]; simpl; [done|].
  constructor; [|done]. by destruct (slug_char c) eqn:Hc.
Qed.

Lemma slugify_class (value : pystr) :
  Forall (λ c, slug_char c = true) (slugify value).
Proof.
  unfold slugify.
  destruct (truthy _) eqn:Ht.
  - apply strip_by_Forall, sub_unsafe_class.
  - vm_compute. repeat constructor.
Qed.

Lemma slugify_nonempty (value : pystr) : slugify value ≠ [].
Proof.
  unfold slugify.
  destruct (strip_by _ _) as [|c r] eqn:Hs; simpl; [by vm_compute|done].
Qed.

Lemma slugify_ends (value : pystr) :
  underscore_or_dot (List.hd 0%N (slugify value)) = false ∧
  underscore_or_dot (List.last (slugify value) 0%N) = false.
Proof.
  unfold slugify.
  destruct (strip_by _ _) as [|c r] eqn:Hs; simpl truthy; cbv iota.
  - by vm_compute.
  - split.
    + simpl. by apply strip_by_head in Hs.
    + rewrite <- Hs.
      destruct (strip_by_last underscore_or_dot
                  (sub_unsafe (sub_spaces (strip value))) 0%N) as [H | H]; [|done].
      by rewrite H.
Qed.

(** C6.  [slugify] is the slug rule of the specification, stated without
    the functions of the source: each run of whitespace collapsed to one
    underscore, every character outside [[A-Za-z0-9_.-]] replaced by an
    underscore, underscores and dots stripped at both ends, and the
    default name ["search"] for an empty result; hence a slug is never
    empty, holds characters of the class only and neither starts nor ends
    with an underscore or a dot.  A run of three whitespace characters
    gives one underscore and two characters outside the class give two;
    ["quantum computing!!"] gives ["quantum_computing"] and three spaces
    give the default name. *)
Theorem slugify_rule :
  (∀ value, slugify value = slugify_spec value) ∧
  (∀ value,
     slugify value ≠ [] ∧
     Forall (λ c, slug_char c = true) (slugify value) ∧
     underscore_or_dot (List.hd 0%N (slugify value)) = false ∧
     underscore_or_dot (List.last (slugify value) 0%N) = false) ∧
  slugify (py "a" ++ [32; 9; 32]%N ++ py "b") = py "a_b" ∧
  slugify (py "a!?b") = py "a__b" ∧
  slugify (py "quantum computing!!") = py "quantum_computing" ∧
  slugify (py "   ") = py "search".
Proof.
  split; [exact slugify_refines|].
  split; [|by vm_compute].
  intros value. split; [apply slugify_nonempty|].
  split; [apply slugify_class | apply slugify_ends].
Qed.

(** * Identifiers *)

Lemma prefix_b_app (p r : pystr) : prefix_b p (p ++ r) = true.
Proof. induction p as [|a p IH]; simpl; [done|]. by rewrite N.eqb_refl. Qed.

Lemma prefix_b_inv (p s : pystr) :
  prefix_b p s = true → s = p ++ drop (length p) s.
Proof.
  revert s. induction p as [|a p IH]; intros [|b s]; simpl; try done.
  intros [Hab Hp]%andb_prop. apply N.eqb_eq in Hab as ->.
  f_equal. by apply IH.
Qed.

Lemma replace_from_skip (old new x rest : pystr) :
  replace_from old new (length x) (x ++ rest) = replace_from old new O rest.
Proof. induction x as [|c x IH]; simpl; [by destruct rest | exact IH]. Qed.

Lemma replace_prefix (old new rest : pystr) :
  old ≠ [] → replace old new (old ++ rest) = new ++ replace old new rest.
Proof.
  intros Hold. unfold replace. destruct old as [|a old]; [done|].
  change ((a :: old) ++ rest) with (a :: (old ++ rest)).
  cbn [replace_from]. change (a :: (old ++ rest)) with ((a :: old) ++ rest).
  rewrite prefix_b_app. simpl length. simpl Init.Nat.pred.
  by rewrite replace_from_skip.
Qed.

Lemma replace_absent (old new s : pystr) :
  contains old s = false → replace old new s = s.
Proof.
  unfold replace. induction s as [|c s IH]; [done|].
  cbn [contains replace_from]. intros [Hp Hc]%orb_false_elim.
  rewrite Hp. f_equal. by apply IH.
Qed.

Lemma span_split (P : N → bool) (s : pystr) :
  s = (span P s).1 ++ (span P s).2 ∧
  Forall (λ c, P c = true) (span P s).1 ∧
  match (span P s).2 with
  | [] => True
  | c :: _ => P c = false
  end.
Proof.
  induction s as [|c s (Hs & Hm & Hr)]; simpl; [done|].
  destruct (P c) eqn:Hc; [|done].
  destruct (span P s) as [m rest]. simpl in *.
  split; [by f_equal|]. split; [by constructor | done].
Qed.

Lemma split_unbroken (sep : N) (y : pystr) :
  Forall (λ c, negb (c =? sep)%N = true) y → split sep None y = [y].
Proof.
  induction 1 as [|c y Hc _ IH]; simpl; [done|].
  apply negb_true_iff in Hc. rewrite Hc, IH. done.
Qed.

Lemma split_last (sep : N) (s y : pystr) :
  Forall (λ c, negb (c =? sep)%N = true) y →
  ∃ seg segs, split sep None (s ++ sep :: y) = seg :: segs ++ [y].
Proof.
  intros Hy. induction s as [|a s (seg & segs & IH)]; simpl.
  - rewrite N.eqb_refl, split_unbroken by done. by exists [], [].
  - rewrite IH. destruct (a =? sep)%N; simpl.
    + by exists [], (seg :: segs).
    + by exists (a :: seg), segs.
Qed.

Lemma last_item_split (sep : N) (s : pystr) :
  last_item (split sep None s) =
  rev (span (λ c, negb (c =? sep)%N) (rev s)).1.
Proof.
  destruct (span_split (λ c, negb (c =? sep)%N) (rev s)) as (Hs & Hm & Hr).
  destruct (span _ (rev s)) as [m rest]. simpl in *.
  apply (f_equal (@rev N)) in Hs. rewrite rev_involutive, rev_app_distr in Hs.
  apply Forall_rev in Hm. rewrite Hs.
  destruct rest as [|c rest].
  - simpl. rewrite split_unbroken by done. done.
  - apply negb_false_iff, N.eqb_eq in Hr as ->. simpl.
    rewrite <- app_assoc. simpl.
    destruct (split_last sep (rev rest) (rev m) Hm) as (seg & segs & ->).
    unfold last_item. by rewrite app_comm_cons, last_last.
Qed.

Lemma after_last_slash_split (url : pystr) :
  last_item (split 47 None (rstrip_by (λ c, (c =? 47)%N) url)) = after_last_slash url.
Proof.
  rewrite last_item_split. unfold after_last_slash, rstrip_by.
  by rewrite rev_involutive.
Qed.

Lemma rstrip_by_keeps_head (P : N → bool) c (x : pystr) :
  P c = false → ∃ y, rstrip_by P (c :: x) = c :: y.
Proof.
  intros Hc. destruct (rstrip_by_split P (c :: x)) as (w & Hw & Hs).
  destruct (rstrip_by P (c :: x)) as [|a y].
  - simpl in Hs. subst w. inversion Hw; congruence.
  - injection Hs as <- _. by exists y.
Qed.

Lemma strip_keeps_head c (x : pystr) :
  is_space c = false → ∃ y, strip (c :: x) = c :: y.
Proof.
  intros Hc. unfold strip, strip_by, lstrip_by. simpl. rewrite Hc.
  by apply rstrip_by_keeps_head.
Qed.

Lemma after_last_slash_nonempty c (x : pystr) :
  (c =? 47)%N = false → after_last_slash (c :: x) ≠ [].
Proof.
  intros Hc. unfold after_last_slash.
  destruct (rstrip_by_keeps_head (λ c, (c =? 47)%N) c x Hc) as (y & Hy).
  unfold rstrip_by in Hy. apply (f_equal (@rev N)) in Hy.
  rewrite rev_involutive in Hy. rewrite Hy.
  destruct (rev (c :: y)) as [|a r] eqn:Hr.
  - apply (f_equal (@length N)) in Hr. rewrite length_rev in Hr. done.
  - assert (drop_while (λ c, (c =? 47)%N) (rev (c :: x)) = a :: r) as Hd
      by (by rewrite Hy).
    apply drop_while_head in Hd. simpl. rewrite Hd. simpl.
    destruct (span _ r). simpl. intros Hn.
    apply (f_equal (@length N)) in Hn. rewrite length_app in Hn. simpl in Hn. lia.
Qed.

Lemma select_link_prefix prefix links a :
  select_link prefix links = Some a → startswith (href a) prefix = true.
Proof.
  unfold select_link. intros H. by apply find_some in H as [_ H].
Qed.

Lemma abs_url_shape (a : Anchor) :
  startswith (href a) abs_prefix = true → ∃ y, strip (href a) = 104%N :: y.
Proof.
  intros H. apply prefix_b_inv in H. rewrite H.
  apply strip_keeps_head. done.
Qed.

(** The identifier is the cleaned label, or what follows the last slash of
    the link when nothing is left of the label. *)
Lemma identifier_of_cases (a : Anchor) :
  startswith (href a) abs_prefix = true →
  let cleaned :=
    strip (replace (py "arXiv:") [] (get_text_strip (anchor_strings a))) in
  identifier_of a =
  if truthy cleaned then cleaned else after_last_slash (strip (href a)).
Proof.
  intros H cleaned. unfold identifier_of. fold cleaned.
  destruct (truthy cleaned); [done|]. simpl.
  destruct (abs_url_shape a H) as (y & ->). simpl.
  apply after_last_slash_split.
Qed.

Lemma identifier_of_nonempty (a : Anchor) :
  startswith (href a) abs_prefix = true → identifier_of a ≠ [].
Proof.
  intros H. rewrite identifier_of_cases by done.
  destruct (strip (replace _ _ _)) as [|c r] eqn:Hc; simpl; [|done].
  destruct (abs_url_shape a H) as (y & ->).
  by apply after_last_slash_nonempty.
Qed.

Lemma extract_record_id (item : ResultItem) (rec : record) :
  extract_record item = Some rec →
  ∃ a, select_link abs_prefix (list_title_links item) = Some a ∧
       rec !! "id" = Some (identifier_of a).
Proof.
  unfold extract_record.
  destruct (select_link abs_prefix _) as [a|]; [|done].
  intros Hrec. exists a. split; [done|].
  destruct (select_link pdf_prefix _) as [p|];
    [destruct (truthy (strip (href p)) && _);
     (destruct (truthy _); injection Hrec as <-) | injection Hrec as <-];
    by simplify_map_eq.
Qed.

Lemma extract_record_some (item : ResultItem) a :
  select_link abs_prefix (list_title_links item) = Some a →
  ∃ rec, extract_record item = Some rec.
Proof.
  intros H. unfold extract_record. rewrite H.
  destruct (select_link pdf_prefix _) as [p|]; [|by eexists].
  destruct (truthy (strip (href p)) && _); destruct (truthy _); by eexists.
Qed.

Lemma span_all (P : N → bool) (s : pystr) :
  Forall (λ c, P c = true) s → span P s = (s, []).
Proof.
  induction 1 as [|c s Hc _ IH]; [done|]. simpl. by rewrite Hc, IH.
Qed.

Lemma last_segment_plain (url : pystr) :
  Forall (λ c, path_end c = false) url → last_segment url = after_last_slash url.
Proof.
  intros Hurl. unfold last_segment, without_query.
  rewrite span_all; [done|].
  eapply Forall_impl; [exact Hurl|]. by intros c ->.
Qed.

(** C7, as amended.  For a result item with a canonical link, the record's
    identifier is the link's label with every occurrence of ["arXiv:"]
    removed and the surrounding whitespace trimmed, and when nothing is
    left, what follows the last slash of the canonical URL, its trailing
    slashes apart.  That is the last path segment of the URL when the URL
    has neither query nor fragment; and when moreover the marker does not
    occur in the label beyond its prefix, the identifier is the one of the
    specification: the label with the prefix stripped, or the last path
    segment. *)
Theorem extract_record_identifier (item : ResultItem) (abs_el : Anchor) :
  select_link abs_prefix (list_title_links item) = Some abs_el →
  let label := get_text_strip (anchor_strings abs_el) in
  let cleaned := strip (replace (py "arXiv:") [] label) in
  let url := strip (href abs_el) in
  ∃ rec,
    extract_record item = Some rec ∧
    rec !! "id" =
      Some (if truthy cleaned then cleaned else after_last_slash url) ∧
    (Forall (λ c, path_end c = false) url →
     after_last_slash url = last_segment url) ∧
    (contains (py "arXiv:") (remove_prefix (py "arXiv:") label) = false →
     (truthy cleaned = false → Forall (λ c, path_end c = false) url) →
     rec !! "id" = Some (identifier_spec abs_el)).
Proof.
  intros Hsel label cleaned url.
  destruct (extract_record_some item abs_el Hsel) as (rec & Hrec).
  exists rec. split; [done|].
  destruct (extract_record_id item rec Hrec) as (a & Ha & Hid).
  rewrite Hsel in Ha. injection Ha as <-.
  pose proof (select_link_prefix _ _ _ Hsel) as Hpre.
  rewrite Hid, identifier_of_cases by done. fold label cleaned url.
  split; [done|].
  split; [intros Hurl; by rewrite last_segment_plain|].
  intros Hno Hurl. unfold identifier_spec. fold label url.
  assert (cleaned = strip (remove_prefix (py "arXiv:") label)) as <-.
  { unfold cleaned. f_equal. unfold remove_prefix in *.
    destruct (startswith label (py "arXiv:")) eqn:Hs.
    - apply prefix_b_inv in Hs. rewrite Hs at 1.
      rewrite replace_prefix by done. simpl. by apply replace_absent.
    - by apply replace_absent. }
  destruct (truthy cleaned) eqn:Ht; [done|].
  by rewrite last_segment_plain by auto.
Qed.

Lemma extract_record_identifier_witness :
  ∃ rec,
    extract_record Samples.bare_item = Some rec ∧
    rec !! "id" = Some (py "2101.00003") ∧
    identifier_spec Samples.bare_link = py "2101.00003".
Proof.
  destruct (extract_record_identifier Samples.bare_item Samples.bare_link eq_refl)
    as (rec & Hrec & Hid & _ & Hspec).
  exists rec. split; [exact Hrec|]. split; [exact Hid | reflexivity].
Defined.

(** When the canonical link has a query and no label, the identifier holds
    the query: it is what follows the last slash, which is then not the
    last path segment of the URL. *)
Example identifier_with_query :
  (λ r : record, r !! "id") <$> extract_record Samples.context_item
    = Some (Some (py "2101.00003?context=cs")) ∧
  last_segment (href Samples.context_link) = py "2101.00003" ∧
  identifier_spec Samples.context_link = py "2101.00003".
Proof. by vm_compute. Qed.

(** C7, as stated, fails: for a label that carries the marker twice, the
    identifier of the record is not the label with its prefix stripped. *)
Lemma identifier_prefix_counterexample :
  (λ r : record, r !! "id") <$> extract_record Samples.twice_item
    = Some (Some (py "2101.00001 2101.00002")) ∧
  identifier_spec Samples.twice_link = py "2101.00001 arXiv:2101.00002" ∧
  (λ r : record, r !! "id") <$> extract_record Samples.twice_item
    ≠ Some (Some (identifier_spec Samples.twice_link)).
Proof. by vm_compute. Qed.

(** * Deduplication *)

Lemma dedup_first_cons r l :
  dedup_first (r :: l) = r :: List.filter (differs r) (dedup_first l).
Proof. done. Qed.

Lemma dedup_first_snoc (F : list record) (r : record) :
  dedup_first (F ++ [r]) =
  if known F r then dedup_first F else dedup_first F ++ [r].
Proof.
  induction F as [|a F IH]; [done|].
  change ((a :: F) ++ [r]) with (a :: (F ++ [r])).
  rewrite !dedup_first_cons, IH.
  change (known (a :: F) r)
    with (bool_decide (a !! "id" = r !! "id") || known F r).
  destruct (known F r) eqn:Hk.
  - by rewrite orb_true_r.
  - rewrite orb_false_r, List.filter_app. cbn [List.filter]. unfold differs at 2.
    rewrite (bool_decide_ext (r !! "id" = a !! "id") (a !! "id" = r !! "id"))
      by (split; congruence).
    destruct (bool_decide _); simpl; [by rewrite app_nil_r | done].
Qed.

Lemma known_spec (F : list record) (r : record) :
  known F r = true ↔ ∃ a, a ∈ F ∧ a !! "id" = r !! "id".
Proof.
  unfold known. rewrite existsb_exists. split.
  - intros (a & Ha & Hid). exists a.
    split; [by apply list_elem_of_In | by apply bool_decide_eq_true in Hid].
  - intros (a & Ha & Hid). exists a.
    split; [by apply list_elem_of_In | by apply bool_decide_eq_true].
Qed.

Lemma find_filter_keep {A} (f g : A → bool) (l : list A) :
  (∀ x, f x = true → g x = true) →
  List.find f (List.filter g l) = List.find f l.
Proof.
  intros Hfg. induction l as [|x l IH]; simpl; [done|].
  destruct (g x) eqn:Hg; simpl.
  - by rewrite IH.
  - destruct (f x) eqn:Hf; [|done]. apply Hfg in Hf. congruence.
Qed.

(** The record kept for an id is the first one that carries it. *)
Lemma find_id_dedup_first (i : pystr) (l : list record) :
  find_id i (dedup_first l) = find_id i l.
Proof.
  unfold find_id. induction l as [|r l IH]; [done|].
  rewrite dedup_first_cons. simpl.
  destruct (bool_decide (r !! "id" = Some i)) eqn:Hr; [done|].
  rewrite find_filter_keep; [done|].
  intros x Hx. unfold differs.
  apply bool_decide_eq_true in Hx. apply bool_decide_eq_false in Hr.
  apply negb_true_iff, bool_decide_eq_false. congruence.
Qed.

Lemma elem_of_dedup_first (x : record) (l : list record) :
  x ∈ dedup_first l → x ∈ l.
Proof.
  induction l as [|r l IH]; [done|].
  rewrite dedup_first_cons. intros [->|Hx]%elem_of_cons; [by left|].
  right. apply IH. apply list_elem_of_In in Hx. apply filter_In in Hx as [Hx _].
  by apply list_elem_of_In.
Qed.

Lemma NoDup_fmap_filter {A B} (f : A → B) (g : A → bool) (l : list A) :
  NoDup (f <$> l) → NoDup (f <$> List.filter g l).
Proof.
  induction l as [|x l IH]; simpl; [done|].
  intros [Hx Hl]%NoDup_cons. destruct (g x); simpl; [|by apply IH].
  apply NoDup_cons. split; [|by apply IH].
  intros (y & Hy & Hin)%list_elem_of_fmap. apply Hx.
  apply list_elem_of_fmap. exists y. split; [done|].
  apply list_elem_of_In in Hin. apply filter_In in Hin as [Hin _].
  by apply list_elem_of_In.
Qed.

(** No id occurs twice after deduplication. *)
Lemma NoDup_dedup_first (l : list record) :
  NoDup ((λ r : record, r !! "id") <$> dedup_first l).
Proof.
  induction l as [|r l IH]; [constructor|].
  rewrite dedup_first_cons, fmap_cons. apply NoDup_cons. split.
  - intros (y & Hy & Hin)%list_elem_of_fmap.
    apply list_elem_of_In in Hin. apply filter_In in Hin as [_ Hd].
    unfold differs in Hd. apply negb_true_iff, bool_decide_eq_false in Hd.
    congruence.
  - by apply NoDup_fmap_filter.
Qed.

(** * The accumulator *)

Lemma accumulate_one_skip (acc : gset pystr * list record) (rec : record) :
  has_id rec = false → accumulate_one acc rec = acc.
Proof.
  unfold has_id, accumulate_one.
  destruct (rec !! "id") as [i|]; [|done]. by intros ->.
Qed.

Lemma accumulate_one_mirrors acc F rec :
  mirrors acc F → has_id rec = true →
  mirrors (accumulate_one acc rec) (F ++ [rec]).
Proof.
  intros [Hc Hs] Hid. unfold has_id in Hid. unfold accumulate_one.
  destruct (rec !! "id") as [i|] eqn:Hi; [|done]. rewrite Hid. simpl.
  assert (known F rec = true ↔ i ∈ acc.1) as Hk.
  { rewrite known_spec, Hs, Hi. done. }
  destruct (decide (i ∈ acc.1)) as [Hin | Hin]; split; simpl.
  - rewrite dedup_first_snoc. apply Hk in Hin. by rewrite Hin.
  - intros j. rewrite Hs. setoid_rewrite elem_of_app. split.
    + intros (a & Ha & Hj). eauto.
    + intros (a & [Ha | ->%list_elem_of_singleton] & Hj); [eauto|].
      apply Hs. congruence.
  - rewrite dedup_first_snoc.
    destruct (known F rec) eqn:Hn; [|by rewrite Hc].
    destruct Hin. by apply Hk.
  - intros j. rewrite elem_of_union, elem_of_singleton, Hs.
    setoid_rewrite elem_of_app. split.
    + intros [-> | (a & Ha & Hj)]; [|eauto].
      exists rec. split; [right; by apply list_elem_of_singleton | done].
    + intros (a & [Ha | ->%list_elem_of_singleton] & Hj); [eauto|].
      left. congruence.
Qed.

Lemma accumulate_mirrors page acc F :
  mirrors acc F →
  mirrors (accumulate acc page) (F ++ List.filter has_id page).
Proof.
  unfold accumulate. revert acc F.
  induction page as [|rec page IH]; intros acc F Hm; simpl.
  - by rewrite app_nil_r.
  - destruct (has_id rec) eqn:Hid.
    + replace (F ++ rec :: List.filter has_id page)
        with ((F ++ [rec]) ++ List.filter has_id page)
        by (by rewrite <- app_assoc).
      apply IH.
      by apply accumulate_one_mirrors.
    + rewrite accumulate_one_skip by done. by apply IH.
Qed.

(** * One pass of the loop *)

Lemma extract_records_has_id (soup : Soup) :
  Forall (λ r, has_id r = true) (extract_records soup).
Proof.
  unfold extract_records. induction (results soup) as [|item items IH]; simpl.
  - constructor.
  - destruct (extract_record item) as [rec|] eqn:Hrec; [|done].
    constructor; [|done].
    destruct (extract_record_id item rec Hrec) as (a & Ha & Hid).
    unfold has_id. rewrite Hid.
    apply select_link_prefix, identifier_of_nonempty in Ha.
    by destruct (identifier_of a).
Qed.

Lemma filter_all {A} (f : A → bool) (l : list A) :
  Forall (λ x, f x = true) l → List.filter f l = l.
Proof. induction 1 as [|x l Hx _ IH]; simpl; [done|]. by rewrite Hx, IH. Qed.

Lemma records_snoc (tr : list Exchange) (ex : Exchange) :
  List.concat (page_records_of <$> tr ++ [ex])
  = List.concat (page_records_of <$> tr) ++ page_records_of ex.
Proof. by rewrite fmap_app, concat_app; simpl; rewrite app_nil_r. Qed.

Lemma head_omap_snoc (tr : list Exchange) (ex : Exchange) :
  head (omap exposed_total (tr ++ [ex])) =
  match head (omap exposed_total tr) with
  | Some t => Some t
  | None => exposed_total ex
  end.
Proof.
  rewrite omap_app. destruct (omap exposed_total tr); simpl; [|done].
  by destruct (exposed_total ex).
Qed.

Lemma run_invariant_initial (cfg : Config) : run_invariant (initial_state cfg).
Proof.
  split; [split|]; simpl; [done| |done].
  intros j. split; [by intros ?%not_elem_of_empty|].
  by intros (a & ?%not_elem_of_nil & _).
Qed.

#[local] Arguments accumulate : simpl never.

Lemma iteration_invariant server cfg st :
  run_invariant st → run_invariant (after (iteration server cfg st)).
Proof.
  intros [Hm Ht]. unfold iteration.
  destruct (cap_reached cfg st); [done|].
  set (req := page_request cfg st).
  destruct (fetch_page server (trace st) req) as [[soup url]|e] eqn:Hf; simpl.
  2: { split; unfold fetched_records; simpl.
       - rewrite records_snoc. unfold page_records_of at 2. simpl.
         by rewrite app_nil_r.
       - rewrite head_omap_snoc. unfold exposed_total at 2. simpl.
         rewrite Ht. by destruct (head _). }
  destruct (extract_records soup) as [|r0 page] eqn:Hp; simpl.
  { split; unfold fetched_records; simpl.
    - rewrite records_snoc. unfold page_records_of at 2. simpl.
      by rewrite Hp, app_nil_r.
    - rewrite head_omap_snoc. unfold exposed_total at 2. simpl.
      rewrite Hp, Ht. by destruct (head _). }
  pose proof (accumulate_mirrors (r0 :: page) _ _ Hm) as Hacc.
  rewrite filter_all in Hacc
    by (rewrite <- Hp; apply extract_records_has_id).
  destruct (accumulate (seen st, collected st) (r0 :: page))
    as [seen' collected'] eqn:Hac.
  assert (List.concat (page_records_of <$> trace st ++
            [{| ex_start := start st; ex_request := req;
                ex_response := Ok (soup, url) |}])
          = fetched_records st ++ r0 :: page) as Hrec.
  { rewrite records_snoc. unfold page_records_of at 2. simpl. by rewrite Hp. }
  assert (exposed_total {| ex_start := start st; ex_request := req;
                           ex_response := Ok (soup, url) |}
          = match extract_total_results soup with
            | Ok (Some t) => Some t
            | _ => None
            end) as Hexp.
  { unfold exposed_total. simpl. by rewrite Hp. }
  destruct (total_results st) as [t|] eqn:Htot.
  - destruct (t <=? start st + cfg_size cfg); simpl;
      (split; unfold fetched_records; simpl;
       [by rewrite Hrec | by rewrite head_omap_snoc, <- Ht]).
  - destruct (extract_total_results soup) as [total'|e] eqn:Hex; simpl.
    + destruct total' as [t|]; [destruct (t <=? start st + cfg_size cfg)|];
        simpl;
        (split; unfold fetched_records; simpl;
         [by rewrite Hrec | by rewrite head_omap_snoc, <- Ht, Hexp]).
    + split; unfold fetched_records; simpl;
        [by rewrite Hrec | by rewrite head_omap_snoc, <- Ht, Hexp].
Qed.

Lemma collect_loop_invariant server cfg fuel st stop st' :
  run_invariant st →
  collect_loop server cfg fuel st = Some (stop, st') →
  run_invariant st'.
Proof.
  revert st. induction fuel as [|fuel IH]; intros st Hinv; simpl; [done|].
  pose proof (iteration_invariant server cfg st Hinv) as Hnext.
  destruct (iteration server cfg st) as [st1 | [stop1 st1]]; simpl in Hnext.
  - by apply IH.
  - by intros [= <- <-].
Qed.

Lemma fetched_records_has_id (st : State) :
  Forall (λ r, has_id r = true) (fetched_records st).
Proof.
  unfold fetched_records. induction (trace st) as [|ex tr IH]; simpl.
  - constructor.
  - apply Forall_app. split; [|done]. unfold page_records_of.
    destruct (ex_response ex) as [[soup url]|e]; [|constructor].
    apply extract_records_has_id.
Qed.

(** * The run *)

Lemma collect_run_invariant server cfg fuel stop st :
  collect_run server cfg fuel = Some (stop, st) → run_invariant st.
Proof. apply collect_loop_invariant, run_invariant_initial. Qed.

Lemma occurrences_NoDup (i : pystr) (l : list record) (r : record) :
  NoDup ((λ r : record, r !! "id") <$> l) →
  r ∈ l → r !! "id" = Some i → occurrences i l = 1%nat.
Proof.
  unfold occurrences. induction l as [|a l IH]; intros Hnd Hr Hi.
  - by apply not_elem_of_nil in Hr.
  - rewrite fmap_cons in Hnd. apply NoDup_cons in Hnd as [Ha Hnd]. simpl.
    destruct (bool_decide (a !! "id" = Some i)) eqn:Hai.
    + apply bool_decide_eq_true in Hai. simpl. f_equal.
      apply length_zero_iff_nil.
      destruct (List.filter _ l) as [|b f] eqn:Hf; [done|].
      assert (In b (List.filter (λ r, bool_decide (r !! "id" = Some i)) l))
        as Hb by (rewrite Hf; by left).
      apply filter_In in Hb as [Hb Hbi]. apply bool_decide_eq_true in Hbi.
      destruct Ha. apply list_elem_of_fmap. exists b.
      split; [congruence | by apply list_elem_of_In].
    + apply bool_decide_eq_false in Hai.
      apply elem_of_cons in Hr as [-> | Hr]; [done|]. by apply IH.
Qed.

Lemma find_id_some (i : pystr) (l : list record) (r : record) :
  find_id i l = Some r → r ∈ l ∧ r !! "id" = Some i.
Proof.
  unfold find_id. intros [Hin Hi]%find_some.
  split; [by apply list_elem_of_In | by apply bool_decide_eq_true in Hi].
Qed.

Lemma find_id_is_some (i : pystr) (l : list record) :
  (∃ r, r ∈ l ∧ r !! "id" = Some i) → is_Some (find_id i l).
Proof.
  intros (r & Hr & Hi). unfold find_id.
  destruct (List.find _ l) as [x|] eqn:Hf; [by eexists|].
  apply list_elem_of_In in Hr.
  pose proof (find_none _ _ Hf r Hr) as Hn. simpl in Hn.
  apply bool_decide_eq_false in Hn. done.
Qed.

Lemma collect_records_value server cfg fuel stop st :
  collect_run server cfg fuel = Some (stop, st) →
  collect_records server cfg fuel
    = Some (match stop with Raised e => Raise e | _ => Ok (collected st) end).
Proof. unfold collect_records. intros ->. by destruct stop. Qed.

(** C2.  The list a run returns is [collected]; its records are those of
    the pages the run fetched, in page order and item order, each id kept where it was first
    met: an id that some fetched page carries occurs exactly once, with
    the fields of its first occurrence. *)
Theorem collected_first_seen server cfg fuel stop st :
  collect_run server cfg fuel = Some (stop, st) →
  collect_records server cfg fuel
    = Some (match stop with Raised e => Raise e | _ => Ok (collected st) end) ∧
  collected st = dedup_first (fetched_records st) ∧
  NoDup ((λ r : record, r !! "id") <$> collected st) ∧
  ∀ i, (∃ r, r ∈ fetched_records st ∧ r !! "id" = Some i) →
       occurrences i (collected st) = 1%nat ∧
       ∃ r, find_id i (fetched_records st) = Some r ∧
            find_id i (collected st) = Some r.
Proof.
  intros Hrun. split; [by apply collect_records_value|].
  apply collect_run_invariant in Hrun as [[Hc _] _]. simpl in Hc.
  split; [done|]. rewrite Hc. split; [apply NoDup_dedup_first|].
  intros i Hi. destruct (find_id_is_some i _ Hi) as (r & Hr).
  assert (find_id i (dedup_first (fetched_records st)) = Some r) as Hd
    by (by rewrite find_id_dedup_first).
  split; [|by exists r].
  apply find_id_some in Hd as [Hin Hid].
  by apply (occurrences_NoDup i _ r); [apply NoDup_dedup_first | |].
Qed.

Lemma collected_first_seen_witness :
  let st := Samples.overlapping_final in
  collect_run Samples.overlapping (Samples.config 2 None) 5 = Some (Exhausted, st) ∧
  (λ r : record, r !! "id") <$> fetched_records st
    = [Some (py "2101.00001"); Some (py "2101.00002");
       Some (py "2101.00002"); Some (py "2101.00003")] ∧
  collected st = dedup_first (fetched_records st) ∧
  (λ r : record, r !! "id") <$> collected st
    = [Some (py "2101.00001"); Some (py "2101.00002"); Some (py "2101.00003")] ∧
  occurrences (py "2101.00002") (collected st) = 1%nat ∧
  (λ r : record, r !! "title") <$> find_id (py "2101.00002") (collected st)
    = Some (Some (py "Second")).
Proof.
  intros st.
  assert (collect_run Samples.overlapping (Samples.config 2 None) 5
          = Some (Exhausted, st)) as Hrun by (vm_compute; reflexivity).
  destruct (collected_first_seen _ _ _ _ _ Hrun) as (_ & Hc & Hnd & Hocc).
  split; [exact Hrun|].
  split; [vm_compute; reflexivity|].
  split; [exact Hc|].
  split; [vm_compute; reflexivity|].
  split; [|vm_compute; reflexivity].
  apply Hocc. exists (default ∅ (fetched_records st !! 1%nat)).
  split; [|vm_compute; reflexivity].
  apply list_elem_of_lookup. exists 1%nat. vm_compute. reflexivity.
Defined.

Lemma accumulate_filter (acc : gset pystr * list record) (page : list record) :
  accumulate acc page = accumulate acc (List.filter has_id page).
Proof.
  unfold accumulate. revert acc.
  induction page as [|rec page IH]; intros acc; simpl; [done|].
  destruct (has_id rec) eqn:Hid; simpl; [apply IH|].
  rewrite accumulate_one_skip by done. apply IH.
Qed.

Lemma accumulate_one_has_id (acc : gset pystr * list record) (rec : record) :
  (Forall (λ r, has_id r = true) acc.2 ∧ [] ∉ acc.1) →
  Forall (λ r, has_id r = true) (accumulate_one acc rec).2 ∧
  [] ∉ (accumulate_one acc rec).1.
Proof.
  intros [Hc Hs]. unfold accumulate_one.
  destruct (rec !! "id") as [i|] eqn:Hi; [|done].
  destruct (truthy i) eqn:Ht; simpl; [|done].
  destruct (decide (i ∈ acc.1)); [done|]. simpl. split.
  - apply Forall_app. split; [done|]. repeat constructor.
    unfold has_id. by rewrite Hi.
  - intros [E%elem_of_singleton | H]%elem_of_union; [by subst i | done].
Qed.

Lemma accumulate_has_id (acc : gset pystr * list record) (page : list record) :
  (Forall (λ r, has_id r = true) acc.2 ∧ [] ∉ acc.1) →
  Forall (λ r, has_id r = true) (accumulate acc page).2 ∧
  [] ∉ (accumulate acc page).1.
Proof.
  unfold accumulate. revert acc.
  induction page as [|rec page IH]; intros acc Hacc; simpl; [done|].
  by apply IH, accumulate_one_has_id.
Qed.

Lemma has_id_spec (r : record) :
  has_id r = true ↔ ∃ i, r !! "id" = Some i ∧ i ≠ [].
Proof.
  unfold has_id. destruct (r !! "id") as [[|c i]|]; simpl; split; try done.
  - by intros (i & [= <-] & Hi).
  - by eexists.
  - by intros (i & [=] & _).
Qed.

Lemma collected_has_id server cfg fuel stop st :
  collect_run server cfg fuel = Some (stop, st) →
  Forall (λ r : record, ∃ i, r !! "id" = Some i ∧ i ≠ []) (collected st).
Proof.
  intros Hrun.
  destruct (collect_run_invariant _ _ _ _ _ Hrun) as [[Hc _] _]. simpl in Hc.
  pose proof (fetched_records_has_id st) as Hall.
  rewrite Forall_forall in Hall.
  apply Forall_forall. intros r Hr. apply has_id_spec, Hall.
  rewrite Hc in Hr. by apply elem_of_dedup_first.
Qed.

(** C10.  A record whose id is missing or empty leaves [seen] and
    [collected] as they are, so the controller works on the records of a
    page that carry an id; whatever the pages hold, every record of the
    list a run returns, and of [collected] at the end of any run, has a
    non-empty id, the empty string is not in the
    seen set, and the seen set holds the ids of the accumulated records
    and no other. *)
Theorem collected_ids_nonempty :
  (∀ (acc : gset pystr * list record) (rec : record),
     rec !! "id" = None ∨ rec !! "id" = Some [] →
     accumulate_one acc rec = acc) ∧
  (∀ (acc : gset pystr * list record) (page : list record),
     accumulate acc page = accumulate acc (List.filter has_id page) ∧
     ((Forall (λ r, has_id r = true) acc.2 ∧ [] ∉ acc.1) →
      Forall (λ r, has_id r = true) (accumulate acc page).2 ∧
      [] ∉ (accumulate acc page).1)) ∧
  (∀ server cfg fuel (l : list record),
     collect_records server cfg fuel = Some (Ok l) →
     Forall (λ r : record, ∃ i, r !! "id" = Some i ∧ i ≠ []) l) ∧
  (∀ server cfg fuel stop (st : State),
     collect_run server cfg fuel = Some (stop, st) →
     Forall (λ r : record, ∃ i, r !! "id" = Some i ∧ i ≠ []) (collected st) ∧
     ([] ∉ seen st) ∧
     ∀ j, j ∈ seen st ↔ ∃ r, r ∈ collected st ∧ r !! "id" = Some j).
Proof.
  split; [|split; [|split]].
  - intros acc rec Hid. apply accumulate_one_skip. unfold has_id.
    by destruct Hid as [-> | ->].
  - intros acc page. split; [apply accumulate_filter | apply accumulate_has_id].
  - intros server cfg fuel l. unfold collect_records.
    destruct (collect_run server cfg fuel) as [[stop st]|] eqn:Hrun; [|done].
    intros Hl. assert (l = collected st) as ->
      by (destruct stop; by injection Hl).
    by apply (collected_has_id server cfg fuel stop).
  - intros server cfg fuel stop st Hrun.
    destruct (collect_run_invariant _ _ _ _ _ Hrun) as [[Hc Hs] _].
    simpl in Hc, Hs.
    pose proof (fetched_records_has_id st) as Hall.
    assert (∀ r, r ∈ collected st → r ∈ fetched_records st) as Hsub.
    { intros r. rewrite Hc. apply elem_of_dedup_first. }
    split; [|split].
    + by apply (collected_has_id server cfg fuel stop).
    + rewrite Hs. intros (a & Ha & Hid).
      rewrite Forall_forall in Hall. specialize (Hall a Ha).
      unfold has_id in Hall. by rewrite Hid in Hall.
    + intros j. rewrite Hs. split.
      * intros Hj. destruct (find_id_is_some j _ Hj) as (r & Hr).
        exists r. rewrite Hc.
        apply find_id_some. by rewrite find_id_dedup_first.
      * intros (r & Hr & Hid). exists r. split; [by apply Hsub | done].
Qed.

Lemma collected_ids_nonempty_witness :
  let st := Samples.overlapping_final in
  accumulate_one (seen st, collected st) (<["title" := py "No id"]> ∅)
    = (seen st, collected st) ∧
  accumulate_one (seen st, collected st) (<["id" := []]> ∅)
    = (seen st, collected st) ∧
  Forall (λ r : record, ∃ i, r !! "id" = Some i ∧ i ≠ []) (collected st) ∧
  [] ∉ seen st.
Proof.
  intros st.
  destruct collected_ids_nonempty as (Hone & _ & _ & Hrun).
  split; [apply Hone; left; reflexivity|].
  split; [apply Hone; right; reflexivity|].
  assert (collect_run Samples.overlapping (Samples.config 2 None) 5
          = Some (Exhausted, st)) as H by (vm_compute; reflexivity).
  destruct (Hrun _ _ _ _ _ H) as (Hids & Hseen & _).
  split; [exact Hids | exact Hseen].
Defined.

(** * The declared total *)

Lemma iteration_total server cfg st t :
  total_results st = Some t →
  total_results (after (iteration server cfg st)) = Some t.
Proof.
  intros Ht. unfold iteration.
  destruct (cap_reached cfg st); [done|].
  destruct (fetch_page _ _ _) as [[soup url]|e]; [|done].
  destruct (extract_records soup) as [|r0 page]; [done|].
  destruct (accumulate _ _) as [seen' collected']. rewrite Ht.
  cbv beta iota zeta. cbn [start].
  by destruct (t <=? start st + cfg_size cfg).
Qed.

Lemma collect_loop_total server cfg fuel st t stop st' :
  total_results st = Some t →
  collect_loop server cfg fuel st = Some (stop, st') →
  total_results st' = Some t.
Proof.
  revert st. induction fuel as [|fuel IH]; intros st Ht; simpl; [done|].
  pose proof (iteration_total server cfg st t Ht) as Hnext.
  destruct (iteration server cfg st) as [st1 | [stop1 st1]]; simpl in Hnext.
  - by apply IH.
  - by intros [= <- <-].
Qed.

(** C3.  Once [total_results] is set, no pass of the loop changes it, and
    at the end of a run it is the total of the first page that handed one
    to the controller, whatever the later pages report. *)
Theorem total_learned_once server cfg :
  (∀ st t,
     total_results st = Some t →
     total_results (after (iteration server cfg st)) = Some t) ∧
  (∀ fuel st t stop st',
     total_results st = Some t →
     collect_loop server cfg fuel st = Some (stop, st') →
     total_results st' = Some t) ∧
  (∀ fuel stop st,
     collect_run server cfg fuel = Some (stop, st) →
     total_results st = head (omap exposed_total (trace st))).
Proof.
  split; [apply iteration_total|].
  split; [apply collect_loop_total|].
  intros fuel stop st Hrun.
  by destruct (collect_run_invariant _ _ _ _ _ Hrun).
Qed.

Lemma total_learned_once_witness :
  let st := Samples.overlapping_final in
  omap exposed_total (trace st) = [100; 90] ∧
  total_results st = Some 100.
Proof.
  intros st. split; [vm_compute; reflexivity|].
  destruct (total_learned_once Samples.overlapping (Samples.config 2 None))
    as (_ & _ & Hrun).
  rewrite (Hrun 5%nat Exhausted st) by (vm_compute; reflexivity).
  vm_compute. reflexivity.
Defined.

(** * The empty page *)

(** C4.  When the page of the current pass yields no record, the loop is
    left at once: [collected], [seen], [total_results], [start] and
    [page_index] are what they were before the pass, and the run returns
    the records of the earlier pages. *)
Theorem empty_page_stops server cfg st soup url :
  cap_reached cfg st = false →
  fetch_page server (trace st) (page_request cfg st) = Ok (soup, url) →
  extract_records soup = [] →
  ∃ st',
    iteration server cfg st = inr (Exhausted, st') ∧
    collected st' = collected st ∧
    seen st' = seen st ∧
    total_results st' = total_results st ∧
    start st' = start st ∧
    page_index st' = page_index st ∧
    ∀ fuel, collect_loop server cfg (S fuel) st = Some (Exhausted, st').
Proof.
  intros Hcap Hfetch Hpage. eexists. split.
  - unfold iteration. rewrite Hcap, Hfetch, Hpage. reflexivity.
  - repeat (split; [reflexivity|]).
    intros fuel. simpl. unfold iteration. by rewrite Hcap, Hfetch, Hpage.
Qed.

Lemma empty_page_stops_witness :
  let st := Samples.overlapping_second in
  ∃ st',
    iteration Samples.overlapping (Samples.config 2 None) st
      = inr (Exhausted, st') ∧
    collected st' = collected st ∧
    length (collected st') = 3%nat.
Proof.
  intros st.
  destruct (empty_page_stops Samples.overlapping (Samples.config 2 None) st
              (Samples.page "Sorry, your query returned no results" [])
              Samples.listing_url)
    as (st' & Hit & Hc & _); [vm_compute; reflexivity ..|].
  exists st'. split; [exact Hit|]. split; [exact Hc|].
  rewrite Hc. vm_compute. reflexivity.
Defined.

(** * Stopping on the declared total *)

(** A pass that gets a page with records when the total is known or
    exposed by that page. *)
Lemma iteration_progress server cfg st soup url t :
  cap_reached cfg st = false →
  fetch_page server (trace st) (page_request cfg st) = Ok (soup, url) →
  extract_records soup ≠ [] →
  match total_results st with
  | None => extract_total_results soup
  | Some t0 => Ok (Some t0)
  end = Ok (Some t) →
  ∃ st',
    iteration server cfg st =
      (if t <=? start st + cfg_size cfg then inr (TargetReached, st')
       else inl st') ∧
    offsets st' = offsets st ++ [start st] ∧
    start st' = start st + cfg_size cfg ∧
    total_results st' = Some t ∧
    page_index st' = page_index st + 1.
Proof.
  intros Hcap Hfetch Hpage Htotal. unfold iteration.
  rewrite Hcap, Hfetch.
  destruct (extract_records soup) as [|r0 page]; [done|].
  destruct (accumulate _ _) as [seen' collected']. rewrite Htotal.
  cbv beta iota zeta. cbn [start].
  eexists. split; [reflexivity|].
  unfold offsets. cbn. by rewrite fmap_app.
Qed.

(** The ways a pass can end when the total is known. *)
Lemma iteration_known server cfg st t :
  total_results st = Some t →
  match iteration server cfg st with
  | inl st' =>
      start st + cfg_size cfg < t ∧
      offsets st' = offsets st ++ [start st] ∧
      start st' = start st + cfg_size cfg ∧
      total_results st' = Some t
  | inr (CapReached, st') => st' = st
  | inr (TargetReached, st') =>
      t ≤ start st + cfg_size cfg ∧ offsets st' = offsets st ++ [start st]
  | inr (_, st') => offsets st' = offsets st ++ [start st]
  end.
Proof.
  intros Ht. unfold iteration.
  destruct (cap_reached cfg st); [done|].
  destruct (fetch_page _ _ _) as [[soup url]|e];
    [|unfold offsets; cbn; by rewrite fmap_app].
  destruct (extract_records soup) as [|r0 page];
    [unfold offsets; cbn; by rewrite fmap_app|].
  destruct (accumulate _ _) as [seen' collected']. rewrite Ht.
  cbv beta iota zeta. cbn [start].
  destruct (t <=? start st + cfg_size cfg) eqn:Hle.
  - apply Z.leb_le in Hle. split; [done|].
    unfold offsets. cbn. by rewrite fmap_app.
  - apply Z.leb_gt in Hle. split; [done|].
    unfold offsets. cbn. by rewrite fmap_app.
Qed.

Lemma collect_loop_more server cfg fuel fuel' st out :
  (fuel ≤ fuel')%nat →
  collect_loop server cfg fuel st = Some out →
  collect_loop server cfg fuel' st = Some out.
Proof.
  revert fuel' st. induction fuel as [|fuel IH]; intros fuel' st Hle; [done|].
  destruct fuel' as [|fuel']; [lia|]. simpl.
  destruct (iteration server cfg st) as [st1|]; [|done].
  apply IH. lia.
Qed.

(** From a state at offset 100 with total 120, one more pass at most. *)
Lemma last_pass_of_120 server cfg st :
  cfg_size cfg = 50 → total_results st = Some 120 → start st = 100 →
  ∃ stop st',
    collect_loop server cfg 1 st = Some (stop, st') ∧
    (offsets st' = offsets st ∨ offsets st' = offsets st ++ [100]).
Proof.
  intros Hsize Ht Hstart. simpl.
  pose proof (iteration_known server cfg st 120 Ht) as Hit.
  rewrite Hsize, Hstart in Hit.
  destruct (iteration server cfg st) as [st1 | [stop st1]].
  - lia.
  - exists stop, st1. split; [done|].
    destruct stop; [left; by subst | right; done | right; by destruct Hit
                   | right; done].
Qed.

(** From a state at offset 50 with total 120, two more passes at most. *)
Lemma second_pass_of_120 server cfg st :
  cfg_size cfg = 50 → total_results st = Some 120 → start st = 50 →
  ∃ stop st',
    collect_loop server cfg 2 st = Some (stop, st') ∧
    (offsets st' = offsets st ∨ offsets st' = offsets st ++ [50] ∨
     offsets st' = offsets st ++ [50; 100]).
Proof.
  intros Hsize Ht Hstart.
  pose proof (iteration_known server cfg st 120 Ht) as Hit.
  rewrite Hsize, Hstart in Hit.
  change (collect_loop server cfg 2 st)
    with (match iteration server cfg st with
          | inl st' => collect_loop server cfg 1 st'
          | inr out => Some out
          end).
  destruct (iteration server cfg st) as [st1 | [stop st1]].
  - destruct Hit as (_ & Hoff & Hs1 & Ht1).
    destruct (last_pass_of_120 server cfg st1 Hsize Ht1 Hs1)
      as (stop & st' & Hrun & Hoff').
    exists stop, st'. split; [done|]. rewrite Hoff in Hoff'.
    destruct Hoff' as [-> | ->]; [by right; left|].
    right; right. by rewrite <- app_assoc.
  - exists stop, st1. split; [done|].
    destruct stop; [left; by subst | right; left; done | lia
                   | right; left; done].
Qed.

(** A pass adds at most one exchange, for the request of the state it
    started from. *)
Lemma iteration_trace server cfg st :
  trace (after (iteration server cfg st)) = trace st ∨
  ∃ response,
    trace (after (iteration server cfg st)) =
    trace st ++ [{| ex_start := start st; ex_request := page_request cfg st;
                    ex_response := response |}].
Proof.
  unfold iteration. destruct (cap_reached cfg st); [by left|]. right.
  destruct (fetch_page _ _ _) as [[soup url]|e] eqn:Hf; [|by eexists].
  destruct (extract_records soup) as [|r0 page]; [by eexists|].
  destruct (accumulate _ _) as [seen' collected'].
  destruct (match total_results st with Some _ => _ | None => _ end)
    as [total'|e]; [|by eexists].
  cbv beta iota zeta.
  destruct (match total' with Some _ => _ | None => _ end); by eexists.
Qed.

Lemma page_request_start cfg st :
  carries_start {| ex_start := start st; ex_request := page_request cfg st;
                   ex_response := Raise RequestException |}.
Proof.
  unfold carries_start, page_request, page_params. simpl.
  destruct (0 <? start st); by simplify_map_eq.
Qed.

Lemma iteration_requests server cfg st :
  Forall carries_start (trace st) →
  Forall carries_start (trace (after (iteration server cfg st))).
Proof.
  intros Hst.
  destruct (iteration_trace server cfg st) as [-> | (response & ->)]; [done|].
  apply Forall_app. split; [done|]. repeat constructor.
  exact (page_request_start cfg st).
Qed.

Lemma collect_loop_requests server cfg fuel st stop st' :
  Forall carries_start (trace st) →
  collect_loop server cfg fuel st = Some (stop, st') →
  Forall carries_start (trace st').
Proof.
  revert st. induction fuel as [|fuel IH]; intros st Hst; simpl; [done|].
  pose proof (iteration_requests server cfg st Hst) as Hnext.
  destruct (iteration server cfg st) as [st1 | [stop1 st1]]; simpl in Hnext.
  - by apply IH.
  - by intros [= <- <-].
Qed.

Lemma run_of_120 server cfg soup url :
  cfg_size cfg = 50 →
  fetch_page server [] (page_request cfg (initial_state cfg)) = Ok (soup, url) →
  extract_records soup ≠ [] →
  extract_total_results soup = Ok (Some 120) →
  ∃ stop st,
    collect_run server cfg 3 = Some (stop, st) ∧
    (offsets st = [] ∨ offsets st = [0] ∨ offsets st = [0; 50] ∨
     offsets st = [0; 50; 100]).
Proof.
  intros Hsize Hfetch Hpage Htotal. unfold collect_run.
  change (collect_loop server cfg 3 (initial_state cfg))
    with (match iteration server cfg (initial_state cfg) with
          | inl st' => collect_loop server cfg 2 st'
          | inr out => Some out
          end).
  destruct (cap_reached cfg (initial_state cfg)) eqn:Hcap.
  - unfold iteration. rewrite Hcap. eexists _, _. split; [done|]. by left.
  - destruct (iteration_progress server cfg (initial_state cfg) soup url 120
                Hcap Hfetch Hpage Htotal) as (st1 & -> & Hoff & Hs1 & Ht1 & _).
    rewrite Hsize in *. simpl in Hoff, Hs1. simpl.
    destruct (second_pass_of_120 server cfg st1 Hsize Ht1 Hs1)
      as (stop & st' & Hrun & Hoff').
    exists stop, st'. split; [done|]. rewrite Hoff in Hoff'. simpl in Hoff'.
    tauto.
Qed.

(** C1, as amended.  With page size 50 and a first page that reports 120
    results, a run ends within three passes and the offsets it requested
    are an initial part of 0, 50, 100: offset 150 is never requested, and
    no request carries [start=150].  When
    moreover no page cap below 3 is set and every request is answered by a
    page with at least one record, the run makes exactly the three fetches
    at 0, 50 and 100 and stops because the target is reached. *)
Theorem three_fetches_for_120 server cfg soup url :
  cfg_size cfg = 50 →
  fetch_page server [] (page_request cfg (initial_state cfg)) = Ok (soup, url) →
  extract_records soup ≠ [] →
  extract_total_results soup = Ok (Some 120) →
  (∀ fuel, (3 ≤ fuel)%nat → is_Some (collect_run server cfg fuel)) ∧
  (∀ fuel stop st,
     collect_run server cfg fuel = Some (stop, st) →
     offsets st `prefix_of` [0; 50; 100] ∧ (150 ∉ offsets st) ∧
     ∀ ex, ex ∈ trace st →
           params (ex_request ex) !! "start" ≠ Some (py "150")) ∧
  ((cfg_max_pages cfg = None ∨ ∃ cap, cfg_max_pages cfg = Some cap ∧ 3 ≤ cap) →
   (∀ history request,
      ∃ soup' url',
        server history request = Ok (soup', url') ∧ extract_records soup' ≠ []) →
   ∀ fuel, (3 ≤ fuel)%nat →
     ∃ st,
       collect_run server cfg fuel = Some (TargetReached, st) ∧
       offsets st = [0; 50; 100]).
Proof.
  intros Hsize Hfetch Hpage Htotal.
  destruct (run_of_120 server cfg soup url Hsize Hfetch Hpage Htotal)
    as (stop3 & st3 & Hrun3 & Hoff3).
  assert (∀ fuel, (3 ≤ fuel)%nat →
            collect_run server cfg fuel = Some (stop3, st3)) as Hmore.
  { intros fuel Hle. by apply (collect_loop_more server cfg 3 fuel). }
  split; [|split].
  - intros fuel Hle. rewrite Hmore by done. by eexists.
  - intros fuel stop st Hrun.
    assert (Forall carries_start (trace st)) as Hreq
      by (by apply (collect_loop_requests server cfg fuel
                      (initial_state cfg) stop); [constructor|]).
    assert (st = st3) as ->.
    { apply (collect_loop_more server cfg fuel (fuel + 3)) in Hrun; [|lia].
      unfold collect_run in Hmore. rewrite (Hmore (fuel + 3)%nat) in Hrun by lia.
      by injection Hrun. }
    assert (∀ x, x ∈ offsets st3 → x = 0 ∨ x = 50 ∨ x = 100) as Hin3.
    { intros x Hx.
      destruct Hoff3 as [E | [E | [E | E]]]; rewrite E in Hx;
        repeat (apply elem_of_cons in Hx as [-> | Hx]; [tauto|]);
        by apply not_elem_of_nil in Hx. }
    split; [|split].
    + destruct Hoff3 as [-> | [-> | [-> | ->]]]; by eexists.
    + intros Hin. apply Hin3 in Hin. lia.
    + intros ex Hex. rewrite Forall_forall in Hreq.
      rewrite (Hreq ex Hex).
      assert (ex_start ex ∈ offsets st3) as Hoff
        by (unfold offsets; apply list_elem_of_fmap; by exists ex).
      by destruct (Hin3 _ Hoff) as [-> | [-> | ->]].
  - intros Hcap Hserver fuel Hle. rewrite Hmore by done.
    assert (∀ st, page_index st < 3 → cap_reached cfg st = false) as Hnocap.
    { intros st Hlt. unfold cap_reached.
      destruct Hcap as [-> | (cap & -> & Hcap)]; [done|].
      apply Z.leb_gt. lia. }
    revert Hrun3. unfold collect_run.
    change (collect_loop server cfg 3 (initial_state cfg))
      with (match iteration server cfg (initial_state cfg) with
            | inl st' =>
                match iteration server cfg st' with
                | inl st'' => collect_loop server cfg 1 st''
                | inr out => Some out
                end
            | inr out => Some out
            end).
    destruct (iteration_progress server cfg (initial_state cfg) soup url 120)
      as (st1 & -> & Hoff1 & Hs1 & Ht1 & Hp1); [by apply Hnocap | done ..|].
    rewrite Hsize in *. simpl in Hoff1, Hs1, Hp1. simpl.
    destruct (Hserver (ex_request <$> trace st1) (page_request cfg st1))
      as (soup1 & url1 & Hf1 & Hr1).
    destruct (iteration_progress server cfg st1 soup1 url1 120)
      as (st2 & -> & Hoff2 & Hs2 & Ht2 & Hp2);
      [apply Hnocap; lia | done | done | by rewrite Ht1 |].
    rewrite ?Hsize, Hs1, Hp1, Hoff1 in *. simpl in Hoff2, Hs2, Hp2. simpl.
    destruct (Hserver (ex_request <$> trace st2) (page_request cfg st2))
      as (soup2 & url2 & Hf2 & Hr2).
    simpl.
    destruct (iteration_progress server cfg st2 soup2 url2 120)
      as (st' & -> & Hoff' & _);
      [apply Hnocap; lia | done | done | by rewrite Ht2 |].
    rewrite ?Hsize, Hs2, Hoff2 in *. simpl in Hoff'. simpl.
    intros [= <- <-]. by exists st'.
Qed.

Lemma three_fetches_for_120_witness :
  let st := Samples.steady_final in
  collect_run Samples.steady (Samples.config 50 None) 5 = Some (TargetReached, st) ∧
  offsets st = [0; 50; 100].
Proof.
  intros st.
  destruct (three_fetches_for_120 Samples.steady (Samples.config 50 None)
              (Samples.page "Showing 1-50 of 120 results for all: q"
                 [Samples.item "2101.00001" "First"])
              Samples.listing_url)
    as (_ & _ & Hexact); [vm_compute; reflexivity | vm_compute; reflexivity
                         | vm_compute; discriminate | vm_compute; reflexivity |].
  destruct (Hexact (or_introl eq_refl)) with (fuel := 5%nat)
    as (st' & Hrun & Hoff).
  - intros history request. eexists _, _. split; [reflexivity|].
    vm_compute. discriminate.
  - lia.
  - assert (st' = st) as ->.
    { unfold st, Samples.steady_final, Samples.final. by rewrite Hrun. }
    split; [exact Hrun | exact Hoff].
Defined.

(** C1, as stated, fails: under a cap of one page, a run with page size 50
    whose first page reports 120 results makes one fetch, not three. *)
Lemma three_fetches_counterexample :
  let cfg := Samples.config 50 (Some 1) in
  let st := Samples.capped_final in
  cfg_size cfg = 50 ∧
  (exposed_total <$> head (trace st)) = Some (Some 120) ∧
  collect_run Samples.steady cfg 5 = Some (CapReached, st) ∧
  offsets st = [0] ∧
  offsets st ≠ [0; 50; 100].
Proof. by vm_compute. Qed.

(** * The archiver *)

(** What a pass of the archiver can do to a record and the archive. *)
Lemma download_one_cases (w : World) (data_dir : Path)
    (st : gmap pystr File * list Download) (rec : record) :
  let dest := destination data_dir rec in
  let out := download_one w data_dir st rec in
  (¬ wanted rec ∧ out = (st, rec, None)) ∨
  (wanted rec ∧ is_Some (st.1 !! dest) ∧
   out = (st, <["pdf_local_path" := dest]> rec, None)) ∨
  (wanted rec ∧ st.1 !! dest = None ∧ can_stat w dest = false ∧
   out = (st, rec, Some OSError)) ∨
  (wanted rec ∧ st.1 !! dest = None ∧ can_stat w dest = true ∧
   ∃ body,
     pdf_get w st.2 (artifact_request rec) = Content body ∧
     write_bytes w dest body = WriteOk ∧
     out = ((<[dest := Bytes body]> st.1, st.2 ++ [artifact_request rec]),
            <["pdf_local_path" := dest]> rec, None)) ∨
  (wanted rec ∧ st.1 !! dest = None ∧ can_stat w dest = true ∧
   ((∃ message, pdf_get w st.2 (artifact_request rec) = Broken message) ∨
    (∃ body residue message,
       pdf_get w st.2 (artifact_request rec) = Content body ∧
       write_bytes w dest body = WriteFailed residue message)) ∧
   ∃ fs message,
     (fs = st.1 ∨ ∃ partial, fs = <[dest := Bytes partial]> st.1) ∧
     out = ((fs, st.2 ++ [artifact_request rec]),
            <["pdf_download_error" := message]> rec, None)).
Proof.
  intros dest out. subst out. unfold download_one, wanted.
  fold (destination data_dir rec). fold dest.
  destruct (truthy_opt (rec !! "pdf_url")); simpl;
    [|left; split; [by intros [? _] | done]].
  destruct (truthy (default [] (rec !! "id"))); simpl;
    [|left; split; [by intros [_ ?] | done]].
  right. destruct (st.1 !! dest) as [f|] eqn:Hd.
  { left. split; [done|]. split; [by eexists | done]. }
  right. destruct (can_stat w dest) eqn:Hstat; simpl; [|by left].
  right.
  destruct (pdf_get w st.2 (artifact_request rec)) as [body|message] eqn:Hg.
  - destruct (write_bytes w dest body) as [|residue message] eqn:Hw.
    + left. split; [done|]. split; [done|]. split; [done|]. by exists body.
    + right. split; [done|]. split; [done|]. split; [done|].
      split; [right; by exists body, residue, message|].
      eexists _, message. split; [|reflexivity].
      destruct residue as [partial|]; [right; by exists partial | by left].
  - right. split; [done|]. split; [done|]. split; [done|].
    split; [left; by exists message|]. exists st.1, message. by split; [left|].
Qed.

(** An exception that leaves the body is the [OSError] of the probe; the
    record and the archive are then as they were. *)
Lemma download_one_raised (w : World) (data_dir : Path)
    (st : gmap pystr File * list Download) (rec : record) e :
  (download_one w data_dir st rec).2 = Some e →
  e = OSError ∧ (download_one w data_dir st rec).1 = (st, rec) ∧
  wanted rec ∧ st.1 !! destination data_dir rec = None ∧
  can_stat w (destination data_dir rec) = false.
Proof.
  destruct (download_one_cases w data_dir st rec)
    as [(_ & ->) | [(_ & _ & ->) | [(Hw & Hnone & Hstat & ->)
       | [(_ & _ & _ & body & _ & _ & ->)
       | (_ & _ & _ & _ & fs & message & _ & ->)]]]]; cbn [fst snd];
    try done.
  by intros [= <-].
Qed.


Lemma download_one_same (w : World) (data_dir : Path)
    (st : gmap pystr File * list Download) (rec : record) :
  same_but_artifact rec (download_one w data_dir st rec).1.2.
Proof.
  intros k Hlp Herr.
  destruct (download_one_cases w data_dir st rec)
    as [(_ & ->) | [(_ & _ & ->) | [(_ & _ & _ & ->)
       | [(_ & _ & _ & body & _ & _ & ->)
       | (_ & _ & _ & _ & fs & message & _ & ->)]]]]; cbn [fst snd];
    [done | by rewrite lookup_insert_ne | done | by rewrite lookup_insert_ne .. ].
Qed.

Lemma download_one_exclusive (w : World) (data_dir : Path)
    (st : gmap pystr File * list Download) (rec : record) :
  fresh rec →
  let rec' := (download_one w data_dir st rec).1.2 in
  ¬ (is_Some (rec' !! "pdf_local_path") ∧ is_Some (rec' !! "pdf_download_error")).
Proof.
  intros [Hlp Herr] rec'. subst rec'.
  destruct (download_one_cases w data_dir st rec)
    as [(_ & ->) | [(_ & _ & ->) | [(_ & _ & _ & ->)
       | [(_ & _ & _ & body & _ & _ & ->)
       | (_ & _ & _ & _ & fs & message & _ & ->)]]]]; cbn [fst snd];
    intros [[x Hx] [y Hy]].
  - congruence.
  - rewrite lookup_insert_ne in Hy by done. congruence.
  - congruence.
  - rewrite lookup_insert_ne in Hy by done. congruence.
  - rewrite lookup_insert_ne in Hx by done. congruence.
Qed.

(** The files and the requests of one pass: nothing is removed or
    overwritten, a file appears at the destination of the record only,
    and at most the request for the record is sent. *)
Lemma download_one_files (w : World) (data_dir : Path)
    (st : gmap pystr File * list Download) (rec : record) :
  let st' := (download_one w data_dir st rec).1.1 in
  (∀ p f, st.1 !! p = Some f → st'.1 !! p = Some f) ∧
  (∀ p, is_Some (st'.1 !! p) →
        is_Some (st.1 !! p) ∨ (wanted rec ∧ p = destination data_dir rec)) ∧
  (st'.2 = st.2 ∨
   (st'.2 = st.2 ++ [artifact_request rec] ∧ wanted rec ∧
    st.1 !! destination data_dir rec = None)).
Proof.
  intros st'. subst st'.
  assert (∀ (x : File) p f, st.1 !! destination data_dir rec = None →
            st.1 !! p = Some f →
            <[destination data_dir rec := x]> st.1 !! p = Some f) as Hkeep.
  { intros x p f Hnone Hp. rewrite lookup_insert_ne; [done|]. congruence. }
  assert (∀ (x : File) p, wanted rec →
            is_Some (<[destination data_dir rec := x]> st.1 !! p) →
            is_Some (st.1 !! p) ∨ (wanted rec ∧ p = destination data_dir rec))
    as Hnew.
  { intros x p Hw Hp.
    destruct (decide (destination data_dir rec = p)) as [<-|Hne];
      [by right | left; by rewrite lookup_insert_ne in Hp]. }
  destruct (download_one_cases w data_dir st rec)
    as [(_ & ->) | [(_ & _ & ->) | [(_ & _ & _ & ->)
       | [(Hw & Hnone & _ & body & _ & _ & ->)
       | (Hw & Hnone & _ & _ & fs & message & Hfs & ->)]]]]; cbn [fst snd].
  - by split; [|split; [left|left]].
  - by split; [|split; [left|left]].
  - by split; [|split; [left|left]].
  - split; [by auto|]. split; [by eauto|]. by right.
  - destruct Hfs as [-> | [partial ->]].
    + split; [done|]. split; [by left|]. by right.
    + split; [by auto|]. split; [by eauto|]. by right.
Qed.

Lemma download_one_grows (w : World) (data_dir : Path)
    (st : gmap pystr File * list Download) (rec : record) p :
  is_Some (st.1 !! p) → is_Some ((download_one w data_dir st rec).1.1.1 !! p).
Proof.
  intros [f Hf]. exists f.
  by apply (download_one_files w data_dir st rec).
Qed.


Lemma download_one_outcome (w : World) (data_dir : Path)
    (st : gmap pystr File * list Download) (rec : record) :
  let out := download_one w data_dir st rec in
  (¬ wanted rec → out.1.2 = rec) ∧
  (fresh rec → ∀ p, out.1.2 !! "pdf_local_path" = Some p →
     wanted rec ∧ p = destination data_dir rec ∧ is_Some (out.1.1.1 !! p)) ∧
  (fresh rec → is_Some (out.1.2 !! "pdf_download_error") →
     wanted rec ∧ st.1 !! destination data_dir rec = None ∧
     out.1.1.2 = st.2 ++ [artifact_request rec]).
Proof.
  intros out. subst out.
  destruct (download_one_cases w data_dir st rec)
    as [[Hnot ->] | [(Hw & Hex & ->) | [(Hw & Hnone & _ & ->)
       | [(Hw & Hnone & _ & body & _ & _ & ->)
       | (Hw & Hnone & _ & _ & fs & message & _ & ->)]]]]; cbn [fst snd].
  - split; [done|].
    split; intros [Hp He]; [by rewrite Hp | by rewrite He; intros []].
  - split; [done|]. split; intros [Hp He].
    + rewrite lookup_insert_eq. by intros p [= <-].
    + rewrite lookup_insert_ne by done. rewrite He. by intros [].
  - split; [done|].
    split; intros [Hp He]; [by rewrite Hp | by rewrite He; intros []].
  - split; [done|]. split; intros [Hp He].
    + rewrite lookup_insert_eq. intros p [= <-].
      split; [done|]. split; [done|]. rewrite lookup_insert_eq. by eexists.
    + rewrite lookup_insert_ne by done. rewrite He. by intros [].
  - split; [done|]. split; intros [Hp He].
    + rewrite lookup_insert_ne by done. by rewrite Hp.
    + done.
Qed.

Lemma download_one_succeeds (w : World) (data_dir : Path)
    (st : gmap pystr File * list Download) (rec : record) :
  wanted rec → succeeds w data_dir rec →
  ∃ st',
    download_one w data_dir st rec
      = (st', <["pdf_local_path" := destination data_dir rec]> rec, None) ∧
    is_Some (st'.1 !! destination data_dir rec) ∧
    ∀ p, p ≠ destination data_dir rec → st'.1 !! p = st.1 !! p.
Proof.
  intros Hwant [[_ Hstat] Hok]. destruct (Hok st.2) as (body & Hget & Hwrite).
  destruct (download_one_cases w data_dir st rec)
    as [(Hn & _) | [(_ & Hex & ->) | [(_ & _ & Hno & _)
       | [(_ & _ & _ & body' & _ & _ & ->)
       | (_ & _ & _ & Hfail & _)]]]].
  - done.
  - by exists st.
  - congruence.
  - eexists. split; [reflexivity|]. cbn [fst].
    split; [rewrite lookup_insert_eq; by eexists|].
    intros p Hp. by rewrite lookup_insert_ne.
  - destruct Hfail as [(message & Hb) | (body' & residue & message & Hb & Hw)].
    + congruence.
    + rewrite Hget in Hb. injection Hb as <-. congruence.
Qed.


Lemma download_one_exists (w : World) (data_dir : Path)
    (st : gmap pystr File * list Download) (rec : record) :
  wanted rec → is_Some (st.1 !! destination data_dir rec) →
  download_one w data_dir st rec
    = (st, <["pdf_local_path" := destination data_dir rec]> rec, None).
Proof.
  intros Hwant [f Hf].
  destruct (download_one_cases w data_dir st rec)
    as [(Hn & _) | [(_ & _ & ->) | [(_ & Hnone & _)
       | [(_ & Hnone & _) | (_ & Hnone & _)]]]];
    [done | done | congruence ..].
Qed.

Lemma download_one_unwanted (w : World) (data_dir : Path)
    (st : gmap pystr File * list Download) (rec : record) :
  ¬ wanted rec → download_one w data_dir st rec = (st, rec, None).
Proof.
  intros Hn.
  by destruct (download_one_cases w data_dir st rec)
    as [(_ & ->) | [(? & _) | [(? & _) | [(? & _) | (? & _)]]]].
Qed.

(** ** The loop *)

Lemma download_each_cons (w : World) (data_dir : Path)
    (st : gmap pystr File * list Download) (rec : record) (rest : list record) :
  download_each w data_dir st (rec :: rest) =
  match (download_one w data_dir st rec).2 with
  | Some e =>
      ((download_one w data_dir st rec).1.1,
       (download_one w data_dir st rec).1.2 :: rest, Some e)
  | None =>
      ((download_each w data_dir (download_one w data_dir st rec).1.1 rest).1.1,
       (download_one w data_dir st rec).1.2 ::
       (download_each w data_dir (download_one w data_dir st rec).1.1 rest).1.2,
       (download_each w data_dir (download_one w data_dir st rec).1.1 rest).2)
  end.
Proof.
  cbn [download_each].
  destruct (download_one w data_dir st rec) as [[st1 rec'] [e|]]; [done|].
  cbn [fst snd]. by destruct (download_each w data_dir st1 rest) as [[? ?] ?].
Qed.

(** [download_papers] is its loop when the directory can be made, and
    otherwise leaves everything as it was. *)
Lemma download_papers_cases (w : World) (data_dir : Path)
    (st : gmap pystr File * list Download) (records : list record) :
  (can_mkdir w data_dir = true ∧
   download_papers w data_dir st records = download_each w data_dir st records) ∨
  (can_mkdir w data_dir = false ∧
   download_papers w data_dir st records = (st, records, Some OSError)).
Proof.
  unfold download_papers. destruct (can_mkdir w data_dir); [by left | by right].
Qed.

Lemma same_but_artifact_refl (rec : record) : same_but_artifact rec rec.
Proof. by intros k _ _. Qed.

Lemma fresh_exclusive (rec : record) :
  fresh rec →
  ¬ (is_Some (rec !! "pdf_local_path") ∧ is_Some (rec !! "pdf_download_error")).
Proof. intros [Hp _] [[x Hx] _]. congruence. Qed.

Lemma untouched_all (records : list record) :
  Forall2 (λ rec rec',
             same_but_artifact rec rec' ∧
             (fresh rec →
              ¬ (is_Some (rec' !! "pdf_local_path") ∧
                 is_Some (rec' !! "pdf_download_error"))))
          records records.
Proof.
  induction records as [|rec rest IH]; constructor; [|done].
  split; [apply same_but_artifact_refl | apply fresh_exclusive].
Qed.

Lemma download_each_all (w : World) (data_dir : Path)
    (records : list record) (st : gmap pystr File * list Download) :
  Forall2 (λ rec rec',
             same_but_artifact rec rec' ∧
             (fresh rec →
              ¬ (is_Some (rec' !! "pdf_local_path") ∧
                 is_Some (rec' !! "pdf_download_error"))))
          records (download_each w data_dir st records).1.2.
Proof.
  revert st. induction records as [|rec rest IH]; intros st; [constructor|].
  rewrite download_each_cons.
  destruct (download_one w data_dir st rec).2 as [e|]; cbn [fst snd];
    (constructor; [split; [apply download_one_same | apply download_one_exclusive]|]).
  - apply untouched_all.
  - apply IH.
Qed.

(** Whether the batch is processed to its end or not, there is one record
    out for each record in, in the same order, equal to it but for the
    artifact fields, and with at most one of the two when it came without
    them. *)
Lemma download_papers_all (w : World) (data_dir : Path)
    (records : list record) (st : gmap pystr File * list Download) :
  Forall2 (λ rec rec',
             same_but_artifact rec rec' ∧
             (fresh rec →
              ¬ (is_Some (rec' !! "pdf_local_path") ∧
                 is_Some (rec' !! "pdf_download_error"))))
          records (download_papers w data_dir st records).1.2.
Proof.
  destruct (download_papers_cases w data_dir st records) as [[_ ->] | [_ ->]];
    [apply download_each_all | apply untouched_all].
Qed.

Lemma download_papers_length (w : World) (data_dir : Path)
    (records : list record) (st : gmap pystr File * list Download) :
  length (download_papers w data_dir st records).1.2 = length records.
Proof.
  symmetry. eapply Forall2_length. apply download_papers_all.
Qed.

Lemma download_papers_same (w : World) (data_dir : Path)
    (records : list record) (st : gmap pystr File * list Download) :
  Forall2 same_but_artifact records (download_papers w data_dir st records).1.2.
Proof.
  eapply Forall2_impl; [apply download_papers_all|]. by intros r r' [? _].
Qed.

Lemma same_ids (l l' : list record) :
  Forall2 same_but_artifact l l' →
  (λ r : record, r !! "id") <$> l' = (λ r : record, r !! "id") <$> l.
Proof.
  induction 1 as [|r r' l l' Hr _ IH]; [done|].
  rewrite !fmap_cons, IH. f_equal. by apply Hr.
Qed.

(** The only exception that leaves the archiver is [OSError]. *)
Lemma download_each_raised (w : World) (data_dir : Path)
    (records : list record) (st : gmap pystr File * list Download) e :
  (download_each w data_dir st records).2 = Some e → e = OSError.
Proof.
  revert st. induction records as [|rec rest IH]; intros st; [done|].
  rewrite download_each_cons.
  destruct (download_one w data_dir st rec).2 as [e'|] eqn:He; cbn [snd].
  - intros [= <-]. by apply download_one_raised in He as [-> _].
  - apply IH.
Qed.

Lemma download_papers_raised (w : World) (data_dir : Path)
    (records : list record) (st : gmap pystr File * list Download) e :
  (download_papers w data_dir st records).2 = Some e → e = OSError.
Proof.
  destruct (download_papers_cases w data_dir st records) as [[_ ->] | [_ ->]];
    [apply download_each_raised | by intros [= <-]].
Qed.


Lemma download_each_files (w : World) (data_dir : Path)
    (records : list record) (st : gmap pystr File * list Download) :
  let st' := (download_each w data_dir st records).1.1 in
  (∀ p f, st.1 !! p = Some f → st'.1 !! p = Some f) ∧
  (∀ p, is_Some (st'.1 !! p) →
        is_Some (st.1 !! p) ∨
        ∃ rec, rec ∈ records ∧ wanted rec ∧ p = destination data_dir rec) ∧
  ∃ new,
    st'.2 = st.2 ++ new ∧ (length new ≤ length records)%nat ∧
    Forall (λ q, ∃ rec, rec ∈ records ∧ wanted rec ∧
                        q = artifact_request rec ∧
                        st.1 !! destination data_dir rec = None) new.
Proof.
  revert st. induction records as [|rec rest IH]; intros st; cbv zeta.
  - split; [done|]. split; [by left|]. exists []. by rewrite app_nil_r.
  - rewrite download_each_cons.
    destruct (download_one_files w data_dir st rec) as (Hk1 & Hn1 & Hl1).
    assert (∃ one,
              (one = [] ∧ (download_one w data_dir st rec).1.1.2 = st.2) ∨
              (one = [artifact_request rec] ∧
               (download_one w data_dir st rec).1.1.2 = st.2 ++ one ∧
               wanted rec ∧ st.1 !! destination data_dir rec = None))
      as (one & Hone).
    { destruct Hl1 as [Hsame | (Hadd & Hw & Hnone)];
        [exists []; by left | exists [artifact_request rec]; by right]. }
    assert ((download_one w data_dir st rec).1.1.2 = st.2 ++ one ∧
            (length one ≤ 1)%nat ∧
            Forall (λ q, ∃ r, r ∈ rec :: rest ∧ wanted r ∧
                              q = artifact_request r ∧
                              st.1 !! destination data_dir r = None) one)
      as (Hlog1 & Hlen1 & Hall1).
    { destruct Hone as [[-> Hsame] | (-> & Hadd & Hw & Hnone)].
      - rewrite app_nil_r. split; [done|]. split; [simpl; lia | done].
      - split; [done|]. split; [simpl; lia|].
        constructor; [|done]. exists rec. split; [by left | done]. }
    destruct (download_one w data_dir st rec).2 as [e|]; cbn [fst snd].
    + split; [done|]. split.
      * intros p Hp. destruct (Hn1 p Hp) as [? | [Hw ->]]; [by left|].
        right. exists rec. split; [by left | done].
      * exists one. split; [done|]. split; [simpl; lia | done].
    + destruct (IH (download_one w data_dir st rec).1.1)
        as (Hk & Hn & new & Hlog & Hlen & Hnew).
      split; [by auto|]. split.
      * intros p Hp. destruct (Hn p Hp) as [Hp1 | (r & Hr & Hw & ->)].
        -- destruct (Hn1 p Hp1) as [? | [Hw ->]]; [by left|].
           right. exists rec. split; [by left | done].
        -- right. exists r. split; [by right | done].
      * exists (one ++ new). rewrite Hlog, Hlog1.
        split; [by rewrite <- app_assoc|].
        split; [rewrite length_app; simpl; lia|].
        apply Forall_app. split; [done|].
        eapply Forall_impl; [exact Hnew|]. cbv beta.
        intros q (r & Hr & Hw & -> & Hnone). exists r.
        split; [by right|]. split; [done|]. split; [done|].
        destruct (st.1 !! destination data_dir r) as [f|] eqn:Hf; [|done].
        apply Hk1 in Hf. congruence.
Qed.

Lemma download_each_grows (w : World) (data_dir : Path)
    (records : list record) (st : gmap pystr File * list Download) p :
  is_Some (st.1 !! p) →
  is_Some ((download_each w data_dir st records).1.1.1 !! p).
Proof.
  intros [f Hf]. exists f.
  by apply (download_each_files w data_dir records st).
Qed.

Lemma download_papers_files (w : World) (data_dir : Path)
    (records : list record) (st : gmap pystr File * list Download) :
  let st' := (download_papers w data_dir st records).1.1 in
  (∀ p f, st.1 !! p = Some f → st'.1 !! p = Some f) ∧
  (∀ p, is_Some (st'.1 !! p) →
        is_Some (st.1 !! p) ∨
        ∃ rec, rec ∈ records ∧ wanted rec ∧ p = destination data_dir rec) ∧
  ∃ new,
    st'.2 = st.2 ++ new ∧ (length new ≤ length records)%nat ∧
    Forall (λ q, ∃ rec, rec ∈ records ∧ wanted rec ∧
                        q = artifact_request rec ∧
                        st.1 !! destination data_dir rec = None) new.
Proof.
  destruct (download_papers_cases w data_dir st records) as [[_ ->] | [_ ->]];
    [apply download_each_files|]. cbv zeta. cbn [fst snd].
  split; [done|]. split; [by left|]. exists []. rewrite app_nil_r.
  split; [done|]. split; [simpl; lia | done].
Qed.

Lemma download_papers_grows (w : World) (data_dir : Path)
    (records : list record) (st : gmap pystr File * list Download) p :
  is_Some (st.1 !! p) →
  is_Some ((download_papers w data_dir st records).1.1.1 !! p).
Proof.
  intros [f Hf]. exists f.
  by apply (download_papers_files w data_dir records st).
Qed.

Lemma untouched_outcomes (data_dir : Path) (fs st1 : gmap pystr File)
    (records : list record) :
  Forall2 (λ rec rec' : record,
             (¬ wanted rec → rec' = rec) ∧
             (fresh rec → ∀ p, rec' !! "pdf_local_path" = Some p →
                wanted rec ∧ p = destination data_dir rec ∧
                is_Some (fs !! p)) ∧
             (fresh rec → is_Some (rec' !! "pdf_download_error") →
                wanted rec ∧ st1 !! destination data_dir rec = None))
          records records.
Proof.
  induction records as [|rec rest IH]; constructor; [|done].
  split; [done|].
  split; intros [Hp He]; [by rewrite Hp | rewrite He; by intros []].
Qed.

Lemma download_each_outcomes (w : World) (data_dir : Path)
    (records : list record) (st : gmap pystr File * list Download) :
  let out := download_each w data_dir st records in
  Forall2 (λ rec rec',
             (¬ wanted rec → rec' = rec) ∧
             (fresh rec → ∀ p, rec' !! "pdf_local_path" = Some p →
                wanted rec ∧ p = destination data_dir rec ∧
                is_Some (out.1.1.1 !! p)) ∧
             (fresh rec → is_Some (rec' !! "pdf_download_error") →
                wanted rec ∧ st.1 !! destination data_dir rec = None))
          records out.1.2.
Proof.
  revert st. induction records as [|rec rest IH]; intros st; cbv zeta;
    [constructor|].
  rewrite download_each_cons.
  destruct (download_one_outcome w data_dir st rec) as (Hskip & Hpath & Herr).
  destruct (download_one_files w data_dir st rec) as (Hkeep1 & _ & _).
  destruct (download_one w data_dir st rec).2 as [e|]; cbn [fst snd].
  - constructor; [|apply untouched_outcomes].
    split; [done|]. split; [done|].
    intros Hf He. by destruct (Herr Hf He) as (Hw & Hnone & _).
  - destruct (download_each_files w data_dir rest
                (download_one w data_dir st rec).1.1) as (Hkeep & _ & _).
    constructor.
    + split; [done|]. split.
      * intros Hf p Hp. destruct (Hpath Hf p Hp) as (Hw & -> & [f Hfile]).
        split; [done|]. split; [done|]. exists f. by apply Hkeep.
      * intros Hf He. by destruct (Herr Hf He) as (Hw & Hnone & _).
    + eapply Forall2_impl; [apply IH|]. cbv beta.
      intros r r' (Hs & Hp & He). split; [done|]. split; [done|].
      intros Hf Hsome. destruct (He Hf Hsome) as [Hw Hnone]. split; [done|].
      destruct (st.1 !! destination data_dir r) as [f|] eqn:Hfile; [|done].
      apply Hkeep1 in Hfile. congruence.
Qed.

Lemma download_papers_outcomes (w : World) (data_dir : Path)
    (records : list record) (st : gmap pystr File * list Download) :
  let out := download_papers w data_dir st records in
  Forall2 (λ rec rec',
             (¬ wanted rec → rec' = rec) ∧
             (fresh rec → ∀ p, rec' !! "pdf_local_path" = Some p →
                wanted rec ∧ p = destination data_dir rec ∧
                is_Some (out.1.1.1 !! p)) ∧
             (fresh rec → is_Some (rec' !! "pdf_download_error") →
                wanted rec ∧ st.1 !! destination data_dir rec = None))
          records out.1.2.
Proof.
  destruct (download_papers_cases w data_dir st records) as [[_ ->] | [_ ->]];
    [apply download_each_outcomes | apply untouched_outcomes].
Qed.


Lemma extract_record_fresh (item : ResultItem) (rec : record) :
  extract_record item = Some rec → fresh rec.
Proof.
  unfold extract_record.
  destruct (select_link abs_prefix _) as [a|]; [|done].
  intros Hrec.
  destruct (select_link pdf_prefix _) as [p|];
    [destruct (truthy (strip (href p)) && _);
     (destruct (truthy _); injection Hrec as <-) | injection Hrec as <-];
    by split; simplify_map_eq.
Qed.

Lemma extract_records_fresh (soup : Soup) : Forall fresh (extract_records soup).
Proof.
  unfold extract_records. induction (results soup) as [|item items IH]; simpl.
  - constructor.
  - destruct (extract_record item) as [rec|] eqn:Hrec; [|done].
    constructor; [by apply (extract_record_fresh item) | done].
Qed.

Lemma collected_fresh server cfg fuel stop st :
  collect_run server cfg fuel = Some (stop, st) → Forall fresh (collected st).
Proof.
  intros Hrun.
  destruct (collect_run_invariant _ _ _ _ _ Hrun) as [[Hc _] _]. simpl in Hc.
  apply Forall_forall. intros r Hr. rewrite Hc in Hr.
  apply elem_of_dedup_first in Hr. revert r Hr. apply Forall_forall.
  unfold fetched_records. induction (trace st) as [|ex tr IH]; simpl.
  - constructor.
  - apply Forall_app. split; [|done]. unfold page_records_of.
    destruct (ex_response ex) as [[soup url]|e]; [|constructor].
    apply extract_records_fresh.
Qed.

(** ** The metadata writer *)

(** The ways through [write_output]. *)
Lemma write_output_cases (w : World) (now : pystr)
    (st : gmap pystr File * list Download) (records : list record)
    (output_root : Path) (query : pystr) (size : Z)
    (order searchtype abstracts source : pystr) :
  let out := write_output w now st records output_root query size order
               searchtype abstracts source in
  let data_dir := data_dir_of output_root query in
  let results := path_str (metadata_file_of output_root query) in
  let archived := download_papers w data_dir st records in
  let payload :=
    {| payload_metadata :=
         {| meta_query := query; meta_size := size; meta_order := order;
            meta_searchtype := searchtype; meta_abstracts := abstracts;
            meta_source := source; meta_retrieved_at := now;
            meta_count := Z.of_nat (length records) |};
       payload_records := archived.1.2 |} in
  (can_mkdir w (metadata_dir_of output_root query) = false ∧
   out = (st, records, Raise OSError)) ∨
  (can_mkdir w (metadata_dir_of output_root query) = true ∧
   archived.2 = Some OSError ∧
   out = (archived.1.1, archived.1.2, Raise OSError)) ∨
  (can_mkdir w (metadata_dir_of output_root query) = true ∧
   archived.2 = None ∧
   write_json w results payload = WriteOk ∧
   out = ((<[results := Json payload]> archived.1.1.1, archived.1.1.2),
          archived.1.2, Ok (path_div output_root (slugify query)))) ∨
  (can_mkdir w (metadata_dir_of output_root query) = true ∧
   archived.2 = None ∧
   ∃ residue message files,
     write_json w results payload = WriteFailed residue message ∧
     (files = archived.1.1.1 ∨
      ∃ partial, files = <[results := Bytes partial]> archived.1.1.1) ∧
     out = ((files, archived.1.1.2), archived.1.2, Raise OSError)).
Proof.
  intros out data_dir results archived payload. subst out payload.
  unfold write_output. fold data_dir results.
  destruct (can_mkdir w (metadata_dir_of output_root query)); cbn [negb];
    [|by left].
  right.
  pose proof (download_papers_length w data_dir records st) as Hlen.
  pose proof (download_papers_raised w data_dir records st) as Hexn.
  fold archived in Hlen, Hexn |- *.
  destruct archived as [[st1 records'] [e|]]; cbn [fst snd] in *.
  { left. split; [done|]. by rewrite (Hexn e eq_refl). }
  right. rewrite Hlen.
  destruct (write_json w results _) as [|residue message] eqn:Hdump.
  - left. by repeat split.
  - right. split; [done|]. split; [done|].
    exists residue, message. eexists. split; [done|]. split; [|reflexivity].
    destruct residue as [partial|]; [right; by exists partial | by left].
Qed.




(** * Running the archiver again *)

Lemma download_each_again (w1 w2 : World) (data_dir : Path)
    (records : list record) (st again : gmap pystr File * list Download) :
  (download_each w1 data_dir st records).2 = None →
  Forall no_error (download_each w1 data_dir st records).1.2 →
  (∀ p, is_Some ((download_each w1 data_dir st records).1.1.1 !! p) →
        is_Some (again.1 !! p)) →
  (download_each w2 data_dir again records).1.1 = again ∧
  (download_each w2 data_dir again records).2 = None ∧
  (λ r : record, r !! "pdf_local_path")
    <$> (download_each w2 data_dir again records).1.2
  = (λ r : record, r !! "pdf_local_path")
    <$> (download_each w1 data_dir st records).1.2.
Proof.
  revert st. induction records as [|rec rest IH]; intros st; [done|].
  rewrite !download_each_cons.
  destruct (download_one w1 data_dir st rec).2 as [e|] eqn:Hfirst; [done|].
  cbn [fst snd]. intros Hend [Hrec Hrest]%Forall_cons Hfiles.
  assert (download_one w2 data_dir again rec
          = (again, (download_one w2 data_dir again rec).1.2, None)
          ∧ (download_one w2 data_dir again rec).1.2 !! "pdf_local_path"
            = (download_one w1 data_dir st rec).1.2 !! "pdf_local_path")
    as [Hsame Hpath].
  { destruct (download_one_cases w1 data_dir st rec)
      as [(Hn & Hout) | [(Hw & Hex & Hout) | [(_ & _ & _ & Hout)
         | [(Hw & _ & _ & body & _ & _ & Hout)
         | (_ & _ & _ & _ & fs & message & _ & Hout)]]]].
    - rewrite Hout, download_one_unwanted by done. done.
    - rewrite download_one_exists; [by rewrite Hout|done|].
      apply Hfiles, download_each_grows. by rewrite Hout.
    - rewrite Hout in Hfirst. done.
    - rewrite download_one_exists; [by rewrite Hout|done|].
      apply Hfiles, download_each_grows. rewrite Hout. cbn [fst snd].
      by rewrite lookup_insert_eq.
    - rewrite Hout in Hrec. unfold no_error in Hrec. cbn [fst snd] in Hrec.
      by rewrite lookup_insert_eq in Hrec. }
  rewrite Hsame. cbn [fst snd].
  destruct (IH (download_one w1 data_dir st rec).1.1 Hend Hrest Hfiles)
    as (Hst & Hnone & Hpaths).
  split; [done|]. split; [done|]. by rewrite !fmap_cons, Hpath, Hpaths.
Qed.

(** C9, as amended.  A record whose destination file exists gets that path
    as [pdf_local_path] and nothing is fetched for it.  When a first pass
    ran to its end and no record came out of it with a download error, a
    second pass over the same records and the files the first one left
    requests nothing and writes nothing, whatever the host and the disk
    would answer; it runs to its end if the directory can be made, and
    then records the same [pdf_local_path] values. *)
Theorem rerun_fetches_nothing :
  (∀ (w : World) (data_dir : Path) (st : gmap pystr File * list Download)
     (rec : record),
     wanted rec → is_Some (st.1 !! destination data_dir rec) →
     download_one w data_dir st rec
       = (st, <["pdf_local_path" := destination data_dir rec]> rec, None)) ∧
  (∀ (w1 w2 : World) (data_dir : Path)
     (st : gmap pystr File * list Download) (records : list record),
     let first := download_papers w1 data_dir st records in
     let second := download_papers w2 data_dir (first.1.1.1, []) records in
     first.2 = None → Forall no_error first.1.2 →
     second.1.1 = (first.1.1.1, []) ∧
     (can_mkdir w2 data_dir = true →
      second.2 = None ∧
      (λ r : record, r !! "pdf_local_path") <$> second.1.2
        = (λ r : record, r !! "pdf_local_path") <$> first.1.2)).
Proof.
  split; [apply download_one_exists|].
  intros w1 w2 data_dir st records first second Hend Hok. subst first second.
  destruct (download_papers_cases w1 data_dir st records)
    as [[_ Hfirst] | [_ Hfirst]]; rewrite Hfirst in *; [|done].
  destruct (download_each_again w1 w2 data_dir records st
              ((download_each w1 data_dir st records).1.1.1, []) Hend Hok)
    as (Hst & Hnone & Hpaths); [done|].
  destruct (download_papers_cases w2 data_dir
              ((download_each w1 data_dir st records).1.1.1, []) records)
    as [[Hdir ->] | [Hdir ->]].
  - by split.
  - split; [done|]. intros ?. congruence.
Qed.

Lemma rerun_fetches_nothing_witness :
  let first :=
    download_papers Samples.all_up Samples.data_dir Samples.no_files Samples.batch in
  let second :=
    download_papers Samples.all_down Samples.data_dir (first.1.1.1, []) Samples.batch in
  length first.1.1.2 = 3%nat ∧
  second.1.1.2 = [] ∧
  (λ r : record, r !! "pdf_local_path") <$> second.1.2
    = (λ r : record, r !! "pdf_local_path") <$> first.1.2.
Proof.
  intros first second.
  destruct rerun_fetches_nothing as [_ Hagain].
  destruct (Hagain Samples.all_up Samples.all_down Samples.data_dir
              Samples.no_files Samples.batch) as [Hst Hpaths].
  - reflexivity.
  - repeat constructor.
  - split; [reflexivity|]. fold first in Hst, Hpaths. fold second in Hst, Hpaths.
    split; [by rewrite Hst|]. by apply Hpaths.
Defined.

(** C9, as stated, fails: after a first pass whose download failed, the
    second pass over the same directory requests the document again. *)
Lemma rerun_counterexample :
  let records := [Samples.paper "2101.00001"] in
  let first :=
    download_papers Samples.all_down Samples.data_dir Samples.no_files records in
  let second :=
    download_papers Samples.all_down Samples.data_dir (first.1.1.1, []) records in
  first.1.1.2 = [artifact_request (Samples.paper "2101.00001")] ∧
  second.1.1.2 = [artifact_request (Samples.paper "2101.00001")] ∧
  second.1.1.2 ≠ [].
Proof. by vm_compute. Qed.

(** * The result summary *)


Lemma span_app (P : N → bool) (x y : pystr) :
  Forall (λ c, P c = true) x →
  match y with [] => True | c :: _ => P c = false end →
  span P (x ++ y) = (x, y).
Proof.
  intros Hx Hy. induction Hx as [|c x Hc _ IH]; simpl.
  - destruct y as [|c y]; simpl; [done|]. by rewrite Hy.
  - by rewrite Hc, IH.
Qed.

Lemma many1_app (P : N → bool) (x y : pystr) :
  x ≠ [] → Forall (λ c, P c = true) x →
  match y with [] => True | c :: _ => P c = false end →
  many1 P (x ++ y) = Some (x, y).
Proof.
  intros Hne Hx Hy. unfold many1. rewrite span_app by done.
  by destruct x.
Qed.

Lemma many_stays (P : N → bool) (y : pystr) :
  match y with [] => True | c :: _ => P c = false end → many P y = y.
Proof.
  intros Hy. unfold many.
  change (span P y) with (span P ([] ++ y)). by rewrite span_app.
Qed.

Lemma ci_eq_refl (c : N) : ci_eq c c = true.
Proof. unfold ci_eq. by rewrite N.eqb_refl. Qed.

Lemma lit_ci_app (p y : pystr) : lit_ci p (p ++ y) = Some y.
Proof. induction p as [|a p IH]; simpl; [done|]. by rewrite ci_eq_refl. Qed.

Lemma decimal_value_range (c : N) (d : Z) :
  decimal_value c = Some d →
  0 ≤ d ≤ 9 ∧
  ∃ z, z ∈ decimal_zeros ∧ (z ≤ c ≤ z + 9)%N ∧ d = Z.of_N (c - z).
Proof.
  unfold decimal_value.
  destruct (List.find _ decimal_zeros) as [z|] eqn:Hfind; [|done].
  intros [= <-]. apply find_some in Hfind as [Hin [H1 H2]%andb_prop].
  apply N.leb_le in H1, H2. split; [lia|].
  exists z. split; [by apply list_elem_of_In|]. split; [lia | done].
Qed.

(** A decimal digit is neither whitespace nor a comma, and it does not
    start the entity of the pattern. *)
Lemma is_digit_cases (c : N) :
  is_digit c = true → is_space c = false ∧ (c =? 44)%N = false ∧ ci_eq 38 c = false.
Proof.
  unfold is_digit. destruct (decimal_value c) as [d|] eqn:Hd; [|done].
  intros _. apply decimal_value_range in Hd as (_ & z & Hin & Hc & _).
  assert (∃ k, (k < 10)%nat ∧ c = (z + N.of_nat k)%N) as (k & Hk & ->)
    by (exists (N.to_nat (c - z)); lia).
  clear Hc. unfold decimal_zeros in Hin.
  repeat (apply elem_of_cons in Hin as [-> | Hin];
          [do 10 (destruct k as [|k]; [by vm_compute|]); lia|]).
  by apply not_elem_of_nil in Hin.
Qed.

Lemma result_count_at_hyphen (m n t rest : pystr) :
  m ≠ [] → Forall (λ c, is_digit c = true) m →
  n ≠ [] → Forall (λ c, is_digit c = true) n →
  t ≠ [] → Forall (λ c, is_digit c || (c =? 44)%N = true) t →
  result_count_at (hyphen_text m n t ++ rest) = Some t.
Proof.
  intros Hm Dm Hn Dn Ht Dt.
  assert (∀ (x y : pystr), x ≠ [] → Forall (λ c, is_digit c = true) x →
            match x ++ y with [] => True | c :: _ => is_space c = false end)
    as Hhead.
  { intros [|c x] y Hx Dx; [done|]. inversion Dx; subst.
    by apply is_digit_cases. }
  unfold result_count_at, hyphen_text. rewrite <- !app_assoc.
  change (py "Showing " ++ ?r) with (py "Showing" ++ ([32%N] ++ r)).
  rewrite lit_ci_app. cbn [mbind option_bind].
  rewrite many1_app; [|done|by repeat constructor|by apply Hhead].
  cbn [mbind option_bind].
  change (py "-" ++ ?r) with (45%N :: r).
  rewrite many1_app; [|done..].
  cbn [mbind option_bind].
  rewrite many_stays by done.
  change (lit_ci (py "&ndash;") (45%N :: ?r)) with (@None pystr).
  change (lit_ci (py "-") (45%N :: ?r)) with (Some r).
  cbn [mbind option_bind].
  rewrite many_stays by (by apply Hhead).
  change (py " of " ++ ?r) with ([32%N] ++ (py "of" ++ ([32%N] ++ r))).
  rewrite many1_app; [|done..].
  cbn [mbind option_bind].
  rewrite many1_app; [|done|by repeat constructor|done].
  cbn [mbind option_bind].
  rewrite lit_ci_app. cbn [mbind option_bind].
  rewrite many1_app; [|done|by repeat constructor|].
  2: { destruct t as [|c t]; [done|]. inversion Dt as [|? ? Hc]; subst. simpl.
       apply orb_prop in Hc as [Hc | Hc]; [by apply is_digit_cases|].
       apply N.eqb_eq in Hc as ->. done. }
  cbn [mbind option_bind].
  change (py " results" ++ rest) with ([32%N] ++ (py "results" ++ rest)).
  rewrite many1_app; [|done..].
  cbn [mbind option_bind].
  rewrite many1_app; [|done|by repeat constructor|done].
  cbn [mbind option_bind].
  by rewrite lit_ci_app.
Qed.

Lemma result_count_search_at (s g : pystr) :
  result_count_at s = Some g → result_count_search s = Some g.
Proof. intros H. destruct s; cbn [result_count_search]; by rewrite H. Qed.

Lemma strip_ends c d (x : pystr) :
  is_space c = false → is_space d = false →
  strip (c :: x ++ [d]) = c :: x ++ [d].
Proof.
  intros Hc Hd. unfold strip, strip_by, lstrip_by, rstrip_by. simpl.
  rewrite Hc. change (c :: x ++ [d]) with ((c :: x) ++ [d]).
  rewrite rev_app_distr. simpl. rewrite Hd.
  change (d :: rev x ++ [c]) with ([d] ++ rev (c :: x)).
  by rewrite rev_app_distr, rev_involutive.
Qed.

Lemma contains_prefix (p s : pystr) : prefix_b p s = true → contains p s = true.
Proof. intros H. destruct s; simpl; by rewrite H. Qed.

Lemma contains_app_r (p x y : pystr) :
  contains p y = true → contains p (x ++ y) = true.
Proof.
  intros H. induction x as [|c x IH]; simpl; [done|].
  rewrite IH. apply orb_true_r.
Qed.

Lemma hyphen_text_words (m n t rest : pystr) :
  contains (py "Showing") (hyphen_text m n t ++ rest) = true ∧
  contains (py "results") (hyphen_text m n t ++ rest) = true.
Proof.
  split.
  - apply contains_prefix. unfold hyphen_text. rewrite <- !app_assoc.
    change (py "Showing " ++ ?r) with (py "Showing" ++ ([32%N] ++ r)).
    apply prefix_b_app.
  - replace (hyphen_text m n t ++ rest)
      with ((py "Showing " ++ m ++ py "-" ++ n ++ py " of " ++ t ++ py " ")
            ++ (py "results" ++ rest))
      by (unfold hyphen_text; by rewrite <- !app_assoc).
    apply contains_app_r, contains_prefix, prefix_b_app.
Qed.

(** The paragraphs that come before the one the total is read from: they
    lack one of the two words, or the pattern is not found in them. *)
Lemma first_total_skip (before rest : list (list pystr)) :
  Forall (λ element,
            contains (py "Showing") (get_text_strip element) &&
            contains (py "results") (get_text_strip element) = false ∨
            result_count_search (get_text_strip element) = None) before →
  first_total (before ++ rest) = first_total rest.
Proof.
  induction 1 as [|element before Hel _ IH]; [done|].
  cbn [app first_total].
  destruct (contains (py "Showing") _ && contains (py "results") _) eqn:Hw;
    [|done].
  destruct Hel as [? | ->]; [congruence | done].
Qed.

(** C5.  On the summary as a parsed page gives it, with an en dash between
    the bounds, the pattern finds nothing and [extract_total_results]
    returns no value; it returns 1234 when the separator is a hyphen, and
    when the text holds the characters [&ndash;] themselves. *)
Theorem en_dash_summary_unread :
  result_count_search Samples.en_dash_summary = None ∧
  extract_total_results (Samples.summary_page Samples.en_dash_summary) = Ok None ∧
  extract_total_results (Samples.summary_page Samples.hyphen_summary)
    = Ok (Some 1234) ∧
  extract_total_results (Samples.summary_page Samples.entity_summary)
    = Ok (Some 1234).
Proof. by vm_compute. Qed.

(** The test that precedes the pattern is case-sensitive, though the
    pattern is not. *)
Example lower_case_summary_unread :
  result_count_search (py "showing 1-50 of 1,234 results") = Some (py "1,234") ∧
  extract_total_results
    (Samples.summary_page (py "showing 1-50 of 1,234 results")) = Ok None.
Proof. by vm_compute. Qed.

(** A total made of separators only is matched and then fails to parse. *)
Example separators_only_raise :
  extract_total_results (Samples.summary_page (py "Showing 1-50 of , results"))
    = Raise ValueError.
Proof. by vm_compute. Qed.

(** * Further properties of the controller *)

Lemma page_request_at cfg st :
  page_request cfg st = request_at cfg (start st) (last_referer st).
Proof. reflexivity. Qed.

(** The five ways a pass can go, with the state each leaves. *)
Lemma iteration_cases server cfg st :
  let response := fetch_page server (trace st) (page_request cfg st) in
  let exchange :=
    {| ex_start := start st; ex_request := page_request cfg st;
       ex_response := response |} in
  let out := iteration server cfg st in
  (cap_reached cfg st = true ∧ out = inr (CapReached, st)) ∨
  (cap_reached cfg st = false ∧
   trace (after out) = trace st ++ [exchange] ∧
   ((∃ e, response = Raise e ∧
          out = inr (Raised e, after out) ∧
          collected (after out) = collected st ∧ seen (after out) = seen st ∧
          start (after out) = start st ∧
          page_index (after out) = page_index st ∧
          total_results (after out) = total_results st) ∨
    (∃ soup url, response = Ok (soup, url) ∧ extract_records soup = [] ∧
          out = inr (Exhausted, after out) ∧
          collected (after out) = collected st ∧ seen (after out) = seen st ∧
          start (after out) = start st ∧
          page_index (after out) = page_index st ∧
          total_results (after out) = total_results st) ∨
    (∃ soup url, response = Ok (soup, url) ∧ extract_records soup ≠ [] ∧
          (seen (after out), collected (after out))
            = accumulate (seen st, collected st) (extract_records soup) ∧
          ((∃ e, total_results st = None ∧
                 extract_total_results soup = Raise e ∧
                 out = inr (Raised e, after out) ∧
                 start (after out) = start st ∧
                 page_index (after out) = page_index st ∧
                 total_results (after out) = None) ∨
           (∃ total,
              match total_results st with
              | None => extract_total_results soup
              | Some t => Ok (Some t)
              end = Ok total ∧
              total_results (after out) = total ∧
              start (after out) = start st + cfg_size cfg ∧
              page_index (after out) = page_index st + 1 ∧
              last_referer (after out) = Some url ∧
              ((∃ t, total = Some t ∧ t ≤ start st + cfg_size cfg ∧
                     out = inr (TargetReached, after out)) ∨
               ((∀ t, total = Some t → start st + cfg_size cfg < t) ∧
                out = inl (after out)))))))).
Proof.
  intros response exchange out. subst out exchange response.
  unfold iteration.
  destruct (cap_reached cfg st); [by left|]. right. split; [done|].
  destruct (fetch_page _ _ _) as [[soup url]|e] eqn:Hf.
  2: { split; [done|]. left. by exists e. }
  destruct (extract_records soup) as [|r0 page] eqn:Hp.
  { split; [done|]. right. left. by exists soup, url. }
  destruct (accumulate _ _) as [seen' collected'] eqn:Hacc.
  destruct (total_results st) as [t|] eqn:Ht.
  - cbv beta iota zeta. cbn [start].
    destruct (t <=? start st + cfg_size cfg) eqn:Hle;
      (split; [done|]); right; right; exists soup, url;
      (split; [done|]); (split; [by rewrite Hp|]); (split; [by rewrite Hp|]);
      right; exists (Some t); repeat (split; [done|]).
    + left. exists t. apply Z.leb_le in Hle. done.
    + right. split; [|done]. intros t' [= <-]. by apply Z.leb_gt.
  - destruct (extract_total_results soup) as [total|e] eqn:Hex.
    + cbv beta iota zeta. cbn [start].
      destruct total as [t|]; [destruct (t <=? start st + cfg_size cfg) eqn:Hle|];
        (split; [done|]); right; right; exists soup, url;
        (split; [done|]); (split; [by rewrite Hp|]); (split; [by rewrite Hp|]);
        right; eexists; repeat (split; [done|]).
      * left. exists t. apply Z.leb_le in Hle. done.
      * right. split; [|done]. intros t' [= <-]. by apply Z.leb_gt.
      * right. split; [|done]. by intros t' [=].
    + split; [done|]. right; right. exists soup, url.
      split; [done|]. split; [by rewrite Hp|]. split; [by rewrite Hp|].
      left. by exists e.
Qed.

Lemma chained_snoc cfg tr ex :
  chained cfg tr →
  ex_start ex = Z.of_nat (length tr) * cfg_size cfg →
  ex_request ex =
    request_at cfg (Z.of_nat (length tr) * cfg_size cfg)
      (referer_before cfg tr (length tr)) →
  chained cfg (tr ++ [ex]).
Proof.
  intros Htr Hstart Hreq k ex' Hk.
  destruct (decide (k < length tr)%nat) as [Hlt | Hge].
  - rewrite lookup_app_l in Hk by done.
    destruct (Htr k ex' Hk) as [Hs Hr]. split; [done|]. rewrite Hr.
    f_equal. destruct k as [|j]; [done|]. simpl.
    by rewrite lookup_app_l by lia.
  - rewrite lookup_app_r in Hk by lia.
    destruct (k - length tr)%nat as [|d] eqn:Hd; [|by destruct d].
    injection Hk as <-. assert (k = length tr) as -> by lia.
    split; [done|]. rewrite Hreq. f_equal.
    destruct (length tr) as [|j] eqn:Hlen; [done|]. simpl.
    by rewrite lookup_app_l by lia.
Qed.

Lemma walking_initial cfg : walking cfg (initial_state cfg).
Proof.
  split; simpl; try done. intros cap _. lia.
Qed.

(** A pass from a state of the walk leads to a state of the walk, or ends
    the run as the reason says. *)
Lemma iteration_walk server cfg st :
  walking cfg st →
  match iteration server cfg st with
  | inl st' => walking cfg st'
  | inr (stop, st') => walked cfg stop st'
  end.
Proof.
  intros [Hprod Hidx Hstart Href Hchain Hcap].
  pose proof (iteration_cases server cfg st) as Hcases. cbv zeta in Hcases.
  set (ex := {| ex_start := start st; ex_request := page_request cfg st;
                ex_response := fetch_page server (trace st) (page_request cfg st) |})
    in Hcases.
  assert (chained cfg (trace st ++ [ex])) as Hchain'.
  { apply chained_snoc; [done | by rewrite <- Hstart |].
    simpl. by rewrite page_request_at, Hstart, Href. }
  assert (Z.of_nat (length (trace st ++ [ex]))
          = Z.of_nat (length (trace st)) + 1) as Hlen
    by (rewrite length_app; simpl; lia).
  destruct (iteration server cfg st) as [st1 | [stop1 st1]];
    simpl in Hcases;
    (destruct Hcases as [[Hc Hout] | (Hc & Htrace & Hcases)];
     [try done|]).
  - (* the loop goes on *)
    destruct Hcases as [(e & _ & Hout & _)
      | [(soup & url & _ & _ & Hout & _)
      | (soup & url & Hresp & Hpage & _ & Hcases)]]; [done | done |].
    destruct Hcases as [(e & _ & _ & Hout & _)
      | (total & _ & _ & Hstart' & Hidx' & Href' & Hcases)]; [done|].
    destruct Hcases as [(t & _ & _ & Hout) | [_ _]]; [done|].
    split; rewrite ?Htrace.
    + apply Forall_app. split; [done|]. repeat constructor. by exists soup, url.
    + lia.
    + lia.
    + rewrite Href'. rewrite length_app. simpl.
      rewrite Nat.add_1_r. simpl.
      rewrite lookup_app_r by lia. rewrite Nat.sub_diag. simpl.
      unfold response_url. simpl. by rewrite Hresp.
    + done.
    + intros cap Hcfg. unfold cap_reached in Hc. rewrite Hcfg in Hc.
      apply Z.leb_gt in Hc. lia.
  - (* the cap *)
    injection Hout as -> ->. split; [|done..]. split; [done|].
    unfold cap_reached in Hc.
    destruct (cfg_max_pages cfg) as [cap|]; [|done].
    exists cap. split; [done|]. apply Z.leb_le in Hc. lia.
  - assert (∀ cap, cfg_max_pages cfg = Some cap →
                   Z.of_nat (length (trace st ++ [ex])) ≤ Z.max 0 cap) as Hcap'.
    { intros cap Hcfg. unfold cap_reached in Hc. rewrite Hcfg in Hc.
      apply Z.leb_gt in Hc. lia. }
    destruct Hcases as [(e & Hresp & Hout & _)
      | [(soup & url & Hresp & Hpage & Hout & _)
      | (soup & url & Hresp & Hpage & _ & Hcases)]].
    + injection Hout as ->. split; [unfold stop_shape; rewrite Htrace | by rewrite Htrace ..].
      exists (trace st), ex. split; [done|]. split; [done|]. by left.
    + injection Hout as ->. split; [unfold stop_shape; rewrite Htrace | by rewrite Htrace ..].
      by exists (trace st), ex, soup, url.
    + assert (productive ex) as Hex by (by exists soup, url).
      destruct Hcases as [(e & _ & Hraise & Hout & _)
        | (total & _ & Htot' & _ & _ & _ & Hcases)].
      * injection Hout as ->. split; [unfold stop_shape; rewrite Htrace | by rewrite Htrace ..].
        exists (trace st), ex. split; [done|]. split; [done|].
        right. by exists soup, url.
      * destruct Hcases as [(t & -> & Hle & Hout) | [_ Hout]]; [|done].
        injection Hout as ->. split; [unfold stop_shape; rewrite Htrace | by rewrite Htrace ..].
        split; [apply Forall_app; split; [done | by repeat constructor]|].
        split; [by destruct (trace st)|].
        exists t. split; [done|]. lia.
Qed.

Lemma collect_loop_walk server cfg fuel st stop st' :
  walking cfg st →
  collect_loop server cfg fuel st = Some (stop, st') →
  walked cfg stop st'.
Proof.
  revert st. induction fuel as [|fuel IH]; intros st Hst; simpl; [done|].
  pose proof (iteration_walk server cfg st Hst) as Hnext.
  destruct (iteration server cfg st) as [st1 | [stop1 st1]].
  - by apply IH.
  - by intros [= <- <-].
Qed.

Lemma collect_run_walk server cfg fuel stop st :
  collect_run server cfg fuel = Some (stop, st) → walked cfg stop st.
Proof. apply collect_loop_walk, walking_initial. Qed.

(** X1.  Why a run ended tells what its pages were.  After the cap or the
    target every fetched page held a record; a run that ends exhausted
    fetched pages with records and then one without; a run that raises
    fetched pages with records and then either failed to fetch or read a
    summary whose total does not parse. *)
Theorem run_stop_reason server cfg fuel stop st :
  collect_run server cfg fuel = Some (stop, st) →
  match stop with
  | CapReached =>
      Forall productive (trace st) ∧
      ∃ cap, cfg_max_pages cfg = Some cap ∧
             cap ≤ Z.of_nat (length (trace st))
  | TargetReached =>
      Forall productive (trace st) ∧ trace st ≠ [] ∧
      ∃ t, total_results st = Some t ∧
           t ≤ Z.of_nat (length (trace st)) * cfg_size cfg
  | Exhausted =>
      ∃ tr ex soup url,
        trace st = tr ++ [ex] ∧ Forall productive tr ∧
        ex_response ex = Ok (soup, url) ∧ extract_records soup = []
  | Raised e =>
      ∃ tr ex,
        trace st = tr ++ [ex] ∧ Forall productive tr ∧
        (ex_response ex = Raise e ∨
         ∃ soup url,
           ex_response ex = Ok (soup, url) ∧ extract_records soup ≠ [] ∧
           extract_total_results soup = Raise e)
  end.
Proof. intros Hrun. by destruct (collect_run_walk _ _ _ _ _ Hrun). Qed.

Lemma run_stop_reason_witness :
  ∃ tr ex soup url,
    trace Samples.overlapping_final = tr ++ [ex] ∧ length tr = 2%nat ∧
    Forall productive tr ∧
    ex_response ex = Ok (soup, url) ∧ extract_records soup = [].
Proof.
  destruct (run_stop_reason Samples.overlapping (Samples.config 2 None) 5
              Exhausted Samples.overlapping_final)
    as (tr & ex & soup & url & Htrace & Hprod & Hresp & Hpage);
    [vm_compute; reflexivity|].
  exists tr, ex, soup, url. split; [exact Htrace|].
  split; [|by repeat split].
  assert (length (trace Samples.overlapping_final) = 3%nat) as Hlen
    by (vm_compute; reflexivity).
  rewrite Htrace, length_app in Hlen. simpl in Hlen. lia.
Defined.

Lemma request_at_start cfg offset referer :
  params (request_at cfg offset referer) !! "start" =
  if 0 <? offset then Some (str_of_Z offset) else None.
Proof.
  unfold request_at, page_request, page_params. simpl.
  destruct (0 <? offset); by simplify_map_eq.
Qed.

Lemma request_at_fixed cfg offset referer :
  delete "start" (params (request_at cfg offset referer)) = fixed_params cfg.
Proof.
  unfold request_at, page_request, page_params. simpl.
  fold (fixed_params cfg).
  destruct (0 <? offset).
  - rewrite delete_insert_eq. by apply delete_id.
  - by apply delete_id.
Qed.

(** X2.  The request number [k] of a run (from 0) is issued at offset
    [k * size]; it carries that offset as its [start] parameter when the
    offset is positive and no [start] parameter otherwise, and its other
    parameters are the six of the configuration, the page size among them
    as [str(size)]. *)
Theorem run_offsets server cfg fuel stop st :
  collect_run server cfg fuel = Some (stop, st) →
  ∀ k ex, trace st !! k = Some ex →
    let offset := Z.of_nat k * cfg_size cfg in
    ex_start ex = offset ∧
    params (ex_request ex) !! "start"
      = (if 0 <? offset then Some (str_of_Z offset) else None) ∧
    delete "start" (params (ex_request ex)) = fixed_params cfg.
Proof.
  intros Hrun k ex Hk offset.
  destruct (collect_run_walk _ _ _ _ _ Hrun) as [_ Hchain _].
  destruct (Hchain k ex Hk) as [Hstart Hreq]. fold offset in Hstart, Hreq.
  split; [done|]. rewrite Hreq.
  split; [apply request_at_start | apply request_at_fixed].
Qed.

Lemma run_offsets_witness :
  ∃ ex,
    trace Samples.steady_final !! 2%nat = Some ex ∧
    ex_start ex = 100 ∧
    params (ex_request ex) !! "start" = Some (py "100") ∧
    params (ex_request ex) !! "size" = Some (py "50").
Proof.
  destruct (trace Samples.steady_final !! 2%nat) as [ex|] eqn:Hex;
    [|vm_compute in Hex; discriminate].
  destruct (run_offsets Samples.steady (Samples.config 50 None) 5
              TargetReached Samples.steady_final) with (k := 2%nat) (ex := ex)
    as (Hstart & Hparam & Hfixed); [vm_compute; reflexivity | exact Hex |].
  exists ex. split; [reflexivity|]. split; [exact Hstart|].
  split; [exact Hparam|].
  apply (f_equal (λ m : gmap string pystr, m !! "size")) in Hfixed.
  rewrite lookup_delete_ne in Hfixed by done. rewrite Hfixed.
  reflexivity.
Defined.

Lemma request_at_headers cfg offset referer :
  let h := default ∅ (headers (request_at cfg offset referer)) in
  h !! "Referer" =
    (if truthy_opt referer then referer
     else if truthy_opt (cfg_initial_referer cfg) then cfg_initial_referer cfg
     else None) ∧
  h !! "Sec-Fetch-Site" =
    (if truthy_opt (cfg_initial_sec_fetch_site cfg)
     then Some (if truthy_opt referer then py "same-origin"
                else default [] (cfg_initial_sec_fetch_site cfg))
     else None).
Proof.
  unfold request_at, page_request, page_headers. simpl.
  assert (∀ o : option pystr, truthy_opt o = true → Some (default [] o) = o)
    as Hsome by (by intros [s|]).
  destruct (truthy_opt referer) eqn:Hr;
    [|destruct (truthy_opt (cfg_initial_referer cfg)) eqn:Hi];
    destruct (truthy_opt (cfg_initial_sec_fetch_site cfg)) eqn:Hs;
    destruct (decide _) as [Hempty | _]; simpl.
  all: try (by destruct (insert_non_empty (M := gmap string) _ _ _ Hempty)).
  all: try (by rewrite !lookup_empty).
  all: split.
  all: rewrite ?lookup_insert_eq; try done.
  all: try (rewrite lookup_insert_ne by done).
  all: rewrite ?lookup_insert_eq, ?lookup_empty; try done.
  all: by rewrite Hsome.
Qed.

(** X3.  The first request of a run has the configured referer, if there
    is one; every later request has the URL the previous response resolved
    to (the configured referer if that URL is empty).  When a
    [Sec-Fetch-Site] value is configured, a request sent with a referer of
    its own says [same-origin], the first one included, and the
    configured value is used only for a request without one. *)
Theorem run_referers server cfg fuel stop st :
  collect_run server cfg fuel = Some (stop, st) →
  ∀ k ex, trace st !! k = Some ex →
    let h := default ∅ (headers (ex_request ex)) in
    let referer := referer_before cfg (trace st) k in
    (k = O → referer = cfg_initial_referer cfg) ∧
    (∀ j, k = S j →
       ∃ prev soup url,
         trace st !! j = Some prev ∧ ex_response prev = Ok (soup, url) ∧
         referer = Some url) ∧
    h !! "Referer" =
      (if truthy_opt referer then referer
       else if truthy_opt (cfg_initial_referer cfg)
       then cfg_initial_referer cfg else None) ∧
    h !! "Sec-Fetch-Site" =
      (if truthy_opt (cfg_initial_sec_fetch_site cfg)
       then Some (if truthy_opt referer then py "same-origin"
                  else default [] (cfg_initial_sec_fetch_site cfg))
       else None).
Proof.
  intros Hrun k ex Hk h referer.
  destruct (collect_run_walk _ _ _ _ _ Hrun) as [Hshape Hchain _].
  destruct (Hchain k ex Hk) as [_ Hreq].
  split; [by intros ->|]. split.
  - intros j ->. subst referer. simpl.
    assert (j < length (trace st))%nat as Hj
      by (apply lookup_lt_Some in Hk; lia).
    destruct (lookup_lt_is_Some_2 _ _ Hj) as [prev Hprev].
    assert (productive prev) as (soup & url & Hresp & _).
    { assert (∃ tr last, trace st = tr ++ last ∧ Forall productive tr ∧
                         (j < length tr)%nat) as (tr & last & Htr & Hprod & Hlt).
      { apply lookup_lt_Some in Hk.
        destruct stop; simpl in Hshape.
        - destruct Hshape as [Hprod _]. exists (trace st), [].
          by rewrite app_nil_r.
        - destruct Hshape as (tr & e0 & soup & url & Htr & Hprod & _).
          exists tr, [e0]. rewrite Htr, length_app in Hk. simpl in Hk.
          split; [done|]. split; [done|]. lia.
        - destruct Hshape as [Hprod _]. exists (trace st), [].
          by rewrite app_nil_r.
        - destruct Hshape as (tr & e0 & Htr & Hprod & _).
          exists tr, [e0]. rewrite Htr, length_app in Hk. simpl in Hk.
          split; [done|]. split; [done|]. lia. }
      rewrite Htr, lookup_app_l in Hprev by done.
      rewrite Forall_forall in Hprod. apply Hprod.
      by apply list_elem_of_lookup_2 in Hprev. }
    exists prev, soup, url. split; [done|]. split; [done|].
    rewrite Hprev. simpl. unfold response_url. by rewrite Hresp.
  - subst h. rewrite Hreq. apply request_at_headers.
Qed.

Lemma run_referers_witness :
  ∃ ex,
    trace Samples.overlapping_final !! 1%nat = Some ex ∧
    default ∅ (headers (ex_request ex)) !! "Referer"
      = Some Samples.listing_url ∧
    default ∅ (headers (ex_request ex)) !! "Sec-Fetch-Site"
      = Some (py "same-origin").
Proof.
  destruct (trace Samples.overlapping_final !! 1%nat) as [ex|] eqn:Hex;
    [|vm_compute in Hex; discriminate].
  destruct (run_referers Samples.overlapping (Samples.config 2 None) 5
              Exhausted Samples.overlapping_final) with (k := 1%nat) (ex := ex)
    as (_ & Hprev & Href & Hsite); [vm_compute; reflexivity | exact Hex |].
  destruct (Hprev O eq_refl) as (prev & soup & url & Hp & Hresp & Hurl).
  assert (url = Samples.listing_url) as ->.
  { assert (trace Samples.overlapping_final !! 0%nat ≫= response_url
            = Some Samples.listing_url) as Hfirst by (vm_compute; reflexivity).
    rewrite Hp in Hfirst. simpl in Hfirst. unfold response_url in Hfirst.
    rewrite Hresp in Hfirst. by injection Hfirst. }
  exists ex. split; [reflexivity|].
  rewrite Href, Hsite, Hurl. split; reflexivity.
Defined.

Lemma collect_loop_cap server cfg cap :
  cfg_max_pages cfg = Some cap →
  ∀ n st, cap - page_index st ≤ Z.of_nat n →
          is_Some (collect_loop server cfg (S n) st).
Proof.
  intros Hcfg. induction n as [|n IH]; intros st Hle.
  - simpl. pose proof (iteration_cases server cfg st) as Hcases.
    cbv zeta in Hcases.
    destruct Hcases as [[_ ->] | [Hc _]]; [by eexists|].
    unfold cap_reached in Hc. rewrite Hcfg in Hc. apply Z.leb_gt in Hc. lia.
  - change (collect_loop server cfg (S (S n)) st)
      with (match iteration server cfg st with
            | inl st' => collect_loop server cfg (S n) st'
            | inr out => Some out
            end).
    pose proof (iteration_cases server cfg st) as Hcases.
    cbv zeta in Hcases.
    destruct (iteration server cfg st) as [st1 | out]; [|by eexists].
    apply IH. simpl in Hcases.
    destruct Hcases as [[_ [=]] | (_ & _ & Hcases)].
    destruct Hcases as [(e & _ & [=] & _)
      | [(soup & url & _ & _ & [=] & _)
      | (soup & url & _ & _ & _ & Hcases)]].
    destruct Hcases as [(e & _ & _ & [=] & _)
      | (total & _ & _ & _ & Hidx & _)]. lia.
Qed.

(** X4.  Under a page cap a run always ends, within [cap + 1] passes of
    the loop, and fetches at most [cap] pages, none when the cap is zero
    or negative; under a cap of one it makes exactly one fetch whatever
    the listing answers. *)
Theorem run_under_cap server cfg cap :
  cfg_max_pages cfg = Some cap →
  (∀ fuel, (Z.to_nat cap < fuel)%nat → is_Some (collect_run server cfg fuel)) ∧
  (∀ fuel stop st,
     collect_run server cfg fuel = Some (stop, st) →
     Z.of_nat (length (trace st)) ≤ Z.max 0 cap ∧
     (cap = 1 → length (trace st) = 1%nat)).
Proof.
  intros Hcfg. split.
  - intros fuel Hlt. destruct fuel as [|n]; [lia|].
    apply (collect_loop_cap server cfg cap Hcfg). simpl. lia.
  - intros fuel stop st Hrun.
    destruct (collect_run_walk _ _ _ _ _ Hrun) as [Hshape _ Hcap].
    specialize (Hcap cap Hcfg). split; [done|]. intros ->.
    assert (trace st ≠ []) as Hne; [|destruct (trace st) as [|? [|? ?]];
                                      simpl in *; [done | done | lia]].
    destruct stop; simpl in Hshape.
    + destruct Hshape as (_ & c & Hc & Hle).
      rewrite Hcfg in Hc. injection Hc as <-.
      destruct (trace st); simpl in *; [lia | done].
    + destruct Hshape as (tr & ex & _ & _ & -> & _). by destruct tr.
    + by destruct Hshape as (_ & ? & _).
    + destruct Hshape as (tr & ex & -> & _). by destruct tr.
Qed.

Lemma run_under_cap_witness :
  collect_run Samples.steady (Samples.config 50 (Some 1)) 2
    = Some (CapReached, Samples.capped_final) ∧
  length (trace Samples.capped_final) = 1%nat.
Proof.
  assert (collect_run Samples.steady (Samples.config 50 (Some 1)) 2
          = Some (CapReached, Samples.capped_final)) as Hrun
    by (vm_compute; reflexivity).
  split; [exact Hrun|].
  destruct (run_under_cap Samples.steady (Samples.config 50 (Some 1)) 1 eq_refl)
    as [_ Hbound].
  destruct (Hbound _ _ _ Hrun) as [_ Hone]. by apply Hone.
Defined.

(** X5.  With a positive page size, from a state in which the total is
    known, the loop ends within [n + 1] passes as soon as [(n + 1) * size]
    covers what is left between the offset and the total, and these passes
    fetch at most [n + 1] pages. *)
Theorem loop_reaches_target server cfg t :
  0 < cfg_size cfg →
  ∀ n st, total_results st = Some t →
          t - start st ≤ Z.of_nat (S n) * cfg_size cfg →
          ∃ stop st',
            collect_loop server cfg (S n) st = Some (stop, st') ∧
            (length (trace st') ≤ length (trace st) + S n)%nat.
Proof.
  intros Hsize. induction n as [|n IH]; intros st Ht Hle.
  - simpl. pose proof (iteration_cases server cfg st) as Hcases.
    cbv zeta in Hcases.
    destruct (iteration server cfg st) as [st1 | [stop st1]]; simpl in Hcases.
    + exfalso. destruct Hcases as [[_ [=]] | (_ & _ & Hcases)].
      destruct Hcases as [(e & _ & [=] & _)
        | [(soup & url & _ & _ & [=] & _)
        | (soup & url & _ & _ & _ & Hcases)]].
      destruct Hcases as [(e & _ & _ & [=] & _)
        | (total & Htotal & _ & _ & _ & _ & Hcases)].
      rewrite Ht in Htotal. injection Htotal as <-.
      destruct Hcases as [(t' & _ & _ & [=]) | [Hlt _]].
      specialize (Hlt t eq_refl). lia.
    + exists stop, st1. split; [done|].
      destruct Hcases as [[_ [= -> ->]] | (_ & -> & _)]; [lia|].
      rewrite length_app. simpl. lia.
  - change (collect_loop server cfg (S (S n)) st)
      with (match iteration server cfg st with
            | inl st' => collect_loop server cfg (S n) st'
            | inr out => Some out
            end).
    pose proof (iteration_cases server cfg st) as Hcases.
    cbv zeta in Hcases.
    destruct (iteration server cfg st) as [st1 | [stop st1]]; simpl in Hcases.
    + destruct Hcases as [[_ [=]] | (_ & Htrace & Hcases)].
      destruct Hcases as [(e & _ & [=] & _)
        | [(soup & url & _ & _ & [=] & _)
        | (soup & url & _ & _ & _ & Hcases)]].
      destruct Hcases as [(e & _ & _ & [=] & _)
        | (total & Htotal & Htot' & Hstart' & _)].
      rewrite Ht in Htotal. injection Htotal as <-.
      destruct (IH st1) as (stop & st' & Hrun & Hlen); [done | lia |].
      exists stop, st'. split; [done|].
      rewrite Htrace, length_app in Hlen. simpl in Hlen. lia.
    + exists stop, st1. split; [done|].
      destruct Hcases as [[_ [= -> ->]] | (_ & -> & _)]; [lia|].
      rewrite length_app. simpl. lia.
Qed.

Lemma loop_reaches_target_witness :
  ∃ stop st',
    collect_loop Samples.steady (Samples.config 50 None) 2 Cases.steady_first
      = Some (stop, st') ∧
    (length (trace st') ≤ 3)%nat.
Proof.
  destruct (loop_reaches_target Samples.steady (Samples.config 50 None) 120)
    with (n := 1%nat) (st := Cases.steady_first)
    as (stop & st' & Hrun & Hlen);
    [reflexivity | vm_compute; reflexivity | vm_compute; discriminate |].
  exists stop, st'. split; [exact Hrun|].
  assert (length (trace Cases.steady_first) = 1%nat) as H1
    by (vm_compute; reflexivity).
  rewrite H1 in Hlen. exact Hlen.
Defined.

(** X6.  Without a page cap, over a listing whose pages always come back
    with a record and never with a summary that gives a total, the loop
    does not end: no number of passes makes [collect_records] return. *)
Theorem run_without_end server cfg :
  cfg_max_pages cfg = None →
  (∀ history request,
     ∃ soup url,
       server history request = Ok (soup, url) ∧
       extract_records soup ≠ [] ∧ extract_total_results soup = Ok None) →
  ∀ fuel,
    collect_run server cfg fuel = None ∧ collect_records server cfg fuel = None.
Proof.
  intros Hcap Hserver.
  assert (∀ fuel st, total_results st = None →
                     collect_loop server cfg fuel st = None) as Hloop.
  { induction fuel as [|fuel IH]; intros st Ht; [done|]. simpl.
    pose proof (iteration_cases server cfg st) as Hcases. cbv zeta in Hcases.
    destruct (Hserver (ex_request <$> trace st) (page_request cfg st))
      as (soup & url & Hresp & Hpage & Htotal).
    unfold fetch_page in Hcases. rewrite Hresp in Hcases.
    destruct Hcases as [[Hc _] | (_ & _ & Hcases)];
      [unfold cap_reached in Hc; by rewrite Hcap in Hc|].
    destruct Hcases as [(e & [=] & _)
      | [(soup' & url' & [= <- <-] & Hempty & _)
      | (soup' & url' & [= <- <-] & _ & _ & Hcases)]]; [done|].
    rewrite Ht, Htotal in Hcases.
    destruct Hcases as [(e & _ & [=] & _)
      | (total & [= <-] & Htot' & _ & _ & _ & Hcases)].
    destruct Hcases as [(t & [=] & _) | [_ ->]]. by apply IH. }
  intros fuel. unfold collect_records, collect_run.
  by rewrite Hloop.
Qed.

Lemma run_without_end_witness :
  collect_records Cases.silent (Samples.config 50 None) 1000 = None.
Proof.
  destruct (run_without_end Cases.silent (Samples.config 50 None) eq_refl)
    with (fuel := 1000%nat) as [_ Hnone].
  - intros history request. eexists _, _. split; [reflexivity|].
    split; [vm_compute; discriminate | reflexivity].
  - exact Hnone.
Defined.

Lemma accumulate_one_grows (acc : gset pystr * list record) (rec : record) :
  acc.2 `prefix_of` (accumulate_one acc rec).2 ∧
  acc.1 ⊆ (accumulate_one acc rec).1 ∧
  (size acc.1 = length acc.2 →
   size (accumulate_one acc rec).1 = length (accumulate_one acc rec).2).
Proof.
  unfold accumulate_one.
  destruct (rec !! "id") as [i|]; [|done].
  destruct (negb (truthy i)); [done|].
  destruct (decide (i ∈ acc.1)) as [|Hnew]; [done|]. simpl.
  split; [by eexists|]. split; [apply union_subseteq_r|].
  intros Hsize. rewrite length_app. simpl.
  rewrite size_union by (by apply disjoint_singleton_l).
  rewrite size_singleton. lia.
Qed.

Lemma accumulate_grows (page : list record) (acc : gset pystr * list record) :
  acc.2 `prefix_of` (accumulate acc page).2 ∧
  acc.1 ⊆ (accumulate acc page).1 ∧
  (size acc.1 = length acc.2 →
   size (accumulate acc page).1 = length (accumulate acc page).2).
Proof.
  unfold accumulate. revert acc.
  induction page as [|rec page IH]; intros acc; simpl; [done|].
  destruct (accumulate_one_grows acc rec) as (Hp & Hs & Hn).
  destruct (IH (accumulate_one acc rec)) as (Hp' & Hs' & Hn').
  split; [by etrans|]. split; [by etrans|]. auto.
Qed.

Lemma iteration_grows server cfg st :
  let st' := after (iteration server cfg st) in
  collected st `prefix_of` collected st' ∧
  seen st ⊆ seen st' ∧
  trace st `prefix_of` trace st' ∧
  (size (seen st) = length (collected st) →
   size (seen st') = length (collected st')).
Proof.
  intros st'. subst st'.
  pose proof (iteration_cases server cfg st) as Hcases. cbv zeta in Hcases.
  destruct Hcases as [[_ ->] | (_ & Htrace & Hcases)]; [done|].
  rewrite Htrace.
  destruct Hcases as [(e & _ & _ & -> & -> & _)
    | [(soup & url & _ & _ & _ & -> & -> & _)
    | (soup & url & _ & _ & Hacc & _)]];
    [repeat split; try done; by eexists .. |].
  destruct (accumulate_grows (extract_records soup) (seen st, collected st))
    as (Hp & Hs & Hn).
  rewrite <- Hacc in Hp, Hs, Hn. simpl in Hp, Hs, Hn.
  repeat split; try done. by eexists.
Qed.

(** X7.  The loop only ever adds to what it holds: after any number of
    passes [collected] extends the list it was, record for record, [seen]
    contains the set it was and the trace extends the trace; and at the
    end of a run [seen] has as many ids as [collected] has records. *)
Theorem run_accumulates server cfg :
  (∀ fuel st stop st',
     collect_loop server cfg fuel st = Some (stop, st') →
     collected st `prefix_of` collected st' ∧
     seen st ⊆ seen st' ∧
     trace st `prefix_of` trace st') ∧
  (∀ fuel stop st,
     collect_run server cfg fuel = Some (stop, st) →
     size (seen st) = length (collected st)).
Proof.
  assert (∀ fuel st stop st',
            collect_loop server cfg fuel st = Some (stop, st') →
            collected st `prefix_of` collected st' ∧
            seen st ⊆ seen st' ∧
            trace st `prefix_of` trace st' ∧
            (size (seen st) = length (collected st) →
             size (seen st') = length (collected st'))) as Hloop.
  { induction fuel as [|fuel IH]; intros st stop st'; simpl; [done|].
    pose proof (iteration_grows server cfg st) as Hnext. cbv zeta in Hnext.
    destruct (iteration server cfg st) as [st1 | [stop1 st1]];
      simpl in Hnext; destruct Hnext as (Hc & Hs & Ht & Hn).
    - intros Hrun. destruct (IH _ _ _ Hrun) as (Hc' & Hs' & Ht' & Hn').
      split; [by etrans|]. split; [by etrans|]. split; [by etrans|]. auto.
    - by intros [= <- <-]. }
  split.
  - intros fuel st stop st' Hrun.
    destruct (Hloop _ _ _ _ Hrun) as (? & ? & ? & _). done.
  - intros fuel stop st Hrun.
    destruct (Hloop _ _ _ _ Hrun) as (_ & _ & _ & Hn). by apply Hn.
Qed.

Lemma run_accumulates_witness :
  collected Cases.steady_first `prefix_of` collected Samples.steady_final ∧
  size (seen Samples.overlapping_final) = 3%nat.
Proof.
  destruct (run_accumulates Samples.steady (Samples.config 50 None))
    as [Hgrow _].
  destruct (run_accumulates Samples.overlapping (Samples.config 2 None))
    as [_ Hsize].
  split.
  - destruct (Hgrow 4%nat Cases.steady_first TargetReached Samples.steady_final)
      as (Hc & _); [vm_compute; reflexivity | exact Hc].
  - rewrite (Hsize 5%nat Exhausted Samples.overlapping_final)
      by (vm_compute; reflexivity).
    vm_compute. reflexivity.
Defined.

(** * Further properties of the extractor *)

Lemma strip_by_fixed (P : N → bool) (s : pystr) :
  P (List.hd 0%N s) = false → P (List.last s 0%N) = false →
  s ≠ [] → strip_by P s = s.
Proof.
  intros Hh Hl Hs. unfold strip_by, lstrip_by, rstrip_by.
  destruct s as [|c s]; [done|]. simpl in Hh. cbn [drop_while]. rewrite Hh.
  destruct (rev (c :: s)) as [|d r] eqn:Hr.
  - apply (f_equal (@rev N)) in Hr. by rewrite rev_involutive in Hr.
  - assert (List.last (c :: s) 0%N = d) as Hd.
    { apply (f_equal (@rev N)) in Hr. rewrite rev_involutive in Hr.
      rewrite Hr. simpl. by rewrite last_last. }
    rewrite Hd in Hl. cbn [drop_while]. rewrite Hl.
    by rewrite <- Hr, rev_involutive.
Qed.

Lemma strip_by_trimmed (P : N → bool) (s : pystr) :
  strip_by P s = [] ∨
  (P (List.hd 0%N (strip_by P s)) = false ∧
   P (List.last (strip_by P s) 0%N) = false).
Proof.
  destruct (strip_by P s) as [|c r] eqn:Hs; [by left|]. right. split.
  - simpl. by apply strip_by_head in Hs.
  - rewrite <- Hs. unfold strip_by, rstrip_by in *.
    destruct (drop_while P (rev (lstrip_by P s))) as [|a y] eqn:Hy; [done|].
    apply drop_while_head in Hy. simpl. by rewrite last_last.
Qed.

Lemma strip_trimmed (s : pystr) : trimmed (strip s).
Proof.
  unfold trimmed, strip.
  destruct (strip_by_trimmed is_space s) as [-> | H]; [done | exact H].
Qed.

Lemma rstrip_by_keeps (P : N → bool) (p r : pystr) :
  p ≠ [] → P (List.last p 0%N) = false →
  ∃ r', rstrip_by P (p ++ r) = p ++ r'.
Proof.
  intros Hp Hl. unfold rstrip_by. rewrite rev_app_distr, drop_while_app.
  destruct (drop_while P (rev r)) as [|c y] eqn:Hy.
  - exists []. rewrite app_nil_r.
    destruct (exists_last Hp) as (q & d & ->).
    rewrite last_last in Hl. rewrite rev_app_distr. simpl. rewrite Hl.
    by rewrite <- (rev_involutive q), <- rev_unit, rev_involutive.
  - exists (rev (c :: y)). by rewrite rev_app_distr, rev_involutive.
Qed.

Lemma strip_keeps_prefix (p r : pystr) :
  p ≠ [] → is_space (List.hd 0%N p) = false →
  is_space (List.last p 0%N) = false →
  ∃ r', strip (p ++ r) = p ++ r'.
Proof.
  intros Hp Hh Hl. unfold strip, strip_by, lstrip_by.
  destruct p as [|c p]; [done|]. simpl in Hh.
  change ((c :: p) ++ r) with (c :: (p ++ r)). cbn [drop_while]. rewrite Hh.
  change (c :: (p ++ r)) with ((c :: p) ++ r). by apply rstrip_by_keeps.
Qed.

Lemma first_item_split (sep : N) (s : pystr) :
  first_item (split sep (Some 1%nat) s) = (span (λ c, negb (c =? sep)%N) s).1.
Proof.
  induction s as [|c s IH]; [done|]. cbn [split span].
  destruct (c =? sep)%N; simpl; [done|].
  destruct (split sep (Some 1%nat) s) as [|seg segs];
    destruct (span _ s) as [m rest]; simpl in *; by rewrite <- IH.
Qed.

Lemma span_prefix (P : N → bool) (p r : pystr) :
  Forall (λ c, P c = true) p → (span P (p ++ r)).1 = p ++ (span P r).1.
Proof.
  induction 1 as [|c p Hc _ IH]; simpl; [done|]. rewrite Hc.
  destruct (span P (p ++ r)) as [m rest]. simpl in *. by rewrite IH.
Qed.

Lemma contains_single_absent (c : N) (s : pystr) :
  Forall (λ x, negb (x =? c)%N = true) s → contains [c] s = false.
Proof.
  induction 1 as [|x s Hx _ IH]; [done|]. cbn [contains prefix_b].
  apply negb_true_iff in Hx. rewrite N.eqb_sym in Hx. by rewrite Hx, IH.
Qed.

Lemma join_trimmed (pieces : list pystr) :
  Forall (λ s, s ≠ [] ∧ trimmed s) pieces → trimmed (join (py " ") pieces).
Proof.
  assert (∀ (a b : pystr), a ≠ [] →
            List.hd 0%N (a ++ b) = List.hd 0%N a) as Hhd
    by (by intros [|] ?).
  assert (∀ (a b : pystr), b ≠ [] →
            List.last (a ++ b) 0%N = List.last b 0%N) as Hlast.
  { intros a b Hb. destruct (exists_last Hb) as (q & d & ->).
    by rewrite app_assoc, !last_last. }
  induction 1 as [|s rest [Hs [Hh Hl]] Hrest IH]; [done|].
  destruct rest as [|s' rest]; [done|].
  change (join (py " ") (s :: s' :: rest))
    with (s ++ py " " ++ join (py " ") (s' :: rest)).
  inversion Hrest as [|? ? [Hs' _] _]; subst.
  assert (join (py " ") (s' :: rest) ≠ []) as Hne.
  { destruct rest; simpl; [done|]. by destruct s'. }
  destruct IH as [_ IHl]. split.
  - by rewrite Hhd.
  - rewrite Hlast by (by destruct s). rewrite Hlast; done.
Qed.

Lemma stripped_strings_trimmed (strings : list pystr) :
  Forall (λ s, s ≠ [] ∧ trimmed s) (stripped_strings strings).
Proof.
  unfold stripped_strings. apply Forall_forall. intros s Hs.
  apply list_elem_of_In in Hs. apply filter_In in Hs as [Hin Ht].
  apply in_map_iff in Hin as (x & <- & _).
  split; [by destruct (strip x) | apply strip_trimmed].
Qed.

Lemma link_url_shape (prefix : pystr) (a : Anchor) :
  prefix ≠ [] → is_space (List.hd 0%N prefix) = false →
  is_space (List.last prefix 0%N) = false →
  startswith (href a) prefix = true →
  ∃ r, strip (href a) = prefix ++ r.
Proof.
  intros Hp Hh Hl Hs. apply prefix_b_inv in Hs. rewrite Hs.
  by apply strip_keeps_prefix.
Qed.

Lemma extract_records_elem (soup : Soup) (rec : record) :
  rec ∈ extract_records soup →
  ∃ item, item ∈ results soup ∧ extract_record item = Some rec.
Proof.
  unfold extract_records. induction (results soup) as [|item items IH]; simpl.
  - by intros ?%not_elem_of_nil.
  - destruct (extract_record item) as [r|] eqn:Hr.
    + intros [-> | Hin]%elem_of_cons.
      * exists item. split; [by left | done].
      * destruct (IH Hin) as (it & Hit & Hrec). exists it.
        split; [by right | done].
    + intros Hin. destruct (IH Hin) as (it & Hit & Hrec). exists it.
      split; [by right | done].
Qed.

Lemma shaped_record (i u t : pystr) (pdf : option pystr) :
  i ≠ [] → startswith u abs_prefix = true → trimmed u → trimmed t →
  (∀ p, pdf = Some p →
        p ≠ [] ∧ startswith p pdf_prefix = true ∧
        (endswith p (py ".pdf") = true ∨ contains (py "?") p = false)) →
  let base : record :=
    <["id" := i]> (<["title" := t]> (<["abs_url" := u]> ∅)) in
  shaped (match pdf with Some p => <["pdf_url" := p]> base | None => base end).
Proof.
  intros Hi Hu Hut Ht Hpdf base.
  assert (∀ key, is_Some (base !! key) →
                 key ∈ ["id"; "title"; "abs_url"; "pdf_url"]) as Hkeys.
  { intros key [v Hv]. subst base.
    destruct (decide (key = "id")) as [->|]; [by left|].
    destruct (decide (key = "title")) as [->|]; [right; by left|].
    destruct (decide (key = "abs_url")) as [->|]; [right; right; by left|].
    by rewrite !lookup_insert_ne, lookup_empty in Hv. }
  destruct pdf as [p|].
  - split; [exists i; split; [by simplify_map_eq | done]|].
    split; [exists u; split; [by simplify_map_eq | done]|].
    split; [exists t; split; [by simplify_map_eq | done]|].
    split.
    + intros p' Hp'. rewrite lookup_insert_eq in Hp'. injection Hp' as <-.
      by apply Hpdf.
    + intros key Hkey.
      destruct (decide (key = "pdf_url")) as [->|Hne]; [do 3 right; by left|].
      rewrite lookup_insert_ne in Hkey by done. by apply Hkeys.
  - split; [exists i; split; [by simplify_map_eq | done]|].
    split; [exists u; split; [by simplify_map_eq | done]|].
    split; [exists t; split; [by simplify_map_eq | done]|].
    split; [|done].
    intros p Hp. subst base.
    by rewrite !lookup_insert_ne, lookup_empty in Hp.
Qed.

Lemma extract_record_shaped (item : ResultItem) (rec : record) :
  extract_record item = Some rec → shaped rec.
Proof.
  intros Hrec.
  destruct (extract_record_id item rec Hrec) as (a & Ha & _).
  pose proof (select_link_prefix _ _ _ Ha) as Hpre.
  revert Hrec. unfold extract_record. rewrite Ha.
  set (title := match title_el item with Some _ => _ | None => _ end).
  assert (trimmed title) as Htitle.
  { subst title. destruct (title_el item) as [strings|]; [|done].
    apply join_trimmed, stripped_strings_trimmed. }
  destruct (link_url_shape abs_prefix a) as (r & Habs); [done..|].
  assert (startswith (strip (href a)) abs_prefix = true) as Hau
    by (rewrite Habs; apply prefix_b_app).
  pose proof (strip_trimmed (href a)) as Hat.
  pose proof (identifier_of_nonempty a Hpre) as Hid.
  destruct (select_link pdf_prefix _) as [pdf_el|] eqn:Hpdf.
  2: { intros [= <-].
       by apply (shaped_record (identifier_of a) (strip (href a)) title None). }
  pose proof (select_link_prefix _ _ _ Hpdf) as Hpp.
  destruct (link_url_shape pdf_prefix pdf_el) as (q & Hq); [done..|].
  rewrite Hq.
  assert (truthy (pdf_prefix ++ q) = true) as -> by done.
  destruct (endswith (pdf_prefix ++ q) (py ".pdf")) eqn:Hend; cbn [andb negb].
  - assert (truthy (pdf_prefix ++ q) = true) as -> by done.
    intros [= <-].
    apply (shaped_record (identifier_of a) (strip (href a)) title
             (Some (pdf_prefix ++ q))); try done.
    intros p Hp. assert (p = pdf_prefix ++ q) as -> by congruence.
    split; [done|]. split; [apply prefix_b_app | by left].
  - rewrite first_item_split, span_prefix by (by repeat constructor).
    assert (truthy (pdf_prefix ++ (span (λ c, negb (c =? 63)%N) q).1) = true)
      as -> by done.
    intros [= <-].
    apply (shaped_record (identifier_of a) (strip (href a)) title
             (Some (pdf_prefix ++ (span (λ c, negb (c =? 63)%N) q).1)));
      try done.
    intros p Hp.
    assert (p = pdf_prefix ++ (span (λ c, negb (c =? 63)%N) q).1) as ->
      by congruence.
    split; [done|]. split; [apply prefix_b_app|]. right.
    apply contains_single_absent, Forall_app. split; [by repeat constructor|].
    by destruct (span_split (λ c, negb (c =? 63)%N) q) as (_ & H & _).
Qed.

(** X8.  Every record [extract_records] returns has a non-empty [id], an
    [abs_url] that starts with [https://arxiv.org/abs/] and has no
    whitespace around it, and a [title] without whitespace at its ends.
    Its [pdf_url], when there is one, is not empty, starts with
    [https://arxiv.org/pdf/], and either ends in [.pdf] or holds no
    question mark.  It has no other key. *)
Theorem extracted_record_shape (soup : Soup) (rec : record) :
  rec ∈ extract_records soup →
  (∃ i, rec !! "id" = Some i ∧ i ≠ []) ∧
  (∃ u, rec !! "abs_url" = Some u ∧ startswith u abs_prefix = true ∧ trimmed u) ∧
  (∃ t, rec !! "title" = Some t ∧ trimmed t) ∧
  (∀ p, rec !! "pdf_url" = Some p →
        p ≠ [] ∧ startswith p pdf_prefix = true ∧
        (endswith p (py ".pdf") = true ∨ contains (py "?") p = false)) ∧
  (∀ key, is_Some (rec !! key) →
          key ∈ ["id"; "title"; "abs_url"; "pdf_url"]).
Proof.
  intros (item & _ & Hrec)%extract_records_elem.
  exact (extract_record_shaped item rec Hrec).
Qed.

Lemma extracted_record_shape_witness :
  extract_records Cases.query_page = [Cases.query_record] ∧
  ∀ p, Cases.query_record !! "pdf_url" = Some p →
       contains (py "?") p = false.
Proof.
  assert (extract_records Cases.query_page = [Cases.query_record]) as Hpage
    by (vm_compute; reflexivity).
  split; [exact Hpage|].
  destruct (extracted_record_shape Cases.query_page Cases.query_record)
    as (_ & _ & _ & Hpdf & _); [rewrite Hpage; by left|].
  intros p Hp. destruct (Hpdf p Hp) as (_ & _ & [Hend | Hq]); [|exact Hq].
  assert (p = py "https://arxiv.org/pdf/2101.00001v2") as ->
    by (vm_compute in Hp; injection Hp as <-; reflexivity).
  vm_compute in Hend. discriminate.
Defined.

(** X9.  A summary written with a hyphen between the bounds is read.  When
    the text of a paragraph starts with [Showing m-n of t results], with
    [m] and [n] made of decimal digits and [t] of decimal digits and
    commas, and no earlier paragraph of the page (those of the result
    items are paragraphs of the page) holds both words and a match of the
    pattern, the total is the number [t] spells once its commas are
    removed, the digits read by their value whatever their script; and a
    [ValueError] is raised when nothing is left of [t] or more than 4300
    digits are. *)
Theorem hyphen_summary_read (before after : list (list pystr))
    (strings : list pystr) (items : list ResultItem) (m n t rest : pystr) :
  m ≠ [] → Forall (λ c, is_digit c = true) m →
  n ≠ [] → Forall (λ c, is_digit c = true) n →
  t ≠ [] → Forall (λ c, is_digit c || (c =? 44)%N = true) t →
  get_text_strip strings = hyphen_text m n t ++ rest →
  Forall (λ element,
            contains (py "Showing") (get_text_strip element) &&
            contains (py "results") (get_text_strip element) = false ∨
            result_count_search (get_text_strip element) = None) before →
  extract_total_results
    {| paragraphs := before ++ strings :: after; results := items |}
  = match int_of (replace (py ",") [] t) with
    | Some total => Ok (Some total)
    | None => Raise ValueError
    end.
Proof.
  intros Hm Dm Hn Dn Ht Dt Htext Hbefore.
  unfold extract_total_results. cbn [paragraphs].
  rewrite first_total_skip by done. cbn [first_total]. rewrite Htext.
  destruct (hyphen_text_words m n t rest) as [-> ->]. cbn [andb].
  by rewrite (result_count_search_at _ t) by (by apply result_count_at_hyphen).
Qed.

Lemma hyphen_summary_read_witness :
  extract_total_results
    {| paragraphs :=
         [ [py "Search"]; [py "Showing results"];
           [py "  Showing 51-100 of 12,345 results for all: q "];
           [py "Showing 1-2 of 7 results"] ];
       results := [] |}
  = Ok (Some 12345).
Proof.
  apply (hyphen_summary_read [[py "Search"]; [py "Showing results"]]
           [[py "Showing 1-2 of 7 results"]]
           [py "  Showing 51-100 of 12,345 results for all: q "] []
           (py "51") (py "100") (py "12,345") (py " for all: q")).
  - done.
  - by repeat constructor.
  - done.
  - by repeat constructor.
  - done.
  - by repeat constructor.
  - by vm_compute.
  - constructor; [left; by vm_compute|].
    constructor; [right; by vm_compute | constructor].
Defined.

(** The title of a result item is a paragraph of the page: when the
    summary is not read, a title that reads as one gives the total. *)
Example title_read_as_summary :
  extract_total_results
    {| paragraphs :=
         [Samples.en_dash_summary] ::
         item_paragraphs (Samples.item "2101.00001" "Showing 1-5 of 7 results");
       results := [Samples.item "2101.00001" "Showing 1-5 of 7 results"] |}
  = Ok (Some 7).
Proof. by vm_compute. Qed.

(** Digits of another script are digits of the pattern and of [int]: a
    summary in Arabic-Indic digits is read. *)
Example arabic_indic_summary_read :
  extract_total_results
    (Samples.summary_page
       (py "Showing " ++ [1633%N] ++ py "-" ++ [1634%N] ++ py " of " ++
        [1635%N] ++ py " results"))
  = Ok (Some 3).
Proof. by vm_compute. Qed.

Lemma digits_value_bound (s : pystr) (acc n : Z) :
  0 ≤ acc → digits_value acc s = Some n → 0 ≤ n.
Proof.
  revert acc. induction s as [|c s IH]; intros acc Hacc; simpl.
  - by intros [= <-].
  - destruct (decimal_value c) as [d|] eqn:Hc; [|done]. apply IH.
    apply decimal_value_range in Hc as [Hd _]. lia.
Qed.

Lemma many1_some (P : N → bool) (s m rest : pystr) :
  many1 P s = Some (m, rest) → m ≠ [] ∧ Forall (λ c, P c = true) m.
Proof.
  unfold many1. pose proof (span_split P s) as (_ & Hm & _).
  destruct (span P s) as [m' rest']. cbn [fst] in Hm.
  destruct m' as [|c m']; cbn [truthy]; [done|]. by intros [= <- <-].
Qed.

(** Group 1 of a match is a non-empty string of decimal digits and
    commas. *)
Lemma result_count_at_group (s g : pystr) :
  result_count_at s = Some g →
  g ≠ [] ∧ Forall (λ c, is_digit c || (c =? 44)%N = true) g.
Proof.
  unfold result_count_at.
  destruct (lit_ci (py "Showing") s) as [s1|]; cbn [mbind option_bind]; [|done].
  destruct (many1 is_space s1) as [[x1 s2]|]; cbn [mbind option_bind]; [|done].
  destruct (many1 is_digit s2) as [[x2 s3]|]; cbn [mbind option_bind]; [|done].
  destruct (match lit_ci (py "&ndash;") (many is_space s3) with
            | Some r => Some r
            | None => lit_ci (py "-") (many is_space s3)
            end) as [s4|]; cbn [mbind option_bind]; [|done].
  destruct (many1 is_digit (many is_space s4)) as [[x3 s5]|];
    cbn [mbind option_bind]; [|done].
  destruct (many1 is_space s5) as [[x4 s6]|]; cbn [mbind option_bind]; [|done].
  destruct (lit_ci (py "of") s6) as [s7|]; cbn [mbind option_bind]; [|done].
  destruct (many1 is_space s7) as [[x5 s8]|]; cbn [mbind option_bind]; [|done].
  destruct (many1 (λ c, is_digit c || (c =? 44)%N) s8) as [[total s9]|] eqn:Ht;
    cbn [mbind option_bind]; [|done].
  destruct (many1 is_space s9) as [[x6 s10]|]; cbn [mbind option_bind]; [|done].
  destruct (lit_ci (py "results") s10) as [s11|]; cbn [mbind option_bind];
    [|done].
  intros [= <-]. by apply many1_some in Ht.
Qed.

Lemma result_count_search_group (s g : pystr) :
  result_count_search s = Some g →
  g ≠ [] ∧ Forall (λ c, is_digit c || (c =? 44)%N = true) g.
Proof.
  induction s as [|c s IH]; cbn [result_count_search].
  - destruct (result_count_at []) as [g'|] eqn:Hat; [|done].
    intros [= <-]. by apply (result_count_at_group []).
  - destruct (result_count_at (c :: s)) as [g'|] eqn:Hat; [|exact IH].
    intros [= <-]. by apply (result_count_at_group (c :: s)).
Qed.

(** Removing the commas leaves the other characters. *)
Lemma replace_commas (s : pystr) :
  replace (py ",") [] s = List.filter (λ c, negb (c =? 44)%N) s.
Proof.
  unfold replace. induction s as [|c s IH]; [done|].
  cbn [replace_from List.filter].
  change (prefix_b (py ",") (c :: s)) with ((44 =? c)%N && true).
  rewrite andb_true_r, (N.eqb_sym 44 c).
  destruct (c =? 44)%N; cbn [negb]; [exact IH | by rewrite IH].
Qed.

(** What [int] is given holds decimal digits only. *)
Lemma group_digits (g : pystr) :
  Forall (λ c, is_digit c || (c =? 44)%N = true) g →
  Forall (λ c, is_digit c = true) (replace (py ",") [] g).
Proof.
  rewrite replace_commas. induction 1 as [|c g Hc _ IH]; [constructor|].
  cbn [List.filter]. destruct (c =? 44)%N; cbn [negb]; [done|].
  constructor; [|done]. by rewrite orb_false_r in Hc.
Qed.

Lemma digits_value_some (s : pystr) (acc : Z) :
  Forall (λ c, is_digit c = true) s → is_Some (digits_value acc s).
Proof.
  intros Hs. revert acc. induction Hs as [|c s Hc _ IH]; intros acc.
  - by eexists.
  - cbn [digits_value]. unfold is_digit in Hc.
    destruct (decimal_value c) as [d|]; [apply IH | done].
Qed.

(** On decimal digits [int] fails on the empty string and on more than
    [int_max_str_digits] digits, and not otherwise. *)
Lemma int_of_none (s : pystr) :
  Forall (λ c, is_digit c = true) s →
  int_of s = None ↔ s = [] ∨ int_max_str_digits < Z.of_nat (length s).
Proof.
  intros Hs. unfold int_of. destruct s as [|c s]; [by split; [left|]|].
  destruct (int_max_str_digits <? Z.of_nat (length (c :: s))) eqn:Hlen.
  - apply Z.ltb_lt in Hlen. by split; [right|].
  - apply Z.ltb_ge in Hlen.
    destruct (digits_value_some (c :: s) 0 Hs) as [n ->].
    split; [done | intros [? | ?]; [done | lia]].
Qed.

(** Where the result of [first_total] comes from. *)
Lemma first_total_source (counters : list (list pystr)) :
  first_total counters = Ok None ∨
  ∃ element group1,
    element ∈ counters ∧
    contains (py "Showing") (get_text_strip element) = true ∧
    contains (py "results") (get_text_strip element) = true ∧
    result_count_search (get_text_strip element) = Some group1 ∧
    first_total counters =
      match int_of (replace (py ",") [] group1) with
      | Some n => Ok (Some n)
      | None => Raise ValueError
      end.
Proof.
  induction counters as [|element rest IH]; [by left|]. cbn [first_total].
  assert (first_total rest = Ok None ∨
          ∃ el group1,
            el ∈ element :: rest ∧
            contains (py "Showing") (get_text_strip el) = true ∧
            contains (py "results") (get_text_strip el) = true ∧
            result_count_search (get_text_strip el) = Some group1 ∧
            first_total rest =
              match int_of (replace (py ",") [] group1) with
              | Some n => Ok (Some n)
              | None => Raise ValueError
              end) as IH'.
  { destruct IH as [? | (el & g & Hel & H)]; [by left|].
    right. exists el, g. split; [by right | done]. }
  destruct (contains (py "Showing") _) eqn:Hs; [|done].
  destruct (contains (py "results") _) eqn:Hr; [|done]. cbn [andb].
  destruct (result_count_search _) as [group1|] eqn:Hg; [|done].
  right. exists element, group1. split; [by left|]. by repeat split.
Qed.

(** X10.  Where the total of a page comes from.  A total that
    [extract_total_results] returns is never negative; it is read from a
    paragraph whose text holds both [Showing] and [results], spelled so,
    and a match of the pattern, whose group 1 is a non-empty string of
    decimal digits and commas, and it is what [int] makes of the digits.
    The only exception the function raises is [ValueError], and it raises
    it exactly on such a paragraph whose group 1 holds commas only or more
    than 4300 digits.  A page none of whose paragraphs holds both words
    gives no total, whatever else it holds. *)
Theorem extract_total_results_cases (soup : Soup) :
  (∀ n, extract_total_results soup = Ok (Some n) →
        0 ≤ n ∧
        ∃ element, element ∈ paragraphs soup ∧
          contains (py "Showing") (get_text_strip element) = true ∧
          contains (py "results") (get_text_strip element) = true ∧
          ∃ group1,
            result_count_search (get_text_strip element) = Some group1 ∧
            group1 ≠ [] ∧
            Forall (λ c, is_digit c || (c =? 44)%N = true) group1 ∧
            Forall (λ c, is_digit c = true) (replace (py ",") [] group1) ∧
            int_of (replace (py ",") [] group1) = Some n) ∧
  (∀ e, extract_total_results soup = Raise e →
        e = ValueError ∧
        ∃ element group1, element ∈ paragraphs soup ∧
          contains (py "Showing") (get_text_strip element) = true ∧
          contains (py "results") (get_text_strip element) = true ∧
          result_count_search (get_text_strip element) = Some group1 ∧
          (replace (py ",") [] group1 = [] ∨
           int_max_str_digits
             < Z.of_nat (length (replace (py ",") [] group1)))) ∧
  (Forall (λ element,
             contains (py "Showing") (get_text_strip element) &&
             contains (py "results") (get_text_strip element) = false)
          (paragraphs soup) →
   extract_total_results soup = Ok None).
Proof.
  unfold extract_total_results.
  destruct (first_total_source (paragraphs soup))
    as [Hnone | (element & group1 & Hin & Hs & Hr & Hg & Hout)].
  { rewrite Hnone. split; [done|]. split; [done|]. by intros _. }
  destruct (result_count_search_group _ _ Hg) as [Hne Hclass].
  pose proof (group_digits group1 Hclass) as Hdigits.
  split; [|split].
  - rewrite Hout. intros n Hn.
    destruct (int_of (replace (py ",") [] group1)) as [n'|] eqn:Hint; [|done].
    injection Hn as ->. split.
    + unfold int_of in Hint.
      destruct (replace (py ",") [] group1) as [|c digits]; [done|].
      destruct (int_max_str_digits <? _); [done|].
      by apply (digits_value_bound _ 0 n) in Hint.
    + exists element. split; [done|]. split; [done|]. split; [done|].
      by exists group1.
  - rewrite Hout. intros e He.
    destruct (int_of (replace (py ",") [] group1)) as [n'|] eqn:Hint; [done|].
    injection He as <-. split; [done|].
    exists element, group1. split; [done|]. split; [done|]. split; [done|].
    split; [done|]. by apply int_of_none.
  - clear. induction 1 as [|element rest Hel _ IH]; [done|].
    cbn [first_total]. by rewrite Hel.
Qed.

Lemma extract_total_results_cases_witness :
  extract_total_results
    (Samples.page "Sorry, your query returned no results" []) = Ok None ∧
  ∃ element,
    element ∈ paragraphs (Samples.summary_page Samples.hyphen_summary) ∧
    contains (py "Showing") (get_text_strip element) = true.
Proof.
  split.
  - destruct (extract_total_results_cases
                (Samples.page "Sorry, your query returned no results" []))
      as (_ & _ & Hnone).
    apply Hnone. by repeat constructor.
  - destruct (extract_total_results_cases
                (Samples.summary_page Samples.hyphen_summary)) as (Hsome & _).
    destruct (Hsome 1234) as (_ & element & Hin & Hshow & _);
      [vm_compute; reflexivity|].
    by exists element.
Defined.

(** A total of more than 4300 digits is matched and then refused by
    [int]. *)
Example long_total_raises :
  extract_total_results
    (Samples.summary_page
       (py "Showing 1-50 of " ++ List.repeat 57%N 4301 ++ py " results"))
  = Raise ValueError ∧
  extract_total_results
    (Samples.summary_page
       (py "Showing 1-50 of " ++ List.repeat 48%N 4299 ++ py "7 results"))
  = Ok (Some 7).
Proof. by vm_compute. Qed.

(** * Further properties of slugs *)

Lemma slug_char_not_space (c : N) : slug_char c = true → is_space c = false.
Proof.
  intros Hc. destruct (is_space c) eqn:Hs; [exfalso|done].
  unfold slug_char, is_upper, is_lower, is_ascii_digit in Hc.
  unfold is_space in Hs.
  repeat match goal with
         | H : _ || _ = true |- _ => apply orb_prop in H as [H | H]
         | H : _ && _ = true |- _ => apply andb_prop in H as [H ?]
         | H : (_ <=? _)%N = true |- _ => apply N.leb_le in H
         | H : (_ =? _)%N = true |- _ => apply N.eqb_eq in H
         end; lia.
Qed.

Lemma sub_spaces_from_fixed b (s : pystr) :
  Forall (λ c, is_space c = false) s → sub_spaces_from b s = s.
Proof.
  intros Hs. revert b. induction Hs as [|c s Hc _ IH]; intros b; simpl; [done|].
  by rewrite Hc, IH.
Qed.

Lemma sub_unsafe_fixed (s : pystr) :
  Forall (λ c, slug_char c = true) s → sub_unsafe s = s.
Proof.
  unfold sub_unsafe. induction 1 as [|c s Hc _ IH]; simpl; [done|].
  by rewrite Hc, IH.
Qed.

Lemma slugify_safe (v : pystr) : safe_name (slugify v).
Proof.
  split; [apply slugify_nonempty|]. split; [apply slugify_class|].
  apply slugify_ends.
Qed.

Lemma slugify_fixed (v : pystr) : safe_name v → slugify v = v.
Proof.
  intros (Hne & Hclass & Hhd & Hlast). unfold slugify.
  assert (Forall (λ c, is_space c = false) v) as Hnospace.
  { eapply Forall_impl; [exact Hclass|]. apply slug_char_not_space. }
  assert (strip v = v) as ->.
  { apply strip_by_fixed; [| |done].
    - destruct v as [|c v]; [done|]. by inversion Hnospace.
    - destruct (exists_last Hne) as (q & d & ->). rewrite last_last.
      apply Forall_app in Hnospace as [_ Hd]. by inversion Hd. }
  unfold sub_spaces. rewrite sub_spaces_from_fixed, sub_unsafe_fixed by done.
  rewrite strip_by_fixed by done. by destruct v.
Qed.

(** X11.  [slugify] leaves a name unchanged exactly when the name is not
    empty, holds characters of [[A-Za-z0-9_.-]] only and neither starts
    nor ends with an underscore or a dot; its results are such names, so
    applying it (or [sanitize_filename]) twice is applying it once. *)
Theorem slugify_fixed_points :
  (∀ v, slugify v = v ↔ safe_name v) ∧
  (∀ v, slugify (slugify v) = slugify v) ∧
  (∀ v, sanitize_filename (sanitize_filename v) = sanitize_filename v).
Proof.
  assert (∀ v, slugify (slugify v) = slugify v) as Hidem
    by (intros v; apply slugify_fixed, slugify_safe).
  split; [|by split].
  intros v. split; [|apply slugify_fixed].
  intros Hv. rewrite <- Hv. apply slugify_safe.
Qed.

Lemma slugify_fixed_points_witness :
  slugify (py "2101.00001v2") = py "2101.00001v2" ∧
  ¬ safe_name (py "hep-th/9901001") ∧
  slugify (py "hep-th/9901001") = py "hep-th_9901001".
Proof.
  destruct slugify_fixed_points as (Hfixed & _ & _).
  split; [|split; [|reflexivity]].
  - apply Hfixed. split; [done|]. split; [|by split].
    repeat constructor.
  - intros Hsafe. apply Hfixed in Hsafe. vm_compute in Hsafe. discriminate.
Defined.

(** * Further properties of the archiver *)

Lemma join_snoc (sep : pystr) (ps : list pystr) (name : pystr) :
  ps ≠ [] → join sep (ps ++ [name]) = join sep ps ++ sep ++ name.
Proof.
  induction ps as [|a ps IH]; [done|]. intros _.
  destruct ps as [|b ps]; [done|].
  change (join sep ((a :: b :: ps) ++ [name]))
    with (a ++ sep ++ join sep ((b :: ps) ++ [name])).
  rewrite IH by done.
  change (join sep (a :: b :: ps)) with (a ++ sep ++ join sep (b :: ps)).
  by rewrite <- !app_assoc.
Qed.

Lemma path_str_div (p : Path) (name : pystr) :
  parts p ≠ [] → path_str (path_div p name) = path_str p ++ py "/" ++ name.
Proof.
  destruct p as [abs ps]. cbn [parts]. intros Hp.
  unfold path_str, path_div. cbn [absolute parts].
  destruct ps as [|a ps]; [done|].
  pose proof (join_snoc (py "/") (a :: ps) name Hp) as Hj.
  change ((a :: ps) ++ [name]) with (a :: (ps ++ [name])) in *.
  destruct abs; cbv beta iota; rewrite Hj; by rewrite <- ?app_assoc.
Qed.

Lemma path_div_stem (p : Path) :
  ∃ stem, ∀ name, path_str (path_div p name) = stem ++ name.
Proof.
  destruct (parts p) as [|a ps] eqn:Hparts.
  - exists (if absolute p then py "/" else []). intros name.
    unfold path_str, path_div. simpl. rewrite Hparts. simpl.
    by destruct (absolute p).
  - exists (path_str p ++ py "/"). intros name.
    rewrite path_str_div by (by rewrite Hparts). by rewrite <- app_assoc.
Qed.

Lemma destination_of_inj (data_dir : Path) (i j : pystr) :
  destination_of data_dir i = destination_of data_dir j ↔
  sanitize_filename i = sanitize_filename j.
Proof.
  unfold destination_of. destruct (path_div_stem data_dir) as (stem & Hstem).
  rewrite !Hstem. split.
  - intros H. apply app_inv_head in H. by apply app_inv_tail in H.
  - by intros ->.
Qed.

(** X12.  Two records get the same destination file exactly when their
    ids are sanitized to the same name.  Of two such records in a batch,
    once the artifact of the first is there the second is given the same
    path without any request of its own. *)
Theorem destinations_collide :
  (∀ (data_dir : Path) (r1 r2 : record),
     destination data_dir r1 = destination data_dir r2 ↔
     sanitize_filename (default [] (r1 !! "id"))
       = sanitize_filename (default [] (r2 !! "id"))) ∧
  (∀ (w : World) (data_dir : Path) (st : gmap pystr File * list Download)
     (r1 r2 : record),
     wanted r1 → wanted r2 → succeeds w data_dir r1 →
     sanitize_filename (default [] (r1 !! "id"))
       = sanitize_filename (default [] (r2 !! "id")) →
     let out := download_papers w data_dir st [r1; r2] in
     out.2 = None ∧
     out.1.2 = [ <["pdf_local_path" := destination data_dir r1]> r1;
                 <["pdf_local_path" := destination data_dir r1]> r2 ] ∧
     (out.1.1.2 = st.2 ∨ out.1.1.2 = st.2 ++ [artifact_request r1])).
Proof.
  split; [intros; apply destination_of_inj|].
  intros w data_dir st r1 r2 Hw1 Hw2 Hok Hslug out. subst out.
  assert (destination data_dir r2 = destination data_dir r1) as Hdest
    by (by apply destination_of_inj).
  destruct (download_one_succeeds w data_dir st r1 Hw1 Hok)
    as (st1 & Hone & Hfile & _).
  assert (st1.2 = st.2 ∨ st1.2 = st.2 ++ [artifact_request r1]) as Hlog.
  { destruct (download_one_files w data_dir st r1) as (_ & _ & Hl).
    rewrite Hone in Hl. cbn [fst snd] in Hl.
    destruct Hl as [? | (? & _)]; [by left | by right]. }
  destruct Hok as [[Hdir _] _].
  unfold download_papers. rewrite Hdir. cbn [download_each].
  rewrite Hone. rewrite (download_one_exists w data_dir st1 r2)
    by (by rewrite ?Hdest).
  cbn [fst snd]. by rewrite Hdest.
Qed.

Lemma destinations_collide_witness :
  let r1 : record :=
    <["id" := py "hep-th/9901001"]> (<["pdf_url" := py "https://arxiv.org/pdf/hep-th/9901001"]> ∅) in
  let r2 : record :=
    <["id" := py "hep-th_9901001"]> (<["pdf_url" := py "https://arxiv.org/pdf/hep-th_9901001"]> ∅) in
  let out := download_papers Samples.all_up Samples.data_dir Samples.no_files [r1; r2] in
  length out.1.1.2 = 1%nat ∧
  (λ r : record, r !! "pdf_local_path") <$> out.1.2
    = [Some (destination Samples.data_dir r1);
       Some (destination Samples.data_dir r1)].
Proof.
  intros r1 r2 out.
  destruct destinations_collide as [_ Hbatch].
  destruct (Hbatch Samples.all_up Samples.data_dir Samples.no_files r1 r2)
    as (_ & Hrecs & Hlog).
  - split; reflexivity.
  - split; reflexivity.
  - split; [split; reflexivity|].
    intros log. exists (py "%PDF-1.5"). split; reflexivity.
  - reflexivity.
  - fold out in Hrecs, Hlog. split; [vm_compute; reflexivity|].
    rewrite Hrecs. simpl. by rewrite !lookup_insert_eq.
Defined.

(** X13.  The archiver never removes or overwrites a file: whatever was in
    the directory is there afterwards with the same content, and every
    file that appears is at the destination of a record of the batch that
    has a document link and an id; and this whether the archiver returns
    or is left by an exception. *)
Theorem archiver_keeps_files (w : World) (data_dir : Path)
    (st : gmap pystr File * list Download) (records : list record) :
  let st' := (download_papers w data_dir st records).1.1 in
  (∀ p f, st.1 !! p = Some f → st'.1 !! p = Some f) ∧
  (∀ p, is_Some (st'.1 !! p) →
        is_Some (st.1 !! p) ∨
        ∃ rec, rec ∈ records ∧ wanted rec ∧ p = destination data_dir rec).
Proof.
  destruct (download_papers_files w data_dir records st) as (Hk & Hn & _).
  by split.
Qed.

(** X14.  The archiver sends at most one request for each record of the
    batch, in the order of the batch, and only for a record that has a
    document link and an id and whose destination file was not there when
    the pass began.  The request goes to the record's [pdf_url], with the
    record's [abs_url] as referer ([BASE_URL] when it has none) and
    [same-origin] as [Sec-Fetch-Site]. *)
Theorem archiver_requests (w : World) (data_dir : Path)
    (st : gmap pystr File * list Download) (records : list record) :
  ∃ new,
    (download_papers w data_dir st records).1.1.2 = st.2 ++ new ∧
    (length new ≤ length records)%nat ∧
    Forall (λ q, ∃ rec,
              rec ∈ records ∧ wanted rec ∧
              st.1 !! destination data_dir rec = None ∧
              rec !! "pdf_url" = Some (dl_url q) ∧ dl_url q ≠ [] ∧
              dl_headers q !! "Referer"
                = Some (default BASE_URL (rec !! "abs_url")) ∧
              dl_headers q !! "Sec-Fetch-Site" = Some (py "same-origin"))
           new.
Proof.
  destruct (download_papers_files w data_dir records st)
    as (_ & _ & new & Hlog & Hlen & Hnew).
  exists new. split; [done|]. split; [done|].
  eapply Forall_impl; [exact Hnew|]. cbv beta.
  intros q (rec & Hin & Hw & -> & Hnone). exists rec.
  split; [done|]. split; [done|]. split; [done|].
  destruct Hw as [Hurl _]. unfold artifact_request. simpl.
  by destruct (rec !! "pdf_url") as [[|c u]|].
Qed.

Lemma archiver_requests_witness :
  ∃ new,
    (download_papers Samples.second_down Samples.data_dir Samples.no_files
       Samples.batch).1.1.2 = new ∧
    length new = 3%nat ∧
    Forall (λ q, dl_headers q !! "Sec-Fetch-Site" = Some (py "same-origin")) new.
Proof.
  destruct (archiver_requests Samples.second_down Samples.data_dir
              Samples.no_files Samples.batch) as (new & Hlog & Hlen & Hnew).
  exists new. split; [exact Hlog|]. split.
  - assert (length (download_papers Samples.second_down Samples.data_dir
                      Samples.no_files Samples.batch).1.1.2 = 3%nat) as H
      by (vm_compute; reflexivity).
    rewrite Hlog in H. exact H.
  - eapply Forall_impl; [exact Hnew|]. cbv beta.
    by intros q (rec & _ & _ & _ & _ & _ & _ & Hsite).
Defined.

(** X15.  What the archiver writes on a record is true of the archive it
    leaves.  A record without a document link or without an id comes back
    as it was.  On a record that came without artifact fields, a
    [pdf_local_path] is the destination of that record and a file is there
    when the pass over the batch ends; a [pdf_download_error] is only put
    on a record whose destination file was missing when the pass began. *)
Theorem archiver_outcomes (w : World) (data_dir : Path)
    (records : list record) (st : gmap pystr File * list Download) :
  let out := download_papers w data_dir st records in
  Forall2 (λ rec rec',
             (¬ wanted rec → rec' = rec) ∧
             (fresh rec → ∀ p, rec' !! "pdf_local_path" = Some p →
                wanted rec ∧ p = destination data_dir rec ∧
                is_Some (out.1.1.1 !! p)) ∧
             (fresh rec → is_Some (rec' !! "pdf_download_error") →
                wanted rec ∧ st.1 !! destination data_dir rec = None))
          records out.1.2.
Proof. apply download_papers_outcomes. Qed.

Lemma base_parts (output_root : Path) (name : pystr) :
  parts (path_div output_root name) ≠ [].
Proof. unfold path_div. cbn [parts]. by destruct (parts output_root). Qed.

Lemma metadata_file_str (output_root : Path) (query : pystr) :
  path_str (metadata_file_of output_root query)
    = path_str (path_div output_root (slugify query))
        ++ py "/metadata/results.json".
Proof.
  unfold metadata_file_of.
  rewrite !path_str_div by apply base_parts.
  rewrite <- !app_assoc. f_equal.
Qed.

Lemma destination_str (output_root : Path) (query identifier : pystr) :
  destination_of (data_dir_of output_root query) identifier
    = path_str (path_div output_root (slugify query))
        ++ py "/data/" ++ sanitize_filename identifier ++ py ".pdf".
Proof.
  unfold destination_of, data_dir_of.
  rewrite !path_str_div by apply base_parts.
  rewrite <- !app_assoc. f_equal.
Qed.

Lemma metadata_not_destination (output_root : Path) (query identifier : pystr) :
  path_str (metadata_file_of output_root query)
    ≠ destination_of (data_dir_of output_root query) identifier.
Proof.
  rewrite metadata_file_str, destination_str. intros H.
  apply app_inv_head in H. discriminate H.
Qed.

(** The files [write_output] leaves are those the archiver left, the
    results file apart. *)
Lemma write_output_files (w : World) (now : pystr)
    (st : gmap pystr File * list Download) (records : list record)
    (output_root : Path) (query : pystr) (size : Z)
    (order searchtype abstracts source : pystr) :
  let out := write_output w now st records output_root query size order
               searchtype abstracts source in
  let archived := download_papers w (data_dir_of output_root query) st records in
  let results := path_str (metadata_file_of output_root query) in
  (∀ p f, p ≠ results → st.1 !! p = Some f → out.1.1.1 !! p = Some f) ∧
  (can_mkdir w (metadata_dir_of output_root query) = true →
   out.1.2 = archived.1.2 ∧ out.1.1.2 = archived.1.1.2 ∧
   ∀ p, p ≠ results → out.1.1.1 !! p = archived.1.1.1 !! p) ∧
  (can_mkdir w (metadata_dir_of output_root query) = false →
   out.1 = (st, records)).
Proof.
  intros out archived results. subst out.
  destruct (download_papers_files w (data_dir_of output_root query) records st)
    as (Hkeep & _ & _). fold archived in Hkeep.
  destruct (write_output_cases w now st records output_root query size order
              searchtype abstracts source)
    as [[Hno ->] | [(Hdir & _ & ->) | [(Hdir & _ & _ & ->)
       | (Hdir & _ & residue & message & files & _ & Hfiles & ->)]]];
    fold archived results; cbn [fst snd].
  - split; [done|]. split; [congruence | done].
  - split; [by auto|]. split; [done | congruence].
  - split; [|split; [|congruence]].
    + intros p f Hp Hf. rewrite lookup_insert_ne by done. by apply Hkeep.
    + intros _. split; [done|]. split; [done|].
      intros p Hp. by rewrite lookup_insert_ne.
  - destruct Hfiles as [-> | [partial ->]].
    + split; [by auto|]. split; [done | congruence].
    + split; [|split; [|congruence]].
      * intros p f Hp Hf. rewrite lookup_insert_ne by done. by apply Hkeep.
      * intros _. split; [done|]. split; [done|].
        intros p Hp. by rewrite lookup_insert_ne.
Qed.

(** X16.  [write_output] lays the archive out under [base = output_root /
    slug]: the results file is [base/metadata/results.json] and the
    artifact of an id is [base/data/name.pdf], never the results file.
    The call returns [base] exactly when the metadata directory can be
    made, the archiver returns and the results file can be written; the
    file then holds the records as the archiver left them, the parameters
    of the run and as [count] the number of records.  Otherwise the call
    is left by an [OSError].  Either way every other file that existed is
    kept as it was, and what the archiver downloaded stays in place. *)
Theorem write_output_layout (w : World) (now : pystr)
    (st : gmap pystr File * list Download) (records : list record)
    (output_root : Path) (query : pystr) (size : Z)
    (order searchtype abstracts source : pystr) :
  let out := write_output w now st records output_root query size order
               searchtype abstracts source in
  let base := path_div output_root (slugify query) in
  let data_dir := data_dir_of output_root query in
  let results := path_str (metadata_file_of output_root query) in
  let archived := download_papers w data_dir st records in
  let payload :=
    {| payload_metadata :=
         {| meta_query := query; meta_size := size; meta_order := order;
            meta_searchtype := searchtype; meta_abstracts := abstracts;
            meta_source := source; meta_retrieved_at := now;
            meta_count := Z.of_nat (length records) |};
       payload_records := archived.1.2 |} in
  results = path_str base ++ py "/metadata/results.json" ∧
  (∀ identifier,
     destination_of data_dir identifier
       = path_str base ++ py "/data/" ++ sanitize_filename identifier
           ++ py ".pdf" ∧
     destination_of data_dir identifier ≠ results) ∧
  (out.2 = Ok base ∨ out.2 = Raise OSError) ∧
  (out.2 = Ok base ↔
   can_mkdir w (metadata_dir_of output_root query) = true ∧
   archived.2 = None ∧ write_json w results payload = WriteOk) ∧
  (out.2 = Ok base →
   out.1.1.1 !! results = Some (Json payload) ∧
   out.1.2 = archived.1.2 ∧ out.1.1.2 = archived.1.1.2) ∧
  (∀ p f, p ≠ results → st.1 !! p = Some f → out.1.1.1 !! p = Some f) ∧
  (can_mkdir w (metadata_dir_of output_root query) = true →
   ∀ p, p ≠ results → out.1.1.1 !! p = archived.1.1.1 !! p).
Proof.
  intros out base data_dir results archived payload.
  split; [apply metadata_file_str|]. split.
  { intros identifier. split; [apply destination_str|].
    intros H. by apply (metadata_not_destination output_root query identifier). }
  destruct (write_output_files w now st records output_root query size order
              searchtype abstracts source) as (Hkeep & Hstay & _).
  fold out data_dir archived results in Hkeep, Hstay.
  assert ((out.2 = Ok base ∨ out.2 = Raise OSError) ∧
          (out.2 = Ok base ↔
           can_mkdir w (metadata_dir_of output_root query) = true ∧
           archived.2 = None ∧ write_json w results payload = WriteOk) ∧
          (out.2 = Ok base →
           out.1.1.1 !! results = Some (Json payload) ∧
           out.1.2 = archived.1.2 ∧ out.1.1.2 = archived.1.1.2))
    as (Hends & Hiff & Hok).
  { clear Hkeep Hstay. subst out base data_dir results archived payload.
    destruct (write_output_cases w now st records output_root query size order
                searchtype abstracts source)
      as [[Hno ->] | [(Hdir & Hraised & ->) | [(Hdir & Hnone & Hdump & ->)
         | (Hdir & Hnone & residue & message & files & Hdump & _ & ->)]]];
      cbn [fst snd].
    - split; [by right|]. split; [|done].
      split; [done | intros (? & _); congruence].
    - split; [by right|]. split; [|done].
      split; [done | intros (_ & ? & _); congruence].
    - split; [by left|]. split; [done|].
      intros _. by rewrite lookup_insert_eq.
    - split; [by right|]. split; [|done].
      split; [done | intros (_ & _ & ?); congruence]. }
  split; [done|]. split; [done|]. split; [done|]. split; [done|].
  intros Hdir. by apply Hstay.
Qed.

Lemma write_output_layout_witness :
  let out :=
    write_output Samples.short_names (py "2025-01-01T00:00:00+00:00")
      Samples.no_files Samples.long_batch Samples.output_root
      (py "quantum computing!!") 50 (py "-announced_date_first") (py "all")
      (py "show") (py "header") in
  out.2 = Raise OSError ∧
  is_Some (out.1.1.1 !! destination Samples.data_dir (Samples.paper "2101.00001")).
Proof.
  intros out.
  destruct (write_output_layout Samples.short_names
              (py "2025-01-01T00:00:00+00:00") Samples.no_files
              Samples.long_batch Samples.output_root (py "quantum computing!!")
              50 (py "-announced_date_first") (py "all") (py "show")
              (py "header")) as (_ & Hdest & Hends & Hiff & _ & _ & Hstay).
  fold out in Hends, Hiff, Hstay. split.
  - destruct Hends as [Hok | Hraised]; [|exact Hraised].
    apply Hiff in Hok as (_ & Hnone & _). vm_compute in Hnone. discriminate.
  - rewrite Hstay; [vm_compute; by eexists | reflexivity|].
    intros Heq. by apply (Hdest (py "2101.00001")).
Defined.

(** ** The session and the entry point *)

Lemma build_session_none (library environ : gmap string pystr) :
  build_session library environ = None ↔
  truthy_opt (environ !! "ARXIV_COOKIE") = false.
Proof.
  unfold build_session.
  by destruct (truthy_opt (environ !! "ARXIV_COOKIE")).
Qed.

Lemma build_session_some (library environ : gmap string pystr) h r s :
  build_session library environ = Some (h, r, s) →
  truthy_opt (environ !! "ARXIV_COOKIE") = true ∧
  h = <["Cookie" := default [] (environ !! "ARXIV_COOKIE")]>
        (session_defaults environ ∪ library) ∧
  r = environ !! "ARXIV_REFERER" ∧
  s = Some (getenv environ "ARXIV_SEC_FETCH_SITE" (py "cross-site")).
Proof.
  unfold build_session.
  destruct (truthy_opt (environ !! "ARXIV_COOKIE")); cbn [negb]; [|done].
  intros H. by simplify_eq.
Qed.

(** The ways through [main]. *)
Lemma main_cases (m : Machine) (args : Args) (fuel : nat) (run : Run) :
  main m args fuel = Some run →
  (truthy_opt (arg_query args) = false ∧
   run = {| printed := [usage_hint]; archive := (disk m, []);
            exchanges := []; exit := Finished |}) ∨
  (truthy_opt (arg_query args) = true ∧
   mkdir_returns m (default OUTPUT_DIR (arg_output args)) = false ∧
   run = {| printed := []; archive := (disk m, []); exchanges := [];
            exit := Uncaught OSError |}) ∨
  (truthy_opt (arg_query args) = true ∧
   mkdir_returns m (default OUTPUT_DIR (arg_output args)) = true ∧
   truthy_opt (environ m !! "ARXIV_COOKIE") = false ∧
   run = {| printed := []; archive := (disk m, []); exchanges := [];
            exit := MissingCookie |}) ∨
  ∃ session referer site stop st,
    truthy_opt (arg_query args) = true ∧
    mkdir_returns m (default OUTPUT_DIR (arg_output args)) = true ∧
    build_session (library_headers m) (environ m)
      = Some (session, referer, site) ∧
    collect_run (listing m session) (config_of args referer site) fuel
      = Some (stop, st) ∧
    ((∃ e, stop = Raised e ∧
           run = {| printed := []; archive := (disk m, []);
                    exchanges := trace st; exit := Uncaught e |}) ∨
     ((∀ e, stop ≠ Raised e) ∧ arg_dry_run args = true ∧
      run = {| printed :=
                 (py "Collected " ++
                  str_of_Z (Z.of_nat (length (collected st))) ++
                  py " records (dry-run, no files written).") ::
                 List.map (λ rec, str_get rec "id" ++ py ": " ++
                                  str_get rec "title")
                          (take 5 (collected st));
               archive := (disk m, []);
               exchanges := trace st; exit := Finished |}) ∨
     ((∀ e, stop ≠ Raised e) ∧ arg_dry_run args = false ∧
      let out :=
        write_output (world m session) (clock m) (disk m, []) (collected st)
          (default OUTPUT_DIR (arg_output args)) (default [] (arg_query args))
          (arg_size args) (arg_order args) (arg_searchtype args)
          (arg_abstracts args) (arg_source args) in
      ((∃ base_dir,
          out.2 = Ok base_dir ∧
          run = {| printed :=
                     [py "Archived " ++
                      str_of_Z (Z.of_nat (length (collected st))) ++
                      py " records under " ++ path_str base_dir];
                   archive := out.1.1;
                   exchanges := trace st; exit := Finished |}) ∨
       (∃ e,
          out.2 = Raise e ∧
          run = {| printed := []; archive := out.1.1;
                   exchanges := trace st; exit := Uncaught e |})))).
Proof.
  unfold main. cbv zeta. intros Hmain.
  destruct (truthy_opt (arg_query args)) eqn:Hq; cbn [negb] in Hmain;
    [|injection Hmain as <-; by left].
  right.
  destruct (mkdir_returns m (default OUTPUT_DIR (arg_output args))) eqn:Hroot;
    cbn [negb] in Hmain; [|injection Hmain as <-; by left].
  right.
  destruct (build_session (library_headers m) (environ m))
    as [[[session referer] site]|] eqn:Hs.
  2:{ injection Hmain as <-. left. by apply build_session_none in Hs. }
  destruct (collect_run (listing m session) (config_of args referer site) fuel)
    as [[stop st]|] eqn:Hrun; [|done].
  right. exists session, referer, site, stop, st.
  split; [done|]. split; [done|]. split; [done|]. split; [done|].
  assert ((∃ e, stop = Raised e) ∨ (∀ e, stop ≠ Raised e)) as [[e ->] | Hno]
    by (destruct stop; eauto).
  { left. exists e. split; [done|]. congruence. }
  right.
  assert (Some run =
          if arg_dry_run args then
            Some {| printed :=
                      (py "Collected " ++
                       str_of_Z (Z.of_nat (length (collected st))) ++
                       py " records (dry-run, no files written).") ::
                      List.map (λ rec, str_get rec "id" ++ py ": " ++
                                       str_get rec "title")
                               (take 5 (collected st));
                    archive := (disk m, []);
                    exchanges := trace st; exit := Finished |}
          else
            match
              write_output (world m session) (clock m) (disk m, [])
                (collected st) (default OUTPUT_DIR (arg_output args))
                (default [] (arg_query args)) (arg_size args) (arg_order args)
                (arg_searchtype args) (arg_abstracts args) (arg_source args)
            with
            | (st', _, Ok base_dir) =>
                Some {| printed :=
                          [py "Archived " ++
                           str_of_Z (Z.of_nat (length (collected st))) ++
                           py " records under " ++ path_str base_dir];
                        archive := st'; exchanges := trace st;
                        exit := Finished |}
            | (st', _, Raise e) =>
                Some {| printed := []; archive := st';
                        exchanges := trace st; exit := Uncaught e |}
            end) as Hrest.
  { rewrite <- Hmain. destruct stop; try done. by destruct (Hno e). }
  clear Hmain. destruct (arg_dry_run args).
  - left. split; [done|]. split; [done|]. congruence.
  - right. split; [done|]. split; [done|]. cbv zeta.
    destruct (write_output _ _ _ _ _ _ _ _ _ _ _)
      as [[st' records'] [base_dir|e]]; cbn [fst snd].
    + left. exists base_dir. split; [done | congruence].
    + right. exists e. split; [done | congruence].
Qed.




(** A run on a disk where the output directory cannot be made is left by
    an [OSError], though the cookie is missing as well. *)
Example directory_before_cookie :
  main Cases.read_only (Cases.arguments false) 5
    = Some {| printed := []; archive := (∅, []); exchanges := [];
              exit := Uncaught OSError |}.
Proof. by vm_compute. Qed.

Lemma collected_distinct server cfg fuel stop st :
  collect_run server cfg fuel = Some (stop, st) →
  NoDup ((λ r : record, r !! "id") <$> collected st).
Proof.
  intros Hrun.
  apply collect_run_invariant in Hrun as [[Hc _] _]. simpl in Hc.
  rewrite Hc. apply NoDup_dedup_first.
Qed.

(** X19.  What an archiving run of [main] leaves.  When the run has a
    query and a cookie, is not dry and finishes, the results file holds
    the records [collect_records] returned, in their order and with their
    fields, the artifact fields added: the ids are non-empty and pairwise
    distinct, no record has both a local path and a download error, and a
    local path names a file that is there, which is not the results file.
    [count] is the number of records, as is the number printed; and no
    more documents were requested than there are records. *)
Theorem main_archives (m : Machine) (args : Args) (fuel : nat) (run : Run) :
  main m args fuel = Some run → archiving m args → exit run = Finished →
  ∃ session referer site records payload,
    build_session (library_headers m) (environ m)
      = Some (session, referer, site) ∧
    collect_records (listing m session) (config_of args referer site) fuel
      = Some (Ok records) ∧
    (archive run).1 !! results_file args = Some (Json payload) ∧
    Forall2 same_but_artifact records (payload_records payload) ∧
    NoDup ((λ r : record, r !! "id") <$> payload_records payload) ∧
    Forall (λ r : record,
              (∃ i, r !! "id" = Some i ∧ i ≠ []) ∧
              ¬ (is_Some (r !! "pdf_local_path") ∧
                 is_Some (r !! "pdf_download_error")) ∧
              ∀ p, r !! "pdf_local_path" = Some p →
                   p ≠ results_file args ∧ is_Some ((archive run).1 !! p))
           (payload_records payload) ∧
    meta_count (payload_metadata payload) = Z.of_nat (length records) ∧
    meta_query (payload_metadata payload) = default [] (arg_query args) ∧
    meta_retrieved_at (payload_metadata payload) = clock m ∧
    printed run =
      [py "Archived " ++ str_of_Z (Z.of_nat (length records)) ++
       py " records under " ++
       path_str (path_div (default OUTPUT_DIR (arg_output args))
                          (slugify (default [] (arg_query args))))] ∧
    (length (archive run).2 ≤ length records)%nat.
Proof.
  intros Hmain (Hq & Hc & Hdry) Hexit.
  destruct (main_cases m args fuel run Hmain)
    as [[Hq' _] | [(_ & _ & ->) | [(_ & _ & Hc' & _) |
        (session & referer & site & stop & st & _ & _ & Hs & Hrun & Hrest)]]];
    [congruence | done | congruence |].
  destruct Hrest as [(e & _ & ->) | [(_ & Hdry' & _) | (Hno & _ & Hout)]];
    [done | congruence |].
  cbv zeta in Hout.
  destruct Hout as [(base_dir & Hok & ->) | (e & _ & ->)]; [|done].
  cbn [printed archive exchanges exit].
  exists session, referer, site, (collected st).
  set (root := default OUTPUT_DIR (arg_output args)) in *.
  set (query := default [] (arg_query args)) in *.
  set (data_dir := data_dir_of root query).
  set (w := world m session) in *.
  pose proof (download_papers_all w data_dir (collected st)
                (disk m, [])) as Hall.
  pose proof (download_papers_outcomes w data_dir (collected st)
                (disk m, [])) as Hout.
  destruct (download_papers_files w data_dir (collected st)
              (disk m, [])) as (_ & _ & new & Hlog & Hnew & _).
  cbv zeta in Hout.
  destruct (write_output_cases w (clock m) (disk m, []) (collected st) root
              query (arg_size args) (arg_order args) (arg_searchtype args)
              (arg_abstracts args) (arg_source args))
    as [[_ H] | [(_ & _ & H) | [(_ & _ & _ & H)
       | (_ & _ & residue & message & files & _ & _ & H)]]];
    rewrite H in Hok |- *; cbn [fst snd] in Hok |- *; try done.
  injection Hok as <-. clear H.
  fold data_dir. fold (results_file args).
  set (records' := (download_papers w data_dir (disk m, []) (collected st)).1.2)
    in *.
  eexists. split; [done|].
  split. { rewrite (collect_records_value _ _ _ _ _ Hrun).
           destruct stop; try done. by destruct (Hno e). }
  split; [by rewrite lookup_insert_eq|]. cbn [payload_records payload_metadata
    meta_count meta_query meta_retrieved_at].
  assert (Forall2 same_but_artifact (collected st) records') as Hsame
    by apply download_papers_same.
  split; [done|].
  split. { rewrite (same_ids _ _ Hsame). by eapply collected_distinct. }
  split.
  { apply Forall_lookup. intros k r' Hk.
    destruct (Forall2_lookup_r _ _ _ _ _ Hall Hk) as (r & Hr & Hsr & Hex).
    destruct (Forall2_lookup_r _ _ _ _ _ Hout Hk) as (r0 & Hr0 & _ & Hpath & _).
    assert (r0 = r) as -> by congruence.
    pose proof (collected_fresh _ _ _ _ _ Hrun) as Hfresh.
    pose proof (collected_has_id _ _ _ _ _ Hrun) as Hid.
    rewrite Forall_lookup in Hfresh, Hid.
    specialize (Hfresh k r Hr). specialize (Hid k r Hr).
    split. { destruct Hid as (i & Hi & Hne). exists i. by rewrite Hsr. }
    split; [by apply Hex|].
    intros p Hp. destruct (Hpath Hfresh p Hp) as (_ & -> & Hfile).
    assert (destination data_dir r ≠ results_file args) as Hne.
    { intros Heq. symmetry in Heq.
      by apply (metadata_not_destination root query
                  (default [] (r !! "id"))). }
    split; [done|]. by rewrite lookup_insert_ne. }
  split; [done|]. split; [done|]. split; [done|].
  split; [done|]. rewrite Hlog. simpl. lia.
Qed.

Lemma main_archives_witness :
  main (Cases.machine Cases.with_cookie) (Cases.arguments false) 5
    = Some Cases.full_run ∧
  ∃ payload,
    (archive Cases.full_run).1 !! results_file (Cases.arguments false)
      = Some (Json payload) ∧
    meta_count (payload_metadata payload) = 1 ∧
    printed Cases.full_run
      = [py "Archived 1 records under /home/user/projects/arXiv/output/q"].
Proof.
  assert (main (Cases.machine Cases.with_cookie) (Cases.arguments false) 5
          = Some Cases.full_run) as Hrun by (vm_compute; reflexivity).
  split; [exact Hrun|].
  assert (archiving (Cases.machine Cases.with_cookie) (Cases.arguments false))
    as Harch by (by repeat split).
  assert (exit Cases.full_run = Finished) as Hexit by (vm_compute; reflexivity).
  destruct (main_archives _ _ _ _ Hrun Harch Hexit)
    as (session & referer & site & records & payload & Hs & Hrecs & Hfile &
        _ & _ & _ & Hcount & _ & _ & Hprinted & _).
  exists payload. split; [exact Hfile|].
  assert (session = <["Cookie" := py "session=1"]>
                      (session_defaults Cases.with_cookie ∪
                       {[ "Connection" := py "keep-alive" ]}) ∧
          referer = None ∧ site = Some (py "cross-site")) as (-> & -> & ->).
  { apply build_session_some in Hs as (_ & -> & -> & ->). by repeat split. }
  assert (records = collected Samples.steady_final) as ->.
  { vm_compute in Hrecs. injection Hrecs as <-. vm_compute. reflexivity. }
  split; [rewrite Hcount; vm_compute; reflexivity|].
  rewrite Hprinted. vm_compute. reflexivity.
Defined.

(** X21.  The first request a run of [main] sends to the listing.  Its
    parameters are those of the arguments, without [start].  It has a
    [Referer] exactly when [ARXIV_REFERER] is set and not empty; its
    [Sec-Fetch-Site] is the value of [ARXIV_SEC_FETCH_SITE], [cross-site]
    when the variable is not set, but [same-origin] when the run has a
    referer, and the header is left out when the variable is set and
    empty. *)
Theorem main_first_request (m : Machine) (args : Args) (fuel : nat)
    (run : Run) (ex : Exchange) :
  main m args fuel = Some run → exchanges run !! 0%nat = Some ex →
  let h := default ∅ (headers (ex_request ex)) in
  let referer := environ m !! "ARXIV_REFERER" in
  let site := getenv (environ m) "ARXIV_SEC_FETCH_SITE" (py "cross-site") in
  ex_start ex = 0 ∧
  params (ex_request ex) =
    <["query" := default [] (arg_query args)]> (
    <["searchtype" := arg_searchtype args]> (
    <["abstracts" := arg_abstracts args]> (
    <["order" := arg_order args]> (
    <["size" := str_of_Z (arg_size args)]> (
    <["source" := arg_source args]> ∅))))) ∧
  h !! "Referer" = (if truthy_opt referer then referer else None) ∧
  h !! "Sec-Fetch-Site" =
    (if truthy site
     then Some (if truthy_opt referer then py "same-origin" else site)
     else None).
Proof.
  intros Hmain Hex h referer site.
  destruct (main_cases m args fuel run Hmain)
    as [[_ ->] | [(_ & _ & ->) | [(_ & _ & _ & ->) |
        (session & r & s & stop & st & _ & _ & Hs & Hrun & Hrest)]]];
    [done | done | done |].
  assert (exchanges run = trace st) as Htrace.
  { destruct Hrest as [(e & _ & ->) | [(_ & _ & ->) | (_ & _ & Hout)]];
      [done | done |]. cbv zeta in Hout.
    by destruct Hout as [(base_dir & _ & ->) | (e & _ & ->)]. }
  rewrite Htrace in Hex.
  apply build_session_some in Hs as (_ & _ & -> & ->).
  fold referer site in Hrun.
  destruct (collect_run_walk _ _ _ _ _ Hrun) as [_ Hchain _].
  destruct (Hchain 0%nat ex Hex) as [Hstart Hreq].
  cbn [referer_before config_of cfg_initial_referer cfg_size] in Hreq.
  change (Z.of_nat 0 * arg_size args) with 0 in Hreq.
  split; [by rewrite Hstart|].
  destruct (request_at_headers (config_of args referer (Some site)) 0 referer)
    as [Href Hsite].
  subst h. rewrite Hreq. split; [done|].
  cbv zeta in Href, Hsite. rewrite Href, Hsite.
  cbn [config_of cfg_initial_referer cfg_initial_sec_fetch_site truthy_opt
       default].
  split; [by destruct (truthy_opt referer)|].
  by destruct (truthy site).
Qed.

Lemma main_first_request_witness :
  main (Cases.machine Cases.with_cookie) (Cases.arguments true) 5
    = Some Cases.dry_run ∧
  ∃ ex, exchanges Cases.dry_run !! 0%nat = Some ex ∧
        default ∅ (headers (ex_request ex)) !! "Sec-Fetch-Site"
          = Some (py "cross-site").
Proof.
  assert (main (Cases.machine Cases.with_cookie) (Cases.arguments true) 5
          = Some Cases.dry_run) as Hrun by (vm_compute; reflexivity).
  split; [exact Hrun|].
  assert (is_Some (exchanges Cases.dry_run !! 0%nat)) as [ex Hex]
    by (apply lookup_lt_is_Some; vm_compute; lia).
  exists ex. split; [exact Hex|].
  destruct (main_first_request _ _ _ _ _ Hrun Hex) as (_ & _ & _ & Hsite).
  rewrite Hsite. reflexivity.
Defined.
